(** * rag-sergin: document ingestion pipeline and content extractor

    A shallow embedding of the TypeScript sources

      - [src/loaders/types.ts]     ([detectDocumentType])
      - [src/loaders/factory.ts]   ([DocumentLoaderFactory])
      - [src/utils/scraper.ts]     ([CheerioScraper], [PlaywrightScraper],
                                    [detectScraperEngine], [scrapeUrl])
      - [src/services/document.ts] ([processDocument])

    JavaScript strings are sequences of UTF-16 code units; external
    collaborators (the embedding model, the vector store, the HTML
    libraries, the clock, the uuid generator) are explicit parameters. *)

From Stdlib Require Import List NArith ZArith Arith Bool Lia String Ascii SpecFloat.
Import ListNotations.

Set Implicit Arguments.

(* ================================================================= *)
(** ** JavaScript strings *)

Module JS.

(** A string is the list of its UTF-16 code units. *)
Definition JsString := list N.

(** An ASCII literal of the source, as a JavaScript string. *)
Definition js (s : string) : JsString :=
  List.map N_of_ascii (list_ascii_of_string s).

Definition eqb (a b : JsString) : bool :=
  if list_eq_dec N.eq_dec a b then true else false.

(** [s.length] *)
Definition length (s : JsString) : nat := List.length s.

(** ECMAScript [WhiteSpace] and [LineTerminator] code points: what
    [String.prototype.trim] strips and what [\s] matches. *)
Definition isWhiteSpace (c : N) : bool :=
  ((9 <=? c) && (c <=? 13)          (* TAB LF VT FF CR *)
   || (c =? 32)                     (* SP *)
   || (c =? 160)                    (* NBSP *)
   || (c =? 5760)                   (* U+1680 *)
   || ((8192 <=? c) && (c <=? 8202)) (* U+2000 .. U+200A *)
   || (c =? 8232) || (c =? 8233)    (* LS PS *)
   || (c =? 8239)                   (* U+202F *)
   || (c =? 8287)                   (* U+205F *)
   || (c =? 12288)                  (* U+3000 *)
   || (c =? 65279))%N.              (* U+FEFF *)

Fixpoint trimStart (s : JsString) : JsString :=
  match s with
  | [] => []
  | c :: s' => if isWhiteSpace c then trimStart s' else s
  end.

Definition trimEnd (s : JsString) : JsString :=
  rev (trimStart (rev s)).

(** [s.trim()] *)
Definition trim (s : JsString) : JsString := trimEnd (trimStart s).

(** [s.startsWith(p)] *)
Fixpoint startsWith (s p : JsString) : bool :=
  match p, s with
  | [], _ => true
  | _ :: _, [] => false
  | d :: p', c :: s' => (c =? d)%N && startsWith s' p'
  end.

(** [s.includes(p)] *)
Fixpoint includes (s p : JsString) : bool :=
  startsWith s p ||
  match s with
  | [] => false
  | _ :: s' => includes s' p
  end.

(** [s.split(sep)] for a separator of one code unit. The result is
    never empty: a string without the separator gives [[s]]. *)
Fixpoint split (sep : N) (s : JsString) : list JsString :=
  match s with
  | [] => [[]]
  | c :: s' =>
      if (c =? sep)%N then [] :: split sep s'
      else match split sep s' with
           | [] => [[c]]
           | seg :: segs => (c :: seg) :: segs
           end
  end.

(** [a.pop()]: the last element, [undefined] on the empty array. *)
Fixpoint pop {A} (a : list A) : option A :=
  match a with
  | [] => None
  | [x] => Some x
  | _ :: a' => pop a'
  end.

(** Basic Latin case folding of one code unit. *)
Definition lowerAscii (c : N) : N :=
  if ((65 <=? c) && (c <=? 90))%N then (c + 32)%N else c.

Definition isAscii (s : JsString) : Prop := Forall (fun c => (c < 128)%N) s.

(** [String.prototype.toLowerCase] follows the Unicode case mapping
    tables, which are not part of the repository: the function is a
    parameter wherever the code calls it. On strings of Basic Latin
    code units it is [map lowerAscii]; that is the only fact used. *)
Definition LowerCaseOnAscii (toLowerCase : JsString -> JsString) : Prop :=
  forall s, isAscii s -> toLowerCase s = List.map lowerAscii s.

(** Basic Latin code units are folded where they stand, whatever
    stands before them: the case mapping of a Basic Latin code unit
    depends on no context, and none is part of a longer character. *)
Definition LowerCaseFoldsAsciiSuffix (toLowerCase : JsString -> JsString) : Prop :=
  forall s t, isAscii t ->
    exists lowered, toLowerCase (s ++ t) = lowered ++ List.map lowerAscii t.

(** The instance that folds Basic Latin and leaves every other code
    unit alone. *)
Definition toLowerCaseAscii (s : JsString) : JsString :=
  List.map lowerAscii s.

End JS.

Import JS.

(* ================================================================= *)
(** ** Errors and results *)

(** [ScraperEngine = "cheerio" | "playwright"] *)
Inductive ScraperEngine := cheerio | playwright.

(** One constructor per [throw new Error(...)] of the sources, carrying
    the values interpolated into the message; [Thrown] is a rejection
    raised by an external collaborator. *)
Inductive Error :=
  (* loaders/types.ts *)
  | UnsupportedFileType (extension : option JsString)
      (* `Tipo de arquivo não suportado: ${extension}. Suportados: PDF, EPUB, URL` *)
  (* utils/scraper.ts *)
  | HttpStatusNot200 (status : Z)
      (* `HTTP ${response.status} ao acessar URL` *)
  | ContentTooShort (engine : ScraperEngine) (len : nat)
      (* `Conteúdo muito curto (${cleanText.length} caracteres). ...` *)
  | AxiosTimeout (url : JsString)
      (* `Timeout ao acessar URL (${SCRAPER_CONFIG.timeout}ms): ${url}` *)
  | AxiosHttpError (status : Z) (url : JsString)
      (* `Erro HTTP ${axiosError.response.status} ao acessar URL: ${url}` *)
  | AxiosNetworkFailure (url : JsString)
      (* `Falha de rede ao acessar URL: ${url}` *)
  | CheerioScrapeFailed (cause : Error)
      (* `Erro ao fazer scraping da URL: ${error.message}` *)
  | PlaywrightNoDocument
      (* "Nenhum documento carregado pelo Playwright" *)
  | PlaywrightScrapeFailed (cause : Error)
      (* `Erro ao fazer scraping com Playwright: ${error.message}` *)
  (* services/document.ts *)
  | QdrantUnreachable (cause : Error)
      (* `❌ Falha ao conectar com Qdrant: ${error}` *)
  | NoDocuments
      (* "Nenhum documento encontrado no arquivo carregado." *)
  | NoChunks
      (* "Nenhum chunk gerado a partir do documento." *)
  | NoValidChunks
      (* "Nenhum chunk válido após filtrar conteúdo vazio." *)
  | NoValidVectors
      (* "Nenhum vetor válido gerado após validação de dimensões." *)
  (* external collaborators *)
  | Thrown (message : JsString).

Inductive Result (A : Type) :=
  | Ok (a : A)
  | Err (e : Error).
Arguments Ok {A} a.
Arguments Err {A} e.

(* ================================================================= *)
(** ** Loader selection ([loaders/types.ts], [loaders/factory.ts]) *)

Module Loaders.

(** [enum DocumentType] *)
Inductive DocumentType := PDF | EPUB | URL.

(** The classes implementing [IDocumentLoader]. *)
Inductive Loader := PDFDocumentLoader | EPUBDocumentLoader | URLDocumentLoader.

Definition dot : N := 46.

Section WithCaseMapping.
Variable toLowerCase : JsString -> JsString.

(** [fileName.startsWith("http://") || fileName.startsWith("https://")] *)
Definition isHttpLocator (fileName : JsString) : bool :=
  startsWith fileName (js "http://") || startsWith fileName (js "https://").

(** [fileName.toLowerCase().split(".").pop()] *)
Definition extensionOf (fileName : JsString) : option JsString :=
  pop (split dot (toLowerCase fileName)).

Definition detectDocumentType (fileName : JsString) : Result DocumentType :=
  if isHttpLocator fileName then Ok URL
  else
    let extension := extensionOf fileName in
    match extension with
    | Some e =>
        if eqb e (js "pdf") then Ok PDF
        else if eqb e (js "epub") then Ok EPUB
        else Err (UnsupportedFileType extension)
    | None => Err (UnsupportedFileType extension)
    end.

(** [DocumentLoaderFactory.createLoader]; the [default] branch of
    the source's [switch] has no value of the enum left to reach it. *)
Definition createLoader (type : DocumentType) : Loader :=
  match type with
  | PDF => PDFDocumentLoader
  | EPUB => EPUBDocumentLoader
  | URL => URLDocumentLoader
  end.

(** [DocumentLoaderFactory.createLoaderFromFileName] *)
Definition createLoaderFromFileName (fileName : JsString) : Result Loader :=
  match detectDocumentType fileName with
  | Ok type => Ok (createLoader type)
  | Err e => Err e
  end.

End WithCaseMapping.

End Loaders.

(* ================================================================= *)
(** ** Content extractor ([utils/scraper.ts]) *)

Module Scraper.

(** [interface ScrapedContent] *)
Record ScrapedContent := {
  content : JsString;
  title : option JsString;      (* string | null *)
  ogImage : option JsString;    (* string | null *)
  url : JsString;
  scrapedAt : JsString
}.

(** A double quote, for the selectors that contain one. *)
Definition dq : JsString := [34%N].

Definition UNWANTED_SELECTORS : list JsString :=
  [ js "script"; js "style"; js "nav"; js "footer"; js "header"; js "aside";
    js ".ad"; js ".advertisement"; js ".sidebar"; js ".social-share";
    js ".comments"; js ".related-posts"; js "#comments";
    js "[role='complementary']"; js "[aria-label='advertisement']" ].

Definition CONTENT_SELECTORS : list JsString :=
  [ js "article"; js "main"; js "[role=" ++ dq ++ js "main" ++ dq ++ js "]";
    js ".content"; js ".post-content"; js ".article-content";
    js ".entry-content"; js "#content"; js "body" ].

Definition PLAYWRIGHT_REQUIRED_DOMAINS : list JsString :=
  [ js "twitter.com"; js "x.com"; js "instagram.com"; js "linkedin.com";
    js "facebook.com"; js "medium.com" ].

Definition sel_og_title : JsString :=
  js "meta[property=" ++ dq ++ js "og:title" ++ dq ++ js "]".
Definition sel_og_image : JsString :=
  js "meta[property=" ++ dq ++ js "og:image" ++ dq ++ js "]".

(** *** Text clean-up shared by both scrapers *)

Definition LF : N := 10.

Definition isBlank (c : N) : bool := ((c =? 32) || (c =? 9))%N.

Fixpoint span (p : N -> bool) (s : JsString) : JsString * JsString :=
  match s with
  | [] => ([], [])
  | c :: s' =>
      if p c then let (a, b) := span p s' in (c :: a, b) else ([], s)
  end.

Definition countLF (s : JsString) : nat := count_occ N.eq_dec s LF.

(** What follows the last line feed of [run]. *)
Definition afterLastLF (run : JsString) : JsString :=
  rev (fst (span (fun c => negb (c =? LF)%N) (rev run))).

(** [.replace(/\n\s*\n\s*\n/g, "\n\n")]: a match starts at a line
    feed whose following white-space run holds two more line feeds
    and, both stars being greedy, ends at the last of them. *)
Fixpoint collapseBlankLinesFrom (fuel : nat) (s : JsString) : JsString :=
  match fuel with
  | O => s
  | S fuel' =>
      match s with
      | [] => []
      | c :: s' =>
          if (c =? LF)%N then
            let (run, rest) := span isWhiteSpace s' in
            if 2 <=? countLF run
            then LF :: LF :: collapseBlankLinesFrom fuel' (afterLastLF run ++ rest)
            else c :: collapseBlankLinesFrom fuel' s'
          else c :: collapseBlankLinesFrom fuel' s'
      end
  end.

Definition collapseBlankLines (s : JsString) : JsString :=
  collapseBlankLinesFrom (List.length s) s.

(** [.replace(/[ \t]+/g, " ")] *)
Fixpoint collapseSpaces (s : JsString) : JsString :=
  match s with
  | [] => []
  | c :: s' =>
      if isBlank c then
        match s' with
        | d :: _ => if isBlank d then collapseSpaces s' else 32%N :: collapseSpaces s'
        | [] => [32%N]
        end
      else c :: collapseSpaces s'
  end.

(** [PlaywrightScraper.cleanText], and the tail of
    [CheerioScraper.htmlToCleanText]. *)
Definition cleanText (text : JsString) : JsString :=
  trim (collapseSpaces (collapseBlankLines text)).

(** A JavaScript string used as a condition: [""] is falsy. *)
Definition truthy (s : JsString) : bool :=
  match s with [] => false | _ :: _ => true end.

(** A [string | undefined] value used as a condition ([if (value)],
    [!value], [value || null]): the value when it is truthy. *)
Definition orNull (v : option JsString) : option JsString :=
  match v with
  | Some s => if truthy s then Some s else None
  | None => None
  end.

(** *** External collaborators of the scrapers *)

(** How [axios.get] settles. *)
Inductive AxiosOutcome :=
  | AxiosResponse (status : Z) (data : JsString)
  | AxiosRejected (message : JsString) (code : option JsString)
                  (response : option Z) (request : bool)
      (* an [AxiosError]: its [code], the status of its [response]
         when it has one, whether it has a [request] *)
  | AxiosThrew (message : JsString).
      (* any other exception *)

(** The object [JSON.parse] gives back for the string built in the
    [evaluate] callback ([{ title, ogImage, content }]). *)
Record PageData := {
  pd_title : option JsString;
  pd_ogImage : option JsString;
  pd_content : JsString
}.

(** cheerio, html-to-text, the WHATWG [URL] class, axios, the
    Playwright loader and the clock. [Dom] is the loaded document [$]. *)
Record Libs := {
  Dom : Type;
  axios_get : JsString -> AxiosOutcome;
  cheerio_load : JsString -> Dom;
  attr : Dom -> JsString -> JsString -> option JsString;
    (* [$(selector).attr(name)] *)
  text : Dom -> JsString -> JsString;
    (* [$(selector).text()] *)
  first_text : Dom -> JsString -> JsString;
    (* [$(selector).first().text()] *)
  first_html : Dom -> JsString -> option (option JsString);
    (* [$(selector).first()]: [None] when its [length] is 0,
       otherwise its [html()], which may be [null] *)
  html : Dom -> JsString -> option JsString;
    (* [$(selector).html()] *)
  remove : Dom -> JsString -> Dom;
    (* [$(selector).remove()] *)
  convert : JsString -> JsString;
    (* html-to-text with the options of [htmlToCleanText] *)
  resolveURL : JsString -> JsString -> option JsString;
    (* [new URL(relative, base).href]; [None] when it throws *)
  playwright_load : JsString -> Result (list JsString);
    (* [pageContent] of the documents of [loader.load()] *)
  JSON_parse : JsString -> Result PageData;
  now_toISOString : JsString
    (* [new Date().toISOString()] *)
}.

Section WithLibs.
Variable L : Libs.

(** *** CheerioScraper *)

Definition extractTitle (dom : Dom L) : option JsString :=
  match orNull (attr L dom sel_og_title (js "content")) with
  | Some ogTitle => Some (trim ogTitle)
  | None =>
      let titleTag := text L dom (js "title") in
      if truthy titleTag then Some (trim titleTag)
      else
        let h1 := first_text L dom (js "h1") in
        if truthy h1 then Some (trim h1) else None
  end.

Definition extractOgImage (dom : Dom L) (baseUrl : JsString) : option JsString :=
  match orNull (attr L dom sel_og_image (js "content")) with
  | None => None
  | Some ogImage =>
      match resolveURL L ogImage baseUrl with
      | Some href => Some href
      | None => Some ogImage
      end
  end.

Fixpoint firstContent (dom : Dom L) (selectors : list JsString) : option JsString :=
  match selectors with
  | [] => None
  | selector :: rest =>
      match first_html L dom selector with
      | Some (Some h) =>
          if 0 <? JS.length (trim h) then Some h else firstContent dom rest
      | _ => firstContent dom rest
      end
  end.

Definition extractMainContent (dom : Dom L) : JsString :=
  match firstContent dom CONTENT_SELECTORS with
  | Some h => h
  | None =>
      match html L dom (js "body") with
      | Some h => if truthy h then h else []
      | None => []
      end
  end.

Definition htmlToCleanText (h : JsString) : JsString :=
  cleanText (convert L h).

(** The body of the [try] block, from the response on. *)
Definition cheerioTry (url : JsString) (status : Z) (data : JsString)
  : Result ScrapedContent :=
  if negb (status =? 200)%Z then Err (HttpStatusNot200 status)
  else
    let dom := cheerio_load L data in
    let title := extractTitle dom in
    let ogImage := extractOgImage dom url in
    let dom := fold_left (remove L) UNWANTED_SELECTORS dom in
    let mainContent := extractMainContent dom in
    let cleanText := htmlToCleanText mainContent in
    if JS.length cleanText <? 100 then
      Err (ContentTooShort cheerio (JS.length cleanText))
    else
      Ok {| content := cleanText; title := title; ogImage := ogImage;
            url := url; scrapedAt := now_toISOString L |}.

(** The value of [cleanText] in [CheerioScraper.scrape] for a
    response body [data]. *)
Definition cheerioCleanText (data : JsString) : JsString :=
  htmlToCleanText
    (extractMainContent
       (fold_left (remove L) UNWANTED_SELECTORS (cheerio_load L data))).

(** [CheerioScraper.scrape]: the [try] block and its [catch]. *)
Definition cheerioScrape (url : JsString) : Result ScrapedContent :=
  match axios_get L url with
  | AxiosResponse status data =>
      match cheerioTry url status data with
      | Ok r => Ok r
      | Err e => Err (CheerioScrapeFailed e)
      end
  | AxiosRejected message code response request =>
      if match code with Some c => eqb c (js "ECONNABORTED") | None => false end
      then Err (AxiosTimeout url)
      else match response with
           | Some status => Err (AxiosHttpError status url)
           | None =>
               if request then Err (AxiosNetworkFailure url)
               else Err (CheerioScrapeFailed (Thrown message))
           end
  | AxiosThrew message => Err (CheerioScrapeFailed (Thrown message))
  end.

(** *** PlaywrightScraper *)

(** The body of the [try] block; the [evaluate] callback runs
    inside the browser and is part of [playwright_load]. *)
Definition playwrightTry (url : JsString) : Result ScrapedContent :=
  match playwright_load L url with
  | Err e => Err e
  | Ok [] => Err PlaywrightNoDocument
  | Ok (pageContent :: _) =>
      match JSON_parse L pageContent with
      | Err e => Err e
      | Ok data =>
          let cleanText := cleanText (pd_content data) in
          if JS.length cleanText <? 100 then
            Err (ContentTooShort playwright (JS.length cleanText))
          else
            Ok {| content := cleanText;
                  title := orNull (pd_title data);
                  ogImage := orNull (pd_ogImage data);
                  url := url; scrapedAt := now_toISOString L |}
      end
  end.

Definition playwrightScrape (url : JsString) : Result ScrapedContent :=
  match playwrightTry url with
  | Ok r => Ok r
  | Err e => Err (PlaywrightScrapeFailed e)
  end.

(** *** Factory and helpers *)

(** [interface IScraper] *)
Record IScraper := { scrape : JsString -> Result ScrapedContent }.

Definition CheerioScraper : IScraper := {| scrape := cheerioScrape |}.
Definition PlaywrightScraper : IScraper := {| scrape := playwrightScrape |}.

Definition createScraper (engine : ScraperEngine) : IScraper :=
  match engine with
  | cheerio => CheerioScraper
  | playwright => PlaywrightScraper
  end.

Variable toLowerCase : JsString -> JsString.

Definition detectScraperEngine (url : JsString) : ScraperEngine :=
  let needsPlaywright :=
    existsb (fun domain => includes (toLowerCase url) domain)
            PLAYWRIGHT_REQUIRED_DOMAINS in
  if needsPlaywright then playwright else cheerio.

(** [engine || detectScraperEngine(url)]: both engine names are
    non-empty strings, so a supplied engine is always taken. *)
Definition selectedEngine (url : JsString) (engine : option ScraperEngine)
  : ScraperEngine :=
  match engine with
  | Some e => e
  | None => detectScraperEngine url
  end.

Definition scrapeUrl (url : JsString) (engine : option ScraperEngine)
  : Result ScrapedContent :=
  scrape (createScraper (selectedEngine url engine)) url.

End WithLibs.

End Scraper.

(* ================================================================= *)
(** ** Ingestion pipeline ([services/document.ts]) *)

Module Ingestion.
Import Loaders.

(** *** Data *)

(** A [number] is an IEEE 754 double. *)
Definition number := spec_float.

(** [number[]] *)
Definition Vector := list number.

Inductive JsValue :=
  | VUndefined
  | VNumber (n : Z)
  | VString (s : JsString).

(** An object literal: its own properties in insertion order. *)
Definition JsObject := list (string * JsValue).

Definition keys (o : JsObject) : list string := List.map fst o.

Fixpoint get (o : JsObject) (k : string) : option JsValue :=
  match o with
  | [] => None
  | (k', v) :: o' => if String.eqb k' k then Some v else get o' k
  end.

(** Defining property [k]: an existing key keeps its place. *)
Fixpoint set (o : JsObject) (k : string) (v : JsValue) : JsObject :=
  match o with
  | [] => [(k, v)]
  | (k', v') :: o' =>
      if String.eqb k' k then (k', v) :: o' else (k', v') :: set o' k v
  end.

(** [{ ...o, ...src }] *)
Definition spread (o src : JsObject) : JsObject :=
  fold_left (fun acc kv => set acc (fst kv) (snd kv)) src o.

(** A LangChain [Document], with the one metadata path the pipeline
    reads: [metadata.loc?.pageNumber]. *)
Record Document := {
  pageContent : JsString;
  loc_pageNumber : option Z
}.

(** An element of [documentsChunksWithMetadata]. *)
Record Chunk := {
  chunk_id : JsString;
  chunk_text : JsString;
  chunk_metadata : JsObject
}.

(** An element of [validData]: a point of the collection. *)
Record Point := {
  id : JsString;
  vector : Vector;
  payload : JsObject
}.

Record DocumentDto := {
  fileName : JsString;
  filePath : JsString;
  fileSize : option Z
}.

Record UploadResponse := {
  success : bool;
  documentId : JsString;
  chunksCount : nat;
  message : option JsString
}.

(** *** The world outside the process *)

(** What the pipeline does to the outside, in order. *)
Inductive Event :=
  | EvUuid                                  (* [uuidv4()] *)
  | EvClock                                 (* [new Date()] *)
  | EvEmbed (batch : list JsString)         (* [embeddings.embedDocuments(batch)] *)
  | EvUpsert (batch : list Point) (failure : option Error)
                                            (* [qdrantClient.upsert], and how it settled *)
  | EvSleep (ms : Z).                       (* [setTimeout(resolve, ms)] *)

(** The points of the Qdrant collection and the history so far. *)
Record World := {
  collection : list Point;
  trace : list Event
}.

Definition log (ev : Event) (w : World) : World :=
  {| collection := collection w; trace := trace w ++ [ev] |}.

(** The external collaborators. Each may answer differently every
    time: its answer is a function of the whole history. *)
Record Env := {
  getCollections : World -> option Error;
    (* [None]: the promise resolves *)
  load : Loader -> JsString -> World -> Result (list Document);
  splitDocuments : list Document -> World -> Result (list Document);
  uuidv4 : World -> JsString;
  now_toISOString : World -> JsString;
  embedDocuments : World -> list JsString -> Result (list Vector);
  upsert : World -> list Point -> option Error
}.

(** *** State and exceptions *)

Definition M (A : Type) : Type := World -> Result A * World.

Definition ret {A} (a : A) : M A := fun w => (Ok a, w).

Definition throw {A} (e : Error) : M A := fun w => (Err e, w).

Definition bind {A B} (m : M A) (k : A -> M B) : M B :=
  fun w =>
    match m w with
    | (Ok a, w') => k a w'
    | (Err e, w') => (Err e, w')
    end.

(** [try { m } catch (error) { h(error) }] *)
Definition try_catch {A} (m : M A) (h : Error -> M A) : M A :=
  fun w =>
    match m w with
    | (Ok a, w') => (Ok a, w')
    | (Err e, w') => h e w'
    end.

Definition lift {A} (r : Result A) : M A := fun w => (r, w).

Declare Scope js_scope.
Delimit Scope js_scope with js.
Notation "x <- m ;; k" := (bind m (fun x => k))
  (at level 61, m at next level, right associativity) : js_scope.
Notation "m ;; k" := (bind m (fun _ => k))
  (at level 61, right associativity) : js_scope.
Local Open Scope js_scope.

(** [a.slice(i, j)] for [0 <= i <= j] *)
Definition slice {A} (a : list A) (i j : nat) : list A :=
  firstn (j - i) (skipn i a).

(** [a.map((x, index) => f(x, index))], from index [i] on. *)
Fixpoint mapWithIndex {A B} (f : A -> nat -> B) (i : nat) (a : list A) : list B :=
  match a with
  | [] => []
  | x :: a' => f x i :: mapWithIndex f (S i) a'
  end.

(** [a.filter((item) => item !== null)] *)
Fixpoint filterNotNull {A} (a : list (option A)) : list A :=
  match a with
  | [] => []
  | Some x :: a' => x :: filterNotNull a'
  | None :: a' => filterNotNull a'
  end.

Definition EMBEDDING_BATCH_SIZE : nat := 50.
Definition EXPECTED_DIMENSION : nat := 384.
Definition BATCH_SIZE : nat := 50.

Section WithEnv.
Variable toLowerCase : JsString -> JsString.
Variable env : Env.

(** *** Calls to the outside *)

Definition call_uuidv4 : M JsString :=
  fun w => (Ok (uuidv4 env w), log EvUuid w).

Definition call_now : M JsString :=
  fun w => (Ok (now_toISOString env w), log EvClock w).

Definition call_embedDocuments (batch : list JsString) : M (list Vector) :=
  fun w => (embedDocuments env w batch, log (EvEmbed batch) w).

(** A successful upsert adds the batch to the collection. *)
Definition call_upsert (batch : list Point) : M unit :=
  fun w =>
    match upsert env w batch with
    | None =>
        (Ok tt, {| collection := collection w ++ batch;
                   trace := trace w ++ [EvUpsert batch None] |})
    | Some e => (Err e, log (EvUpsert batch (Some e)) w)
    end.

Definition sleep (ms : Z) : M unit :=
  fun w => (Ok tt, log (EvSleep ms) w).

Definition call_load (loader : Loader) (path : JsString) : M (list Document) :=
  fun w => (load env loader path w, w).

Definition call_splitDocuments (documents : list Document) : M (list Document) :=
  fun w => (splitDocuments env documents w, w).

(** *** 0 - 2: connection check, loading, splitting *)

Definition checkConnection : M unit :=
  fun w =>
    match getCollections env w with
    | None => (Ok tt, w)
    | Some e => (Err (QdrantUnreachable e), w)
    end.

Definition loadAndSplit (dto : DocumentDto) : M (list Document) :=
  checkConnection ;;
  loader <- lift (createLoaderFromFileName toLowerCase (fileName dto)) ;;
  documents <- call_load loader (filePath dto) ;;
  if List.length documents =? 0 then throw NoDocuments
  else
    chunks <- call_splitDocuments documents ;;
    if List.length chunks =? 0 then throw NoChunks
    else ret chunks.

(** *** 3: filtering and metadata *)

(** The predicate of [chunks.filter(...)]. *)
Definition longEnough (chunk : Document) : bool :=
  10 <=? JS.length (trim (pageContent chunk)).

(** One step of [validChunks.map((chunk, index) => ({...}))]. *)
Definition withMetadata (documentId fileName : JsString)
           (chunk : Document) (index : nat) : M Chunk :=
  id <- call_uuidv4 ;;
  uploadAt <- call_now ;;
  ret {| chunk_id := id;
         chunk_text := trim (pageContent chunk);
         chunk_metadata :=
           [ ("documentId"%string, VString documentId);
             ("chunkIndex"%string, VNumber (Z.of_nat index));
             ("fileName"%string, VString fileName);
             ("uploadAt"%string, VString uploadAt);
             ("page"%string,
               match loc_pageNumber chunk with
               | Some n => VNumber n
               | None => VUndefined
               end) ] |}.

Fixpoint mapWithMetadata (documentId fileName : JsString) (index : nat)
         (validChunks : list Document) : M (list Chunk) :=
  match validChunks with
  | [] => ret []
  | chunk :: rest =>
      c <- withMetadata documentId fileName chunk index ;;
      cs <- mapWithMetadata documentId fileName (S index) rest ;;
      ret (c :: cs)
  end.

Definition buildChunks (fileName : JsString) (chunks : list Document)
  : M (JsString * list Chunk) :=
  documentId <- call_uuidv4 ;;
  let validChunks := filter longEnough chunks in
  if List.length validChunks =? 0 then throw NoValidChunks
  else
    documentsChunksWithMetadata <-
      mapWithMetadata documentId fileName 0 validChunks ;;
    ret (documentId, documentsChunksWithMetadata).

(** *** 4: embeddings, in batches *)

(** [for (let i = ...; i < texts.length; i += EMBEDDING_BATCH_SIZE)];
    [fuel] bounds the iterations left. *)
Fixpoint embedLoop (fuel : nat) (texts : list JsString) (i : nat)
         (embeddingsVectors : list Vector) : M (list Vector) :=
  match fuel with
  | O => ret embeddingsVectors
  | S fuel' =>
      if i <? List.length texts then
        let batch := slice texts i (i + EMBEDDING_BATCH_SIZE) in
        batchEmbeddings <- call_embedDocuments batch ;;
        embedLoop fuel' texts (i + EMBEDDING_BATCH_SIZE)
                  (embeddingsVectors ++ batchEmbeddings)
      else ret embeddingsVectors
  end.

(** Every iteration moves [i] forward, so [texts.length]
    iterations are enough ([embedLoop_fuel] below). *)
Definition generateEmbeddings (texts : list JsString) : M (list Vector) :=
  embedLoop (List.length texts) texts 0 [].

(** *** 5: validation and batched, retried insertion *)

(** The callback of [documentsChunksWithMetadata.map(...)]: [null]
    when the vector is missing or has the wrong length. *)
Definition toPoint (embeddingsVectors : list Vector)
           (chunk : Chunk) (index : nat) : option Point :=
  match nth_error embeddingsVectors index with
  | None => None
  | Some vector =>
      if negb (List.length vector =? EXPECTED_DIMENSION) then None
      else Some {| id := chunk_id chunk;
                   vector := vector;
                   payload := spread [("text"%string, VString (chunk_text chunk))]
                                     (chunk_metadata chunk) |}
  end.

Definition validate (documentsChunksWithMetadata : list Chunk)
           (embeddingsVectors : list Vector) : list Point :=
  filterNotNull (mapWithIndex (toPoint embeddingsVectors) 0
                              documentsChunksWithMetadata).

(** [while (retries > 0) { try { upsert; break } catch { ... } }] *)
Fixpoint upsertRetrying (retries : nat) (delay : Z) (batch : list Point)
  : M unit :=
  match retries with
  | O => ret tt
  | S retries' =>
      try_catch (call_upsert batch)
        (fun error =>
           if retries' =? 0 then throw error
           else
             sleep delay ;;
             upsertRetrying retries' (delay * 2) batch)
  end.

Definition writeBatch (batch : list Point) : M unit :=
  upsertRetrying 3 1000 batch.

(** [for (let i = 0; i < data.length; i += BATCH_SIZE)] *)
Fixpoint insertLoop (fuel : nat) (data : list Point) (i : nat) : M unit :=
  match fuel with
  | O => ret tt
  | S fuel' =>
      if i <? List.length data then
        let batch := slice data i (i + BATCH_SIZE) in
        writeBatch batch ;;
        insertLoop fuel' data (i + BATCH_SIZE)
      else ret tt
  end.

Definition insertPoints (data : list Point) : M unit :=
  insertLoop (List.length data) data 0.

Definition storePoints (documentsChunksWithMetadata : list Chunk)
           (embeddingsVectors : list Vector) : M unit :=
  let validData := validate documentsChunksWithMetadata embeddingsVectors in
  if List.length validData =? 0 then throw NoValidVectors
  else insertPoints validData.

(** *** processDocument *)

Definition processDocument (dto : DocumentDto) : M UploadResponse :=
  chunks <- loadAndSplit dto ;;
  built <- buildChunks (fileName dto) chunks ;;
  let documentId := fst built in
  let documentsChunksWithMetadata := snd built in
  let texts := List.map chunk_text documentsChunksWithMetadata in
  embeddingsVectors <- generateEmbeddings texts ;;
  storePoints documentsChunksWithMetadata embeddingsVectors ;;
  ret {| success := true;
         documentId := documentId;
         chunksCount := List.length documentsChunksWithMetadata;
         message := Some (js "Documento processado com sucesso!") |}.

End WithEnv.

End Ingestion.

(* ================================================================= *)
(** ** What the specification calls things *)

Module SpecTerms.
Import Loaders Scraper Ingestion.

(** [s] starts with [p]. *)
Definition StartsWith (s p : JsString) : Prop := exists rest, s = p ++ rest.

(** [p] occurs in [s]. *)
Definition Contains (s p : JsString) : Prop :=
  exists before after, s = before ++ p ++ after.

(** A file name has extension [ext] when it ends in a dot followed
    by [ext], [ext] holding no dot; a name without any dot counts as
    its own extension, as [split(".").pop()] has it. *)
Definition HasExtension (name ext : JsString) : Prop :=
  ~ In dot ext /\ (name = ext \/ exists stem, name = stem ++ dot :: ext).

(** The host of a URL: what stands between ["://"] and the first of
    [/], [?], [#], without user information and port. *)
Fixpoint afterScheme (s : JsString) : option JsString :=
  match s with
  | [] => None
  | c :: s' =>
      if startsWith s (js "://") then Some (skipn 3 s) else afterScheme s'
  end.

Definition isAuthorityEnd (c : N) : bool :=
  ((c =? 47) || (c =? 63) || (c =? 35))%N.       (* / ? # *)

Fixpoint afterLast (sep : N) (s : JsString) : JsString :=
  match s with
  | [] => []
  | c :: s' => if existsb (N.eqb sep) s' then afterLast sep s'
               else if (c =? sep)%N then s' else s
  end.

Definition urlHost (url : JsString) : JsString :=
  let rest := match afterScheme url with Some r => r | None => url end in
  let authority := fst (span (fun c => negb (isAuthorityEnd c)) rest) in
  let hostport := afterLast 64 authority in             (* @ *)
  fst (span (fun c => negb (c =? 58)%N) hostport).       (* : *)

(** [s.endsWith(p)] *)
Definition endsWith (s p : JsString) : bool :=
  startsWith (rev s) (rev p).

(** The host is one of the listed domains, or a subdomain of one. *)
Definition domainListed (host : JsString) : bool :=
  existsb (fun domain => eqb host domain || endsWith host (dot :: domain))
          PLAYWRIGHT_REQUIRED_DOMAINS.

(** The first candidate that is a non-empty string. *)
Fixpoint firstPresent (candidates : list (option JsString)) : option JsString :=
  match candidates with
  | [] => None
  | Some (c :: s) :: _ => Some (c :: s)
  | _ :: rest => firstPresent rest
  end.

(** [ceil(n / d)] *)
Definition ceilDiv (n d : nat) : nat := (n + (d - 1)) / d.

(** The batches a list is cut into: [size] elements each, the rest
    in the last one. *)
Definition batchesOf {A} (size : nat) (a : list A) : list (list A) :=
  List.map (fun k => slice a (size * k) (size * k + size))
           (seq 0 (ceilDiv (List.length a) size)).

(** The texts handed to [embedDocuments], in order. *)
Fixpoint embedCalls (t : list Event) : list (list JsString) :=
  match t with
  | [] => []
  | EvEmbed batch :: t' => batch :: embedCalls t'
  | _ :: t' => embedCalls t'
  end.

(** What one write batch may leave in the history: up to three
    attempts, a pause of 1000 ms after the first failure and of
    2000 ms after the second; the outcome is the failure of the third
    attempt, if it came to that. *)
Inductive BatchAttempts (batch : list Point) : list Event -> option Error -> Prop :=
  | first_attempt_ok :
      BatchAttempts batch [EvUpsert batch None] None
  | second_attempt_ok e1 :
      BatchAttempts batch
        [EvUpsert batch (Some e1); EvSleep 1000; EvUpsert batch None] None
  | third_attempt_ok e1 e2 :
      BatchAttempts batch
        [EvUpsert batch (Some e1); EvSleep 1000;
         EvUpsert batch (Some e2); EvSleep 2000; EvUpsert batch None] None
  | attempts_exhausted e1 e2 e3 :
      BatchAttempts batch
        [EvUpsert batch (Some e1); EvSleep 1000;
         EvUpsert batch (Some e2); EvSleep 2000; EvUpsert batch (Some e3)]
        (Some e3).

(** A run over the batches in order: the history it leaves, the
    points it commits and how it ends. The first batch that exhausts
    its attempts ends the run; nothing committed before is undone and
    no later batch is tried. *)
Inductive WriteRun : list (list Point) -> list Event -> list Point -> option Error -> Prop :=
  | run_finished : WriteRun [] [] [] None
  | run_batch_ok batch rest evs evs' committed outcome :
      BatchAttempts batch evs None ->
      WriteRun rest evs' committed outcome ->
      WriteRun (batch :: rest) (evs ++ evs') (batch ++ committed) outcome
  | run_batch_failed batch rest evs e :
      BatchAttempts batch evs (Some e) ->
      WriteRun (batch :: rest) evs [] (Some e).

(** The [upsert] attempts of a history. *)
Fixpoint upsertAttempts (t : list Event) : nat :=
  match t with
  | [] => 0
  | EvUpsert _ _ :: t' => S (upsertAttempts t')
  | _ :: t' => upsertAttempts t'
  end.

(** A batch exhausts its attempts in a history: three failed upserts
    of it, with the two pauses between them. *)
Definition ExhaustsAttempts (t : list Event) : Prop :=
  exists before batch e1 e2 e3 after,
    t = before
        ++ [EvUpsert batch (Some e1); EvSleep 1000;
            EvUpsert batch (Some e2); EvSleep 2000; EvUpsert batch (Some e3)]
        ++ after.

(** The chunks that pass validation against the vectors: those whose
    vector, at the same position, has 384 components. *)
Fixpoint validPairs (chunks : list Chunk) (vectors : list Vector)
  : list (Chunk * Vector) :=
  match chunks with
  | [] => []
  | c :: chunks' =>
      match vectors with
      | [] => []
      | v :: vectors' =>
          if List.length v =? 384 then (c, v) :: validPairs chunks' vectors'
          else validPairs chunks' vectors'
      end
  end.

(** The batches the two [for] loops cut, as a function of the loop
    variable: one [slice] per iteration. *)
Fixpoint slicesFrom {A} (size fuel : nat) (a : list A) (i : nat) : list (list A) :=
  match fuel with
  | O => []
  | S fuel' =>
      if i <? List.length a
      then slice a i (i + size) :: slicesFrom size fuel' a (i + size)
      else []
  end.

Definition PAYLOAD_KEYS : list string :=
  ["text"; "documentId"; "chunkIndex"; "fileName"; "uploadAt"; "page"]%string.

(** The point [toPoint] builds from a chunk and its vector. *)
Definition pointOf (cv : Chunk * Vector) : Point :=
  {| id := chunk_id (fst cv);
     vector := snd cv;
     payload := spread [("text"%string, VString (chunk_text (fst cv)))]
                       (chunk_metadata (fst cv)) |}.

(** The write stage seen from the store: attempts and pauses. *)
Inductive WriteStep :=
  | Attempt (failed : bool)
  | Pause (ms : Z).

Fixpoint writeSteps (t : list Event) : list WriteStep :=
  match t with
  | [] => []
  | EvUpsert _ (Some _) :: t' => Attempt true :: writeSteps t'
  | EvUpsert _ None :: t' => Attempt false :: writeSteps t'
  | EvSleep ms :: t' => Pause ms :: writeSteps t'
  | _ :: t' => writeSteps t'
  end.

End SpecTerms.

(* ================================================================= *)
(** ** Concrete collaborators, for examples *)

Module Demo.
Import Loaders Scraper Ingestion.

(** *** A page and the libraries around it *)

Definition shortPage : JsString := js "Three word page".

Definition longPage : JsString :=
  js "A page whose only paragraph is long enough to pass the gate of one hundred characters that both scrapers apply.".

(** The document is its body text; there is no metadata. *)
Definition libs (outcome : AxiosOutcome) (page : JsString) : Libs :=
  {| Dom := JsString;
     axios_get := fun _ => outcome;
     cheerio_load := fun data => data;
     attr := fun _ _ _ => None;
     text := fun _ _ => [];
     first_text := fun _ _ => [];
     first_html := fun dom selector =>
                     if eqb selector (js "body") then Some (Some dom) else None;
     html := fun dom _ => Some dom;
     remove := fun dom _ => dom;
     convert := fun h => h;
     resolveURL := fun relative _ => Some relative;
     playwright_load := fun _ => Ok [page];
     JSON_parse := fun s =>
                     Ok {| pd_title := None; pd_ogImage := None; pd_content := s |};
     Scraper.now_toISOString := js "2025-01-01T00:00:00.000Z" |}.

(** *** An ingestion with one bad vector *)

Definition zeros (n : nat) : Vector := repeat (S754_zero false) n.

Definition chunkA : Document :=
  {| pageContent := js "  first chunk of text  "; loc_pageNumber := Some 1%Z |}.
Definition chunkTiny : Document :=
  {| pageContent := js "   tiny    "; loc_pageNumber := None |}.
Definition chunkB : Document :=
  {| pageContent := js "second chunk of text"; loc_pageNumber := None |}.

Definition upsertsSoFar (w : World) : nat :=
  SpecTerms.upsertAttempts (trace w).

(** The store rejects the first [failures] upserts. The embedding
    model answers with 384 components, except for a text that starts
    with "second", which gets 256. *)
Definition env (failures : nat) : Env :=
  {| getCollections := fun _ => None;
     load := fun _ _ _ =>
               Ok [ {| pageContent := js "the whole file"; loc_pageNumber := None |} ];
     splitDocuments := fun _ _ => Ok [chunkA; chunkTiny; chunkB];
     uuidv4 := fun w => js "uuid-" ++ [N.of_nat (List.length (trace w))];
     Ingestion.now_toISOString := fun _ => js "2025-01-01T00:00:00.000Z";
     embedDocuments := fun _ batch =>
       Ok (List.map (fun t => if startsWith t (js "second")
                              then zeros 256 else zeros 384) batch);
     upsert := fun w _ =>
       if upsertsSoFar w <? failures then Some (Thrown (js "timeout")) else None |}.

Definition dto : DocumentDto :=
  {| fileName := js "book.pdf"; filePath := js "/uploads/book.pdf";
     fileSize := None |}.

Definition emptyWorld : World := {| collection := []; trace := [] |}.

Definition run (failures : nat) : Result UploadResponse * World :=
  processDocument toLowerCaseAscii (env failures) dto emptyWorld.

(** A store that accepts [successes] upserts and rejects all later
    ones, and sixty points to write to it. *)
Definition envFailingAfter (successes : nat) : Env :=
  {| getCollections := getCollections (env 0);
     load := load (env 0);
     splitDocuments := splitDocuments (env 0);
     uuidv4 := uuidv4 (env 0);
     Ingestion.now_toISOString := Ingestion.now_toISOString (env 0);
     embedDocuments := embedDocuments (env 0);
     upsert := fun w _ =>
       if upsertsSoFar w <? successes then None else Some (Thrown (js "timeout")) |}.

Definition sixtyPoints : list Point :=
  List.map (fun k => {| id := [N.of_nat k]; vector := []; payload := [] |}) (seq 0 60).

End Demo.

(* ================================================================= *)
(** ** Observations on a run of the pipeline *)

Module Observations.
Import Loaders Scraper Ingestion SpecTerms.

(** The kinds of events: identifiers and timestamps, embedding calls,
    writes to the store. *)
Definition isIdEvent (ev : Event) : bool :=
  match ev with EvUuid | EvClock => true | _ => false end.

Definition isEmbedEvent (ev : Event) : bool :=
  match ev with EvEmbed _ => true | _ => false end.

Definition isWriteEvent (ev : Event) : bool :=
  match ev with EvUpsert _ _ | EvSleep _ => true | _ => false end.

(** The batches the store accepted, in order. *)
Fixpoint acceptedBatches (t : list Event) : list (list Point) :=
  match t with
  | [] => []
  | EvUpsert batch None :: t' => batch :: acceptedBatches t'
  | _ :: t' => acceptedBatches t'
  end.

(** The world a call that started in [w] is in after [events], as
    long as nothing was written: the collection is still that of [w]. *)
Definition worldAt (w : World) (events : list Event) : World :=
  {| collection := collection w; trace := trace w ++ events |}.

(** [uuidv4] answers differently at any two different points of the
    identifier phase of a history that starts in [w] and goes on with
    [events]. *)
Definition FreshAlong (env : Env) (w : World) (events : list Event) : Prop :=
  forall k1 k2,
    k1 <= List.length events -> k2 <= List.length events -> k1 <> k2 ->
    forallb isIdEvent (firstn k1 events) = true ->
    forallb isIdEvent (firstn k2 events) = true ->
    uuidv4 env (worldAt w (firstn k1 events)) <>
    uuidv4 env (worldAt w (firstn k2 events)).

(** [l] increases strictly and starts at [lo] or above. *)
Fixpoint increasingFrom (lo : nat) (l : list nat) : bool :=
  match l with
  | [] => true
  | i :: l' => (lo <=? i) && increasingFrom (S i) l'
  end.

(** The longest run of line feeds in [s] has at most two of them,
    [seen] line feeds standing right before [s]. *)
Fixpoint lineFeedRunsAtMostTwo (seen : nat) (s : JsString) : bool :=
  match s with
  | [] => true
  | c :: s' =>
      if (c =? LF)%N then (seen <? 2) && lineFeedRunsAtMostTwo (S seen) s'
      else lineFeedRunsAtMostTwo 0 s'
  end.

(** [s] does not start with a line feed. *)
Definition headNotLF (s : JsString) : Prop :=
  forall c rest, s = c :: rest -> (c =? LF)%N = false.

(** No tab, and no space next to a space. *)
Fixpoint singleSpaced (s : JsString) : bool :=
  match s with
  | [] => true
  | c :: s' =>
      negb (c =? 9)%N
      && negb ((c =? 32)%N && match s' with d :: _ => (d =? 32)%N | [] => false end)
      && singleSpaced s'
  end.

(** A chunk as stage 3 builds it for a document: its metadata, and a
    text that is trimmed and has at least 10 characters. *)
Definition chunkOf (documentId fileName : JsString) (c : Chunk) : Prop :=
  (exists index uploadAt page,
      chunk_metadata c =
        [ ("documentId"%string, VString documentId);
          ("chunkIndex"%string, VNumber (Z.of_nat index));
          ("fileName"%string, VString fileName);
          ("uploadAt"%string, VString uploadAt);
          ("page"%string, page) ]) /\
  10 <= JS.length (chunk_text c) /\
  trim (chunk_text c) = chunk_text c.

(** The chunkIndex of a point, when its payload has a number there. *)
Definition chunkIndexOf (p : Point) : option Z :=
  match get (payload p) "chunkIndex" with
  | Some (VNumber n) => Some n
  | _ => None
  end.

(** A store that accepts everything and an embedding model that fails
    from its [calls]-th call on (counting from 0). *)
Definition envEmbedFailingAt (calls : nat) : Env :=
  {| getCollections := getCollections (Demo.env 0);
     load := load (Demo.env 0);
     splitDocuments := splitDocuments (Demo.env 0);
     uuidv4 := uuidv4 (Demo.env 0);
     Ingestion.now_toISOString := Ingestion.now_toISOString (Demo.env 0);
     embedDocuments := fun w batch =>
       if List.length (embedCalls (trace w)) <? calls
       then embedDocuments (Demo.env 0) w batch
       else Err (Thrown (js "model unavailable"));
     upsert := upsert (Demo.env 0) |}.

(** The embedding model answers 256 components for a text that starts
    with "first", 384 otherwise: the first chunk of [Demo] is dropped. *)
Definition envFirstVectorBad : Env :=
  {| getCollections := getCollections (Demo.env 0);
     load := load (Demo.env 0);
     splitDocuments := splitDocuments (Demo.env 0);
     uuidv4 := uuidv4 (Demo.env 0);
     Ingestion.now_toISOString := Ingestion.now_toISOString (Demo.env 0);
     embedDocuments := fun _ batch =>
       Ok (List.map (fun t => if startsWith t (js "first")
                              then Demo.zeros 256 else Demo.zeros 384) batch);
     upsert := upsert (Demo.env 0) |}.

(** A file that splits into [chunks] chunks, each with a vector of
    384 components, and a store that accepts [successes] upserts and
    rejects all later ones. *)
Definition envManyChunks (chunks successes : nat) : Env :=
  {| getCollections := getCollections (Demo.env 0);
     load := load (Demo.env 0);
     splitDocuments := fun _ _ => Ok (repeat Demo.chunkA chunks);
     uuidv4 := uuidv4 (Demo.env 0);
     Ingestion.now_toISOString := Ingestion.now_toISOString (Demo.env 0);
     embedDocuments := fun _ batch => Ok (List.map (fun _ => Demo.zeros 384) batch);
     upsert := upsert (Demo.envFailingAfter successes) |}.

(** A page with the given og:title, title tag and first h1, and
    nothing else. *)
Definition libsWithTitles (ogTitle : option JsString) (titleTag h1 : JsString)
  : Libs :=
  {| Dom := JsString;
     axios_get := fun _ => AxiosResponse 200 [];
     cheerio_load := fun data => data;
     attr := fun _ selector _ =>
               if eqb selector sel_og_title then ogTitle else None;
     text := fun _ _ => titleTag;
     first_text := fun _ _ => h1;
     first_html := fun _ _ => None;
     html := fun dom _ => Some dom;
     remove := fun dom _ => dom;
     convert := fun h => h;
     resolveURL := fun relative _ => Some relative;
     playwright_load := fun _ => Ok [];
     JSON_parse := fun s =>
                     Ok {| pd_title := None; pd_ogImage := None; pd_content := s |};
     Scraper.now_toISOString := js "2025-01-01T00:00:00.000Z" |}.

End Observations.

(* ================================================================= *)
(** ** Loader bodies ([loaders/pdf.loader.ts], [loaders/epub.loader.ts],
       [loaders/url.loader.ts]) *)

Module LoaderBodies.
Import Loaders Scraper Ingestion.

(** What a loader throws. *)
Inductive LoadError :=
  | PdfNoText
      (* "Nenhum texto encontrado no PDF." *)
  | PdfLoadFailed (cause : LoadError)
      (* `Erro ao carregar PDF: ${error.message}` *)
  | EpubNoContent
      (* "Nenhum conteúdo encontrado no EPUB." *)
  | EpubLoadFailed (cause : LoadError)
      (* `Erro ao carregar EPUB: ${error.message}` *)
  | UrlLoadFailed (cause : Error)
      (* `Erro ao carregar URL: ${error.message}` *)
  | Rejected (cause : Error).
      (* by [fs], [pdf-parse] or LangChain's [EPubLoader] *)

Inductive Loaded (A : Type) :=
  | Docs (documents : A)
  | Failed (e : LoadError).
Arguments Docs {A} documents.
Arguments Failed {A} e.

(** *** PDFDocumentLoader *)

(** [infoResult]: every field may be missing. *)
Record PdfInfo := {
  total : option Z;
  info_Title : option JsString;
  info_Author : option JsString;
  info_Subject : option JsString;
  info_Creator : option JsString;
  info_PDFFormatVersion : option JsString
}.

Record PdfLibs := {
  Buffer : Type;
  import_pdf_parse : option Error;
    (* [await import("pdf-parse")]; [None]: the module is there *)
  readFileSync : JsString -> Result Buffer;
  getTextAndInfo : Buffer -> Result (option JsString * PdfInfo)
    (* [Promise.all([parser.getText(), parser.getInfo()])], the text
       being [textResult.text] *)
}.

(** The Document of the PDF loader: [pageContent] and [metadata]. *)
Record PdfDocument := {
  pdf_pageContent : JsString;
  pdf_source : JsString;
  pdf_totalPages : Z;
  pdf_title : JsString;
  pdf_author : JsString;
  pdf_subject : JsString;
  pdf_creator : JsString;
  pdf_pdfVersion : JsString
}.

(** [value || ""] *)
Definition orEmpty (value : option JsString) : JsString :=
  match orNull value with Some s => s | None => [] end.

(** [value || 0] *)
Definition orZero (value : option Z) : Z :=
  match value with Some n => n | None => 0%Z end.

Section WithPdfLibs.
Variable P : PdfLibs.

(** The body of the [try] block. *)
Definition pdfTry (filePath : JsString) : Loaded (list PdfDocument) :=
  match import_pdf_parse P with
  | Some e => Failed (Rejected e)
  | None =>
      match readFileSync P filePath with
      | Err e => Failed (Rejected e)
      | Ok dataBuffer =>
          match getTextAndInfo P dataBuffer with
          | Err e => Failed (Rejected e)
          | Ok (text, infoResult) =>
              let textContent := orEmpty text in
              if negb (truthy textContent) || (JS.length (trim textContent) =? 0)
              then Failed PdfNoText
              else
                Docs [ {| pdf_pageContent := textContent;
                          pdf_source := filePath;
                          pdf_totalPages := orZero (total infoResult);
                          pdf_title := orEmpty (info_Title infoResult);
                          pdf_author := orEmpty (info_Author infoResult);
                          pdf_subject := orEmpty (info_Subject infoResult);
                          pdf_creator := orEmpty (info_Creator infoResult);
                          pdf_pdfVersion :=
                            orEmpty (info_PDFFormatVersion infoResult) |} ]
          end
      end
  end.

(** [PDFDocumentLoader.load]: the [try] block and its [catch]. *)
Definition pdfLoad (filePath : JsString) : Loaded (list PdfDocument) :=
  match pdfTry filePath with
  | Docs documents => Docs documents
  | Failed e => Failed (PdfLoadFailed e)
  end.

End WithPdfLibs.

(** *** EPUBDocumentLoader *)

(** [new EPubLoader(filePath, { splitChapters: true }).load()];
    [Ok None] is an answer that is null or undefined. *)
Definition EpubLibs := JsString -> Result (option (list Document)).

(** The predicate of [documents.filter(...)]. *)
Definition hasText (doc : Document) : bool :=
  0 <? JS.length (trim (pageContent doc)).

Section WithEpubLibs.
Variable epub_load : EpubLibs.

(** The body of the [try] block. *)
Definition epubTry (filePath : JsString) : Loaded (list Document) :=
  match epub_load filePath with
  | Err e => Failed (Rejected e)
  | Ok None => Failed EpubNoContent
  | Ok (Some documents) =>
      if List.length documents =? 0 then Failed EpubNoContent
      else Docs (filter hasText documents)
  end.

(** [EPUBDocumentLoader.load]: the [try] block and its [catch]. *)
Definition epubLoad (filePath : JsString) : Loaded (list Document) :=
  match epubTry filePath with
  | Docs documents => Docs documents
  | Failed e => Failed (EpubLoadFailed e)
  end.

End WithEpubLibs.

(** *** URLDocumentLoader *)

(** The Document of the URL loader; its [metadata.type] is "url". *)
Record UrlDocument := {
  url_pageContent : JsString;
  url_source : JsString;
  url_title : option JsString;
  url_ogImage : option JsString;
  url_scrapedAt : JsString;
  url_contentLength : nat
}.

Section WithScraper.
Variable L : Libs.
Variable toLowerCase : JsString -> JsString.

(** [URLDocumentLoader.load]: the scraper is called without an
    engine. *)
Definition urlLoad (filePath : JsString) : Loaded (list UrlDocument) :=
  let url := filePath in
  match scrapeUrl L toLowerCase url None with
  | Ok scraped =>
      Docs [ {| url_pageContent := content scraped;
                url_source := url;
                url_title := title scraped;
                url_ogImage := ogImage scraped;
                url_scrapedAt := scrapedAt scraped;
                url_contentLength := JS.length (content scraped) |} ]
  | Err e => Failed (UrlLoadFailed e)
  end.

End WithScraper.

(** *** The loaders as the pipeline sees them *)

(** What [services/document.ts] reads of a loaded Document: its
    [pageContent]; the loaders set no [metadata.loc]. *)
Definition pdfAsDocument (d : PdfDocument) : Document :=
  {| pageContent := pdf_pageContent d; loc_pageNumber := None |}.

Definition urlAsDocument (d : UrlDocument) : Document :=
  {| pageContent := url_pageContent d; loc_pageNumber := None |}.

(** A loader's promise as the pipeline awaits it; [describe] is the
    message of the error it rejects with. *)
Definition settle {A} (describe : LoadError -> JsString)
           (asDocument : A -> Document) (r : Loaded (list A))
  : Result (list Document) :=
  match r with
  | Docs documents => Ok (List.map asDocument documents)
  | Failed e => Err (Thrown (describe e))
  end.

(** The collaborators of [env], the loaders being the ones above. *)
Definition withLoaders (P : PdfLibs) (epub_load : EpubLibs) (L : Libs)
           (toLowerCase : JsString -> JsString)
           (describe : LoadError -> JsString) (env : Env) : Env :=
  {| getCollections := getCollections env;
     load := fun loader filePath w =>
               match loader with
               | PDFDocumentLoader => settle describe pdfAsDocument (pdfLoad P filePath)
               | URLDocumentLoader =>
                   settle describe urlAsDocument (urlLoad L toLowerCase filePath)
               | EPUBDocumentLoader =>
                   settle describe (fun d => d) (epubLoad epub_load filePath)
               end;
     splitDocuments := splitDocuments env;
     uuidv4 := uuidv4 env;
     Ingestion.now_toISOString := Ingestion.now_toISOString env;
     embedDocuments := embedDocuments env;
     upsert := upsert env |}.

End LoaderBodies.

(* ================================================================= *)
(** ** URL ingestion ([services/url.ts]) *)

Module UrlService.
Import Loaders Scraper Ingestion.

Record UrlMetadata := {
  meta_title : option JsString;
  meta_ogImage : option JsString;
  meta_scrapedAt : JsString;
  meta_scraperEngine : ScraperEngine
}.

(** [ProcessUrlResponse]: the fields of the upload response, spread,
    and [metadata]. *)
Record ProcessUrlResponse := {
  upload : UploadResponse;
  metadata : UrlMetadata
}.

Inductive UrlOutcome :=
  | Processed (response : ProcessUrlResponse)
  | InvalidUrl (url : JsString)
      (* `URL inválida: ${url}` *)
  | UrlFailed (e : Error).

Section WithCollaborators.
Variable toLowerCase : JsString -> JsString.
Variable validURL : JsString -> bool.
  (* [new URL(url)] does not throw *)
Variable env : Env.
Variable L : Libs.

Definition processUrl (url : JsString) (scraperEngine : option ScraperEngine)
  : World -> UrlOutcome * World :=
  fun w =>
    if negb (validURL url) then (InvalidUrl url, w)
    else
      match processDocument toLowerCase env
              {| fileName := url; filePath := url; fileSize := None |} w with
      | (Err e, w') => (UrlFailed e, w')
      | (Ok result, w') =>
          match scrapeUrl L toLowerCase url scraperEngine with
          | Err e => (UrlFailed e, w')
          | Ok scraped =>
              let usedEngine := selectedEngine toLowerCase url scraperEngine in
              (Processed {| upload := result;
                            metadata :=
                              {| meta_title := title scraped;
                                 meta_ogImage := ogImage scraped;
                                 meta_scrapedAt := scrapedAt scraped;
                                 meta_scraperEngine := usedEngine |} |}, w')
          end
      end.

End WithCollaborators.

End UrlService.

(* ================================================================= *)
(** ** A page, a PDF and a store to ingest them into *)

Module UrlDemo.
Import Loaders Scraper Ingestion LoaderBodies UrlService.

(** A PDF library that reads any file and finds [text] in it. *)
Definition pdfLibs (text : option JsString) : PdfLibs :=
  {| Buffer := JsString;
     import_pdf_parse := None;
     readFileSync := fun filePath => Ok filePath;
     getTextAndInfo := fun _ =>
       Ok (text, {| total := Some 1%Z; info_Title := None; info_Author := None;
                    info_Subject := None; info_Creator := None;
                    info_PDFFormatVersion := None |}) |}.

Definition describe (e : LoadError) : JsString :=
  match e with
  | PdfLoadFailed _ => js "Erro ao carregar PDF"
  | EpubLoadFailed _ => js "Erro ao carregar EPUB"
  | UrlLoadFailed _ => js "Erro ao carregar URL"
  | _ => js "Error"
  end.

(** Every request is answered with the long page, or with the short
    one. *)
Definition longPageLibs : Libs :=
  Demo.libs (AxiosResponse 200 Demo.longPage) Demo.longPage.

Definition shortPageLibs : Libs :=
  Demo.libs (AxiosResponse 200 Demo.shortPage) Demo.shortPage.

(** An EPUB library that finds the given chapters in any file. *)
Definition epubLibs (chapters : list JsString) : EpubLibs :=
  fun _ => Ok (Some (List.map (fun text => {| pageContent := text;
                                              loc_pageNumber := None |}) chapters)).

(** The store and models of [Demo.env 0] behind the loaders. *)
Definition env (text : option JsString) (L : Libs) : Env :=
  withLoaders (pdfLibs text) (epubLibs []) L toLowerCaseAscii describe (Demo.env 0).

(** A stand-in for [new URL(url)]: there is a scheme. *)
Definition validURL (url : JsString) : bool := includes url (js "://").

Definition pageUrl : JsString := js "https://example.org/post".

End UrlDemo.

(* ================================================================= *)
(** ** Search and answers ([services/query.ts], [services/rag.ts],
       [routes/query.ts], [routes/rag.ts]) *)

Module Rag.
Import Scraper Ingestion.

(** An element of the answer of [qdrantClient.search]. *)
Record ScoredPoint := {
  sp_id : JsValue;
  sp_score : number;
  sp_payload : option JsObject
}.

(** [SearchResponse] *)
Record SearchResponse := {
  sr_id : JsValue;
  sr_text : JsValue;
  sr_score : number;
  md_documentId : JsValue;
  md_fileName : JsValue;
  md_chunkIndex : JsValue;
  md_page : JsValue
}.

(** [QueryResponse] *)
Record QueryResponse := {
  qr_question : JsString;
  qr_results : list SearchResponse;
  retrievedChunks : nat
}.

(** An element of [sources]. *)
Record Source := {
  src_fileName : JsValue;
  src_chunkIndex : JsValue;
  src_score : number
}.

(** [RAGResponse] *)
Record RAGResponse := {
  rag_question : JsString;
  rag_answer : JsString;
  rag_sources : list Source
}.

(** The object serialised into one server-sent event,
    [`data: ${JSON.stringify(frame)}\n\n`]. *)
Inductive Frame :=
  | FrameAnswer (content : JsString)        (* { type: "answer", content } *)
  | FrameSources (content : list Source)    (* { type: "sources", content } *)
  | FrameToken (content : JsString)         (* { type: "token", content } *)
  | FrameDone                               (* { type: "done" } *)
  | FrameFailure (message : JsString).      (* { success: false, message } *)

(** The argument of [res.json]. *)
Inductive Body :=
  | BodyQuery (data : QueryResponse)        (* { success: true, data } *)
  | BodyRag (data : RAGResponse)            (* { success: true, data } *)
  | BodyFailure (message : JsString).       (* { success: false, message } *)

(** What a request does to the outside, in order. *)
Inductive Call :=
  | CallEmbedQuery (question : JsString)    (* [embeddings.embedQuery] *)
  | CallSearch (vector : Vector) (limit : Z)
                                            (* [qdrantClient.search] *)
  | CallInvoke (context question : JsString)
                                            (* [chains.invoke] *)
  | CallStream (context question : JsString)
                                            (* [chains.stream] and its iteration *)
  | ResSetHeader (name value : JsString)    (* [res.setHeader] *)
  | ResWrite (frame : Frame)                (* [res.write] *)
  | ResEnd                                  (* [res.end] *)
  | ResJson (status : Z) (body : Body).     (* [res.status(status).json(body)] *)

Definition History := list Call.

(** The external collaborators; each answers as a function of the
    history. A stream yields chunks and then ends, or throws. *)
Record Services := {
  embedQuery : History -> JsString -> Result Vector;
  search : History -> Vector -> Z -> Result (list ScoredPoint);
  invoke : History -> JsString -> JsString -> Result JsString;
  stream : History -> JsString -> JsString
           -> Result (list JsString * option Error)
}.

(** *** State and exceptions *)

Definition R (A : Type) : Type := History -> Result A * History.

Definition ret {A} (a : A) : R A := fun h => (Ok a, h).

Definition throw {A} (e : Error) : R A := fun h => (Err e, h).

Definition bind {A B} (m : R A) (k : A -> R B) : R B :=
  fun h =>
    match m h with
    | (Ok a, h') => k a h'
    | (Err e, h') => (Err e, h')
    end.

(** [try { m } catch (error) { handler }] *)
Definition try_catch {A} (m : R A) (handler : Error -> R A) : R A :=
  fun h =>
    match m h with
    | (Ok a, h') => (Ok a, h')
    | (Err e, h') => handler e h'
    end.

Declare Scope rag_scope.
Delimit Scope rag_scope with rag.
Notation "x <- m ;; k" := (bind m (fun x => k))
  (at level 61, m at next level, right associativity) : rag_scope.
Notation "m ;; k" := (bind m (fun _ => k))
  (at level 61, right associativity) : rag_scope.
Local Open Scope rag_scope.

Definition record (c : Call) : R unit := fun h => (Ok tt, h ++ [c]).

(** *** Pieces of the language *)

(** [payload?.[key]] *)
Definition field (payload : option JsObject) (key : string) : JsValue :=
  match payload with
  | Some o => match get o key with Some v => v | None => VUndefined end
  | None => VUndefined
  end.

(** The decimal digits of an array index plus one. *)
Fixpoint digits (fuel n : nat) (acc : JsString) : JsString :=
  match fuel with
  | 0 => acc
  | S fuel' =>
      let acc' := N.of_nat (48 + n mod 10) :: acc in
      if n / 10 =? 0 then acc' else digits fuel' (n / 10) acc'
  end.

Definition decimal (n : nat) : JsString := digits (S n) n [].

(** [a.join(separator)] on strings *)
Fixpoint join (separator : JsString) (a : list JsString) : JsString :=
  match a with
  | [] => []
  | [s] => s
  | s :: a' => s ++ separator ++ join separator a'
  end.

(** [topK = 3] in a parameter pattern *)
Definition orThree (topK : option Z) : Z :=
  match topK with Some k => k | None => 3%Z end.

Definition NOT_FOUND : JsString := js "I did not find the information".

Section WithServices.
Variable svc : Services.
Variable toText : JsValue -> JsString.
  (* a value inside a template literal *)

Definition call_embedQuery (question : JsString) : R Vector :=
  fun h => (embedQuery svc h question, h ++ [CallEmbedQuery question]).

Definition call_search (vector : Vector) (limit : Z) : R (list ScoredPoint) :=
  fun h => (search svc h vector limit, h ++ [CallSearch vector limit]).

Definition call_invoke (context question : JsString) : R JsString :=
  fun h => (invoke svc h context question, h ++ [CallInvoke context question]).

Definition call_stream (context question : JsString)
  : R (list JsString * option Error) :=
  fun h => (stream svc h context question, h ++ [CallStream context question]).

(** *** services/query.ts *)

Definition toSearchResponse (result : ScoredPoint) : SearchResponse :=
  {| sr_id := sp_id result;
     sr_text := field (sp_payload result) "text";
     sr_score := sp_score result;
     md_documentId := field (sp_payload result) "documentId";
     md_fileName := field (sp_payload result) "fileName";
     md_chunkIndex := field (sp_payload result) "chunkIndex";
     md_page := field (sp_payload result) "page" |}.

Definition searchDocuments (question : JsString) (topK : option Z)
  : R QueryResponse :=
  let topK := orThree topK in
  queryVector <- call_embedQuery question ;;
  searchResult <- call_search queryVector topK ;;
  let results := List.map toSearchResponse searchResult in
  ret {| qr_question := question;
         qr_results := results;
         retrievedChunks := List.length results |}.

(** *** services/rag.ts *)

(** [`[${idx + 1}]: ${res.text}`], joined by a blank line. *)
Definition contextOf (results : list SearchResponse) : JsString :=
  join [LF; LF]
       (mapWithIndex
          (fun res idx => js "[" ++ decimal (idx + 1) ++ js "]: " ++ toText (sr_text res))
          0 results).

Definition toSource (result : SearchResponse) : Source :=
  {| src_fileName := md_fileName result;
     src_chunkIndex := md_chunkIndex result;
     src_score := sr_score result |}.

Definition queryRAG (question : JsString) (topK : option Z) : R RAGResponse :=
  let topK := orThree topK in
  searchResults <- searchDocuments question (Some topK) ;;
  if List.length (qr_results searchResults) =? 0 then
    ret {| rag_question := question;
           rag_answer := NOT_FOUND;
           rag_sources := [] |}
  else
    let context := contextOf (qr_results searchResults) in
    answer <- call_invoke context question ;;
    let sources := List.map toSource (qr_results searchResults) in
    ret {| rag_question := question;
           rag_answer := answer;
           rag_sources := sources |}.

(** [for await (const chunk of stream) res.write(...)] over the
    chunks the stream yields. *)
Fixpoint writeTokens (chunks : list JsString) : R unit :=
  match chunks with
  | [] => ret tt
  | chunk :: chunks' => record (ResWrite (FrameToken chunk)) ;; writeTokens chunks'
  end.

Definition streamRAG (question : JsString) (topK : option Z) : R unit :=
  let topK := orThree topK in
  searchResults <- searchDocuments question (Some topK) ;;
  if List.length (qr_results searchResults) =? 0 then
    record (ResWrite (FrameAnswer NOT_FOUND)) ;;
    record (ResWrite FrameDone) ;;
    record ResEnd
  else
    let sources := List.map toSource (qr_results searchResults) in
    record (ResWrite (FrameSources sources)) ;;
    let context := contextOf (qr_results searchResults) in
    streamed <- call_stream context question ;;
    writeTokens (fst streamed) ;;
    match snd streamed with
    | Some e => throw e
    | None =>
        record (ResWrite FrameDone) ;;
        record ResEnd
    end.

(** *** routes/query.ts, routes/rag.ts: the handlers after validation *)

Definition queryRoute (question : JsString) (topK : option Z) : R unit :=
  try_catch
    (result <- searchDocuments question topK ;;
     record (ResJson 200 (BodyQuery result)))
    (fun _ => record (ResJson 500 (BodyFailure (js "Error processing query")))).

Definition ragRoute (question : JsString) (topK : option Z) : R unit :=
  try_catch
    (result <- queryRAG question topK ;;
     record (ResJson 200 (BodyRag result)))
    (fun _ => record (ResJson 500 (BodyFailure (js "Error processing RAG query")))).

Definition ragStreamRoute (question : JsString) (topK : option Z) : R unit :=
  try_catch
    (record (ResSetHeader (js "Content-Type") (js "text/event-stream")) ;;
     record (ResSetHeader (js "Cache-Control") (js "no-cache")) ;;
     record (ResSetHeader (js "Connection") (js "keep-alive")) ;;
     streamRAG question topK)
    (fun _ =>
       record (ResWrite (FrameFailure (js "Error processing RAG stream query"))) ;;
       record ResEnd).

End WithServices.

(** *** Reading a history *)

Definition isLlmCall (c : Call) : bool :=
  match c with CallInvoke _ _ | CallStream _ _ => true | _ => false end.

Definition isResponse (c : Call) : bool :=
  match c with
  | ResSetHeader _ _ | ResWrite _ | ResEnd | ResJson _ _ => true
  | _ => false
  end.

(** The frames written, in order. *)
Fixpoint frames (h : History) : list Frame :=
  match h with
  | [] => []
  | ResWrite f :: h' => f :: frames h'
  | _ :: h' => frames h'
  end.

(** What a client of the stream route may receive. *)
Inductive Transcript : list Frame -> Prop :=
  | NothingFound :
      Transcript [FrameAnswer NOT_FOUND; FrameDone]
  | Answered (sources : list Source) (chunks : list JsString) :
      sources <> [] ->
      Transcript (FrameSources sources :: List.map FrameToken chunks ++ [FrameDone])
  | FailedEarly (message : JsString) :
      Transcript [FrameFailure message]
  | FailedLate (sources : list Source) (chunks : list JsString) (message : JsString) :
      sources <> [] ->
      Transcript (FrameSources sources :: List.map FrameToken chunks
                    ++ [FrameFailure message]).

(** *** Demo services *)

Definition hit (name : string) (text : string) : ScoredPoint :=
  {| sp_id := VString (js name);
     sp_score := S754_zero false;
     sp_payload := Some [ ("text"%string, VString (js text));
                          ("fileName"%string, VString (js name)) ] |}.

(** A store that finds [hits] and a model that answers in two
    chunks; the stream throws after them when [broken]. *)
Definition services (hits : list ScoredPoint) (broken : bool) : Services :=
  {| embedQuery := fun _ _ => Ok (repeat (S754_zero false) 384);
     search := fun _ _ _ => Ok hits;
     invoke := fun _ _ _ => Ok (js "Sim.");
     stream := fun _ _ _ =>
       Ok ([js "Si"; js "m."],
           if broken then Some (Thrown (js "connection lost")) else None) |}.

(** Strings as they are; the demo hits hold no other text. *)
Definition showValue (v : JsValue) : JsString :=
  match v with VString s => s | _ => js "undefined" end.

End Rag.

(* ================================================================= *)
(** ** Proof automation *)

Module Tactics.

(** A literal of the source holds Basic Latin code units only. *)
Ltac ascii_literal :=
  unfold isAscii; repeat first [apply Forall_nil | apply Forall_cons; [reflexivity|]].

(** Takes a goal and its hypotheses apart at the connectives. *)
Ltac break_goal :=
  repeat match goal with
         | |- _ /\ _ => split
         | |- _ <-> _ => split
         | |- _ -> _ => intro
         | |- forall _, _ => intro
         | H : _ /\ _ |- _ => destruct H
         | H : exists _, _ |- _ => destruct H
         end.

End Tactics.

Unset Implicit Arguments.

(* ================================================================= *)
(** ** Facts about strings *)

Module JSFacts.
Import SpecTerms.

Lemma eqb_eq (a b : JsString) : eqb a b = true <-> a = b.
Proof.
  unfold eqb. destruct (list_eq_dec N.eq_dec a b); split; congruence.
Qed.

Lemma eqb_neq (a b : JsString) : eqb a b = false <-> a <> b.
Proof.
  unfold eqb. destruct (list_eq_dec N.eq_dec a b); split; congruence.
Qed.

Lemma startsWith_iff (s p : JsString) :
  startsWith s p = true <-> StartsWith s p.
Proof.
  unfold StartsWith. revert s. induction p as [|d p IH]; intros s.
  - destruct s; simpl; (split; [eexists; reflexivity | trivial]).
  - destruct s as [|c s]; simpl.
    + split; [discriminate | intros [rest H]; discriminate].
    + rewrite andb_true_iff, N.eqb_eq, IH. split.
      * intros [-> [rest ->]]. exists rest. reflexivity.
      * intros [rest H]. injection H as -> ->. split; [reflexivity | now exists rest].
Qed.

Lemma includes_iff (s p : JsString) :
  includes s p = true <-> Contains s p.
Proof.
  unfold Contains. induction s as [|c s IH].
  - cbn [includes]. rewrite orb_false_r, startsWith_iff. split.
    + intros [rest H]. exists [], rest. exact H.
    + intros [before [after H]]. destruct before as [|b before].
      * now exists after.
      * discriminate.
  - cbn [includes]. rewrite orb_true_iff, IH, startsWith_iff. split.
    + intros [[rest H] | [before [after H]]].
      * exists [], rest. exact H.
      * exists (c :: before), after. simpl. now rewrite H.
    + intros [before [after H]]. destruct before as [|b before].
      * left. now exists after.
      * right. injection H as _ H. now exists before, after.
Qed.

Lemma split_not_nil (sep : N) (s : JsString) : split sep s <> [].
Proof.
  destruct s as [|c s]; simpl; [discriminate|].
  destruct (c =? sep)%N; [discriminate|].
  destruct (split sep s); discriminate.
Qed.

Lemma split_singleton (sep : N) (s x : JsString) :
  split sep s = [x] -> s = x /\ ~ In sep x.
Proof.
  revert x. induction s as [|c s IH]; intros x; simpl.
  - intros H. injection H as <-. auto.
  - destruct (c =? sep)%N eqn:Hc.
    + intros H. injection H as _ H. now apply split_not_nil in H.
    + destruct (split sep s) as [|seg segs] eqn:Hs.
      * now apply split_not_nil in Hs.
      * intros H. injection H as <- ->.
        destruct (IH seg eq_refl) as [-> Hin]. split; [reflexivity|].
        simpl. intros [-> | Hi]; [|tauto].
        rewrite N.eqb_refl in Hc. discriminate.
Qed.

Lemma split_without_separator (sep : N) (s : JsString) :
  ~ In sep s -> split sep s = [s].
Proof.
  induction s as [|c s IH]; simpl; intros H; [reflexivity|].
  destruct (c =? sep)%N eqn:Hc.
  - apply N.eqb_eq in Hc. tauto.
  - rewrite IH by tauto. reflexivity.
Qed.

Lemma pop_cons {A} (x : A) (a : list A) : a <> [] -> pop (x :: a) = pop a.
Proof. destruct a; [congruence | reflexivity]. Qed.

(** [s.split(sep).pop()] is what follows the last separator of [s],
    or [s] itself when it has none. *)
Lemma pop_split (sep : N) (s : JsString) :
  exists e, pop (split sep s) = Some e /\ ~ In sep e /\
            (s = e \/ exists stem, s = stem ++ sep :: e).
Proof.
  induction s as [|c s (e & Hpop & Hin & Hs)].
  - exists []. simpl. auto.
  - simpl. destruct (c =? sep)%N eqn:Hc.
    + apply N.eqb_eq in Hc. subst c.
      exists e. rewrite pop_cons by apply split_not_nil.
      repeat split; trivial. right.
      destruct Hs as [-> | [stem ->]].
      * now exists [].
      * now exists (sep :: stem).
    + destruct (split sep s) as [|seg [|seg' segs]] eqn:Hsplit.
      * now apply split_not_nil in Hsplit.
      * destruct (split_singleton _ _ _ Hsplit) as [-> Hn].
        exists (c :: seg). simpl. repeat split; auto.
        intros [-> | Hi]; [|tauto].
        rewrite N.eqb_refl in Hc. discriminate.
      * exists e. repeat split; trivial. right.
        destruct Hs as [-> | [stem ->]].
        -- rewrite split_without_separator in Hsplit by exact Hin. discriminate.
        -- now exists (c :: stem).
Qed.

(** Conversely, an extension determines the last segment. *)
Lemma pop_split_extension (sep : N) (s e : JsString) :
  ~ In sep e -> (s = e \/ exists stem, s = stem ++ sep :: e) ->
  pop (split sep s) = Some e.
Proof.
  intros Hin [-> | [stem ->]].
  - now rewrite split_without_separator.
  - induction stem as [|c stem IH]; simpl.
    + rewrite N.eqb_refl. rewrite pop_cons by apply split_not_nil.
      now rewrite split_without_separator.
    + destruct (c =? sep)%N.
      * rewrite pop_cons by apply split_not_nil. exact IH.
      * destruct (split sep (stem ++ sep :: e)) as [|seg [|seg' segs]] eqn:Hs.
        -- now apply split_not_nil in Hs.
        -- apply split_singleton in Hs. destruct Hs as [<- Hn].
           exfalso. apply Hn. apply in_or_app. right. now left.
        -- exact IH.
Qed.

End JSFacts.

(* ================================================================= *)
(** ** Loader selection: theorems *)

Module LoaderSelection.
Import Loaders SpecTerms JSFacts Tactics.

Section CaseMapping.
Variable toLowerCase : JsString -> JsString.

Lemma isHttpLocator_iff (fileName : JsString) :
  isHttpLocator fileName = true <->
  StartsWith fileName (js "http://") \/ StartsWith fileName (js "https://").
Proof.
  unfold isHttpLocator. now rewrite orb_true_iff, !startsWith_iff.
Qed.

Lemma extensionOf_iff (fileName ext : JsString) :
  extensionOf toLowerCase fileName = Some ext <->
  HasExtension (toLowerCase fileName) ext.
Proof.
  unfold extensionOf, HasExtension.
  destruct (pop_split dot (toLowerCase fileName)) as (e & Hpop & Hin & Hs).
  rewrite Hpop. split.
  - intros H. injection H as <-. auto.
  - intros [Hin' Hs']. now rewrite <- (pop_split_extension dot _ ext Hin' Hs').
Qed.

(** The shape of every answer of [detectDocumentType]. *)
Lemma detectDocumentType_cases (fileName : JsString) :
  if isHttpLocator fileName then detectDocumentType toLowerCase fileName = Ok URL
  else exists e,
      extensionOf toLowerCase fileName = Some e /\
      detectDocumentType toLowerCase fileName =
        if eqb e (js "pdf") then Ok PDF
        else if eqb e (js "epub") then Ok EPUB
        else Err (UnsupportedFileType (Some e)).
Proof.
  unfold detectDocumentType.
  destruct (isHttpLocator fileName); [reflexivity|].
  destruct (pop_split dot (toLowerCase fileName)) as (e & Hpop & _).
  exists e. unfold extensionOf. rewrite Hpop. split; reflexivity.
Qed.

Lemma detect_not_http (fileName : JsString) :
  isHttpLocator fileName = false ->
  detectDocumentType toLowerCase fileName <> Ok URL /\
  (detectDocumentType toLowerCase fileName = Ok PDF <-> HasExtension (toLowerCase fileName) (js "pdf")) /\
  (detectDocumentType toLowerCase fileName = Ok EPUB <-> HasExtension (toLowerCase fileName) (js "epub")) /\
  (~ HasExtension (toLowerCase fileName) (js "pdf") ->
   ~ HasExtension (toLowerCase fileName) (js "epub") ->
   detectDocumentType toLowerCase fileName = Err (UnsupportedFileType (extensionOf toLowerCase fileName))) /\
  (forall e, detectDocumentType toLowerCase fileName = Err e ->
     e = UnsupportedFileType (extensionOf toLowerCase fileName) /\
     ~ HasExtension (toLowerCase fileName) (js "pdf") /\
     ~ HasExtension (toLowerCase fileName) (js "epub")).
Proof.
  intros Hhttp. pose proof (detectDocumentType_cases fileName) as H.
  rewrite Hhttp in H. destruct H as (e & Hext & Hd).
  assert (Hx : forall ext, HasExtension (toLowerCase fileName) ext <-> e = ext).
  { intros ext. rewrite <- extensionOf_iff, Hext. split; congruence. }
  rewrite !Hx, Hext, Hd.
  destruct (eqb e (js "pdf")) eqn:Hpdf;
    [apply eqb_eq in Hpdf
    |apply eqb_neq in Hpdf; destruct (eqb e (js "epub")) eqn:Hepub;
     [apply eqb_eq in Hepub | apply eqb_neq in Hepub]].
  - subst e. repeat split; try discriminate; try congruence.
  - subst e. repeat split; try discriminate; try congruence.
  - repeat split; try discriminate; try congruence.
    all: try (injection H as <-); rewrite ?Hx; auto.
Qed.

(** C9. The URL loader is selected exactly for the locators that
    start with "http://" or "https://". Every other locator goes by
    the extension of its lower-cased name: the PDF loader exactly
    for "pdf", the EPUB loader exactly for "epub", and for anything
    else the unsupported-type error that names the extension; no
    loader is returned in that case. *)
Theorem loader_selected_by_scheme_then_extension (fileName : JsString) :
  let http := StartsWith fileName (js "http://") \/
              StartsWith fileName (js "https://") in
  let lower := toLowerCase fileName in
  (createLoaderFromFileName toLowerCase fileName = Ok URLDocumentLoader <-> http) /\
  (createLoaderFromFileName toLowerCase fileName = Ok PDFDocumentLoader <->
     ~ http /\ HasExtension lower (js "pdf")) /\
  (createLoaderFromFileName toLowerCase fileName = Ok EPUBDocumentLoader <->
     ~ http /\ HasExtension lower (js "epub")) /\
  ((exists e, createLoaderFromFileName toLowerCase fileName = Err e) <->
     ~ http /\ ~ HasExtension lower (js "pdf") /\ ~ HasExtension lower (js "epub")) /\
  (forall e, createLoaderFromFileName toLowerCase fileName = Err e ->
     e = UnsupportedFileType (extensionOf toLowerCase fileName)).
Proof.
  cbv zeta. rewrite <- isHttpLocator_iff.
  unfold createLoaderFromFileName.
  destruct (isHttpLocator fileName) eqn:Hhttp.
  - pose proof (detectDocumentType_cases fileName) as H.
    rewrite Hhttp in H. rewrite H. simpl.
    break_goal; try discriminate; try congruence.
  - destruct (detect_not_http fileName Hhttp) as (Hurl & Hpdf & Hepub & Hother & Herr).
    destruct (detectDocumentType toLowerCase fileName) as [[ | | ]|e] eqn:Hd; simpl.
    + assert (HasExtension (toLowerCase fileName) (js "pdf")) by now apply Hpdf.
      break_goal; try discriminate; try congruence; try tauto.
      match goal with
      | Hx : HasExtension _ (js "epub") |- _ => apply Hepub in Hx; discriminate
      end.
    + assert (HasExtension (toLowerCase fileName) (js "epub")) by now apply Hepub.
      break_goal; try discriminate; try congruence; try tauto.
      match goal with
      | Hx : HasExtension _ (js "pdf") |- _ => apply Hpdf in Hx; discriminate
      end.
    + congruence.
    + destruct (Herr e eq_refl) as (He & Hnp & Hne).
      break_goal; try discriminate; try congruence; try tauto; eauto.
Qed.

Hypothesis lower_ascii : LowerCaseOnAscii toLowerCase.
Hypothesis lower_suffix : LowerCaseFoldsAsciiSuffix toLowerCase.

Lemma upper_scheme_not_http (rest : JsString) :
  isHttpLocator (js "HTTP://" ++ rest) = false /\
  isHttpLocator (js "Https://" ++ rest) = false.
Proof. split; reflexivity. Qed.

Lemma lowerAscii_dot (c : N) : lowerAscii c = dot -> c = dot.
Proof.
  unfold lowerAscii, dot.
  destruct ((65 <=? c) && (c <=? 90))%N eqn:Hc; [|trivial].
  apply andb_true_iff in Hc. destruct Hc as [Hlo _]. apply N.leb_le in Hlo. lia.
Qed.

(** The extension of a name whose last dot is followed by Basic Latin
    code units, and of a name of Basic Latin code units without a
    dot. *)
Lemma lowered_extension (fileName e : JsString) :
  isAscii e -> ~ In dot e ->
  fileName = e \/ (exists stem, fileName = stem ++ dot :: e) ->
  extensionOf toLowerCase fileName = Some (List.map lowerAscii e).
Proof.
  intros He Hdot Hname. apply extensionOf_iff. unfold HasExtension. split.
  - intros Hin. apply in_map_iff in Hin. destruct Hin as (c & Hc & Hin).
    apply lowerAscii_dot in Hc. now subst c.
  - destruct Hname as [-> | [stem ->]].
    + left. now apply lower_ascii.
    + right. destruct (lower_suffix stem (dot :: e)) as (lowered & Hl).
      { constructor; [reflexivity | exact He]. }
      exists lowered. exact Hl.
Qed.

Lemma startsWith_same_length (p q rest : JsString) :
  List.length p = List.length q ->
  (startsWith (p ++ rest) q = true <-> p = q).
Proof.
  intros Hlen. rewrite startsWith_iff. unfold StartsWith. split.
  - intros [r Hr]. apply (f_equal (firstn (List.length p))) in Hr.
    rewrite firstn_app, firstn_all, Nat.sub_diag, firstn_O, app_nil_r in Hr.
    rewrite Hlen, firstn_app, firstn_all, Nat.sub_diag, firstn_O, app_nil_r in Hr.
    exact Hr.
  - intros ->. now exists rest.
Qed.

(** Of the spellings of a scheme, in any case, the lower-case one
    alone makes a locator an http locator. *)
Lemma isHttpLocator_spelling (scheme rest : JsString) :
  List.map lowerAscii scheme = js "http://" \/
  List.map lowerAscii scheme = js "https://" ->
  (isHttpLocator (scheme ++ rest) = true <->
   scheme = js "http://" \/ scheme = js "https://").
Proof.
  intros Hs. unfold isHttpLocator. rewrite orb_true_iff. split.
  - destruct Hs as [Hs | Hs];
      pose proof (f_equal (@List.length N) Hs) as Hlen; rewrite length_map in Hlen.
    + intros [H | H].
      * left. now apply (startsWith_same_length scheme (js "http://") rest).
      * exfalso. apply startsWith_iff in H. destruct H as [r Hr].
        apply (f_equal (firstn 7)) in Hr.
        rewrite firstn_app, (firstn_all2 (n := 7) scheme) in Hr
          by (rewrite Hlen; reflexivity).
        replace (7 - List.length scheme) with 0 in Hr by (rewrite Hlen; reflexivity).
        rewrite firstn_O, app_nil_r in Hr. subst scheme. discriminate.
    + intros [H | H].
      * exfalso. apply startsWith_iff in H. destruct H as [r Hr].
        apply (f_equal (firstn 7)) in Hr.
        rewrite firstn_app in Hr.
        replace (7 - List.length scheme) with 0 in Hr by (rewrite Hlen; reflexivity).
        rewrite firstn_O, app_nil_r in Hr.
        apply (f_equal (firstn 7)) in Hs. rewrite firstn_map, Hr in Hs.
        discriminate.
      * right. now apply (startsWith_same_length scheme (js "https://") rest).
  - intros [-> | ->]; [left | right]; apply startsWith_iff; now exists rest.
Qed.

(** C10. Extension matching ignores case, for every locator: what
    decides is the lower-cased text after the last dot, so a name
    that ends in a dot and any spelling of "pdf" or "epub" gets the
    PDF or EPUB type whatever stands before the dot, two names with
    the same lower-casing are detected alike, and "book.PDF" and
    "book.Epub" select the PDF and EPUB loaders. The scheme test
    does not ignore case: of all spellings of "http://" and
    "https://" only the lower-case ones make a locator a URL; a
    locator that starts with "HTTP://" or "Https://" goes by its
    extension, with the unsupported-type error when that is neither
    "pdf" nor "epub", as for "HTTP://example.com/page". *)
Theorem extension_folds_case_scheme_does_not :
  (forall fileName e,
     isAscii e -> ~ In dot e ->
     fileName = e \/ (exists stem, fileName = stem ++ dot :: e) ->
     isHttpLocator fileName = false ->
     detectDocumentType toLowerCase fileName =
       if eqb (List.map lowerAscii e) (js "pdf") then Ok PDF
       else if eqb (List.map lowerAscii e) (js "epub") then Ok EPUB
       else Err (UnsupportedFileType (Some (List.map lowerAscii e)))) /\
  (forall a b,
     toLowerCase a = toLowerCase b ->
     isHttpLocator a = false -> isHttpLocator b = false ->
     detectDocumentType toLowerCase a = detectDocumentType toLowerCase b) /\
  createLoaderFromFileName toLowerCase (js "book.PDF") = Ok PDFDocumentLoader /\
  createLoaderFromFileName toLowerCase (js "book.Epub") = Ok EPUBDocumentLoader /\
  (forall scheme rest,
     List.map lowerAscii scheme = js "http://" \/
     List.map lowerAscii scheme = js "https://" ->
     (detectDocumentType toLowerCase (scheme ++ rest) = Ok URL <->
      scheme = js "http://" \/ scheme = js "https://")) /\
  (forall rest fileName,
     fileName = js "HTTP://" ++ rest \/ fileName = js "Https://" ++ rest ->
     detectDocumentType toLowerCase fileName <> Ok URL /\
     (detectDocumentType toLowerCase fileName = Ok PDF <-> HasExtension (toLowerCase fileName) (js "pdf")) /\
     (detectDocumentType toLowerCase fileName = Ok EPUB <-> HasExtension (toLowerCase fileName) (js "epub")) /\
     (~ HasExtension (toLowerCase fileName) (js "pdf") ->
      ~ HasExtension (toLowerCase fileName) (js "epub") ->
      detectDocumentType toLowerCase fileName =
        Err (UnsupportedFileType (extensionOf toLowerCase fileName)))) /\
  createLoaderFromFileName toLowerCase (js "HTTP://example.com/page") =
    Err (UnsupportedFileType (Some (js "com/page"))) /\
  createLoaderFromFileName toLowerCase (js "Https://example.com/book.PDF") = Ok PDFDocumentLoader.
Proof.
  assert (Hext : forall fileName e,
            isAscii e -> ~ In dot e ->
            fileName = e \/ (exists stem, fileName = stem ++ dot :: e) ->
            isHttpLocator fileName = false ->
            detectDocumentType toLowerCase fileName =
              if eqb (List.map lowerAscii e) (js "pdf") then Ok PDF
              else if eqb (List.map lowerAscii e) (js "epub") then Ok EPUB
              else Err (UnsupportedFileType (Some (List.map lowerAscii e)))).
  { intros fileName e He Hdot Hname Hhttp. unfold detectDocumentType.
    now rewrite Hhttp, (lowered_extension fileName e He Hdot Hname). }
  assert (Hlit : forall s, isAscii s ->
            createLoaderFromFileName toLowerCase s = createLoaderFromFileName toLowerCaseAscii s).
  { intros s Hs.
    unfold createLoaderFromFileName, detectDocumentType, extensionOf.
    now rewrite (lower_ascii s Hs). }
  split; [exact Hext|]. split; [|split; [|split; [|split; [|split; [|split]]]]].
  - intros a b Hab Hha Hhb.
    unfold detectDocumentType, extensionOf. now rewrite Hha, Hhb, Hab.
  - rewrite Hlit by ascii_literal. reflexivity.
  - rewrite Hlit by ascii_literal. reflexivity.
  - intros scheme rest Hs. rewrite <- (isHttpLocator_spelling scheme rest Hs).
    pose proof (detectDocumentType_cases (scheme ++ rest)) as H.
    destruct (isHttpLocator (scheme ++ rest)) eqn:Hhttp.
    + rewrite H. split; reflexivity.
    + destruct (detect_not_http (scheme ++ rest) Hhttp) as (Hurl & _).
      split; [intros Hd; contradiction | discriminate].
  - intros rest fileName Hf.
    assert (Hhttp : isHttpLocator fileName = false)
      by (destruct Hf as [-> | ->]; apply upper_scheme_not_http).
    destruct (detect_not_http fileName Hhttp) as (H1 & H2 & H3 & H4 & _).
    auto.
  - rewrite Hlit by ascii_literal. reflexivity.
  - rewrite Hlit by ascii_literal. reflexivity.
Qed.

End CaseMapping.

Lemma toLowerCaseAscii_on_ascii : LowerCaseOnAscii toLowerCaseAscii.
Proof. intros s _. reflexivity. Defined.

Lemma toLowerCaseAscii_folds_suffix : LowerCaseFoldsAsciiSuffix toLowerCaseAscii.
Proof.
  intros s t _. exists (List.map lowerAscii s). apply map_app.
Defined.

(** The C10 theorem at the Basic Latin case mapping: a name with a
    code unit outside Basic Latin before ".PDF", and three spellings
    of a scheme. *)
Lemma extension_folds_case_scheme_does_not_witness :
  LowerCaseOnAscii toLowerCaseAscii /\
  LowerCaseFoldsAsciiSuffix toLowerCaseAscii /\
  detectDocumentType toLowerCaseAscii (js "relat" ++ [243%N] ++ js "rio.PDF") = Ok PDF /\
  detectDocumentType toLowerCaseAscii (js "http://example.com/a.pdf") = Ok URL /\
  detectDocumentType toLowerCaseAscii (js "HTTP://example.com/a.pdf") <> Ok URL /\
  detectDocumentType toLowerCaseAscii (js "Https://example.com/a.pdf") <> Ok URL.
Proof.
  split; [exact toLowerCaseAscii_on_ascii|].
  split; [exact toLowerCaseAscii_folds_suffix|].
  pose proof (extension_folds_case_scheme_does_not toLowerCaseAscii
                toLowerCaseAscii_on_ascii toLowerCaseAscii_folds_suffix)
    as (Hext & _ & _ & _ & Hscheme & _).
  split.
  - apply (Hext (js "relat" ++ [243%N] ++ js "rio.PDF") (js "PDF")).
    + repeat constructor.
    + vm_compute. intuition discriminate.
    + right. exists (js "relat" ++ [243%N] ++ js "rio"). reflexivity.
    + reflexivity.
  - split; [|split].
    + apply (Hscheme (js "http://") (js "example.com/a.pdf")); [left|left]; reflexivity.
    + intros H. apply (Hscheme (js "HTTP://") (js "example.com/a.pdf")) in H;
        [|left; reflexivity].
      destruct H; discriminate.
    + intros H. apply (Hscheme (js "Https://") (js "example.com/a.pdf")) in H;
        [|right; reflexivity].
      destruct H; discriminate.
Defined.

End LoaderSelection.

(* ================================================================= *)
(** ** Content extractor: theorems *)

Module ScraperFacts.
Import Scraper SpecTerms JSFacts.

Lemma orNull_firstPresent (v : option JsString) :
  orNull v = firstPresent [v].
Proof. destruct v as [[|c s]|]; reflexivity. Qed.

Lemma existsb_includes (s : JsString) (domains : list JsString) :
  existsb (fun domain => includes s domain) domains = true <->
  exists domain, In domain domains /\ Contains s domain.
Proof.
  rewrite existsb_exists. split; intros (d & Hin & H); exists d;
    (split; [exact Hin | now apply includes_iff]).
Qed.

(** *** Text clean-up *)

Lemma span_app (p : N -> bool) (s : JsString) :
  s = fst (span p s) ++ snd (span p s).
Proof.
  induction s as [|c s IH]; simpl; [reflexivity|].
  destruct (p c); [|reflexivity].
  destruct (span p s) as [a b]. simpl in *. now rewrite <- IH.
Qed.

Lemma span_length (p : N -> bool) (s : JsString) :
  List.length (fst (span p s)) + List.length (snd (span p s)) = List.length s.
Proof. rewrite (span_app p s) at 3. now rewrite length_app. Qed.

Lemma afterLastLF_length (run : JsString) :
  List.length (afterLastLF run) <= List.length run.
Proof.
  unfold afterLastLF. rewrite length_rev.
  pose proof (span_length (fun c => negb (c =? LF)%N) (rev run)) as H.
  rewrite length_rev in H. lia.
Qed.

(** The fuel [collapseBlankLines] starts with is enough. *)
Lemma collapseBlankLinesFrom_fuel (fuel fuel' : nat) (s : JsString) :
  List.length s <= fuel -> List.length s <= fuel' ->
  collapseBlankLinesFrom fuel s = collapseBlankLinesFrom fuel' s.
Proof.
  revert fuel' s. induction fuel as [|fuel IH]; intros [|fuel'] [|c s] H H';
    simpl in H, H'; try lia; try reflexivity.
  cbn [collapseBlankLinesFrom].
  pose proof (span_length isWhiteSpace s) as Hspan.
  destruct (span isWhiteSpace s) as [run rest]. cbn [fst snd] in Hspan.
  pose proof (afterLastLF_length run) as Hrun.
  assert (Hlen : List.length (afterLastLF run ++ rest) <= List.length s)
    by (rewrite length_app; lia).
  destruct (c =? LF)%N; [destruct (2 <=? countLF run)|];
    rewrite (IH fuel') by lia; reflexivity.
Qed.

Example blank_lines_collapsed :
  collapseBlankLines (js "a" ++ [LF; LF; 32%N; LF; 9%N; LF; 32%N] ++ js "b" ++ [LF; LF] ++ js "c")
  = js "a" ++ [LF; LF; 32%N] ++ js "b" ++ [LF; LF] ++ js "c".
Proof. reflexivity. Qed.

Example text_cleaned :
  cleanText ([LF; 32%N] ++ js "one  two" ++ [9%N; 32%N] ++ js "three" ++ [LF; LF; LF; LF] ++ js "four " ++ [LF])
  = js "one two three" ++ [LF; LF] ++ js "four".
Proof. reflexivity. Qed.
Section AnyLibs.
Variable L : Libs.
Variable toLowerCase : JsString -> JsString.

(** C3, as the code has it. A supplied engine is the one used.
    Without one, Playwright is selected exactly when the
    lower-cased URL string contains one of the six listed names
    somewhere, and Cheerio exactly when it contains none; the
    scraper that runs is the one of the selected engine. *)
Theorem engine_selected_by_hint_then_substring (url : JsString) :
  (forall engine, selectedEngine toLowerCase url (Some engine) = engine) /\
  (selectedEngine toLowerCase url None = playwright <->
     exists domain, In domain PLAYWRIGHT_REQUIRED_DOMAINS /\
                    Contains (toLowerCase url) domain) /\
  (selectedEngine toLowerCase url None = cheerio <->
     forall domain, In domain PLAYWRIGHT_REQUIRED_DOMAINS ->
                    ~ Contains (toLowerCase url) domain) /\
  (forall hint,
     scrapeUrl L toLowerCase url hint =
       match selectedEngine toLowerCase url hint with
       | cheerio => cheerioScrape L url
       | playwright => playwrightScrape L url
       end).
Proof.
  split; [reflexivity|].
  assert (Hdet : forall b,
             existsb (fun domain => includes (toLowerCase url) domain)
                     PLAYWRIGHT_REQUIRED_DOMAINS = b ->
             selectedEngine toLowerCase url None =
               if b then playwright else cheerio).
  { intros b <-. reflexivity. }
  pose proof (existsb_includes (toLowerCase url) PLAYWRIGHT_REQUIRED_DOMAINS) as Hex.
  destruct (existsb _ PLAYWRIGHT_REQUIRED_DOMAINS) eqn:Hb;
    rewrite (Hdet _ eq_refl).
  - split; [tauto|]. split.
    + split; [discriminate|]. intros Hnone.
      destruct (proj1 Hex eq_refl) as (d & Hin & Hc). now elim (Hnone d Hin).
    + intros hint. unfold scrapeUrl. now destruct (selectedEngine _ _ hint).
  - split.
    + split; [discriminate|]. intros H. apply Hex in H. discriminate.
    + split.
      * split; [|reflexivity]. intros _ d Hin Hc.
        assert (false = true) by (apply Hex; eauto). discriminate.
      * intros hint. unfold scrapeUrl. now destruct (selectedEngine _ _ hint).
Qed.

(** C7. Static fetch: an answer with a status other than 200, and
    a rejection that carries a response status, end in an error
    that names the status. Both strategies: a clean text of fewer
    than 100 characters ends in the content-too-short error with
    that length. No strategy ever returns a content shorter than
    100 characters, and the status errors are not the
    content-too-short error. *)
Theorem short_content_and_bad_status_are_errors (url : JsString) :
  (forall status data,
     axios_get L url = AxiosResponse status data -> status <> 200%Z ->
     cheerioScrape L url = Err (CheerioScrapeFailed (HttpStatusNot200 status))) /\
  (forall message code status request,
     axios_get L url = AxiosRejected message code (Some status) request ->
     code <> Some (js "ECONNABORTED") ->
     cheerioScrape L url = Err (AxiosHttpError status url)) /\
  (forall data,
     axios_get L url = AxiosResponse 200 data ->
     JS.length (cheerioCleanText L data) < 100 ->
     cheerioScrape L url =
       Err (CheerioScrapeFailed
              (ContentTooShort cheerio (JS.length (cheerioCleanText L data))))) /\
  (forall pageContent others data,
     playwright_load L url = Ok (pageContent :: others) ->
     JSON_parse L pageContent = Ok data ->
     JS.length (cleanText (pd_content data)) < 100 ->
     playwrightScrape L url =
       Err (PlaywrightScrapeFailed
              (ContentTooShort playwright (JS.length (cleanText (pd_content data)))))) /\
  (forall engine r,
     scrape (createScraper L engine) url = Ok r -> 100 <= JS.length (content r)) /\
  (forall status engine n,
     CheerioScrapeFailed (HttpStatusNot200 status) <>
       CheerioScrapeFailed (ContentTooShort engine n) /\
     AxiosHttpError status url <> CheerioScrapeFailed (ContentTooShort engine n)).
Proof.
  split; [|split; [|split; [|split; [|split; [|split; discriminate]]]]].
  - intros status data Hget Hst. unfold cheerioScrape, cheerioTry.
    rewrite Hget. apply Z.eqb_neq in Hst. now rewrite Hst.
  - intros message code status request Hget Hcode. unfold cheerioScrape.
    rewrite Hget. destruct code as [c|]; [|reflexivity].
    destruct (eqb c (js "ECONNABORTED")) eqn:Hc; [|reflexivity].
    apply eqb_eq in Hc. congruence.
  - intros data Hget Hlen. unfold cheerioScrape, cheerioTry.
    rewrite Hget. cbn [Z.eqb Pos.eqb negb]. fold (cheerioCleanText L data).
    apply Nat.ltb_lt in Hlen. now rewrite Hlen.
  - intros pageContent others data Hload Hparse Hlen.
    unfold playwrightScrape, playwrightTry. rewrite Hload, Hparse.
    apply Nat.ltb_lt in Hlen. now rewrite Hlen.
  - intros [|] r; simpl.
    + unfold cheerioScrape, cheerioTry.
      destruct (axios_get L url) as [status data|message code response request|message].
      * destruct (negb (status =? 200)%Z); [discriminate|].
        fold (cheerioCleanText L data).
        destruct (JS.length (cheerioCleanText L data) <? 100) eqn:Hlen; [discriminate|].
        intros H. injection H as <-. simpl. now apply Nat.ltb_ge in Hlen.
      * destruct (match code with Some c => eqb c _ | None => false end);
          [discriminate|]. destruct response; [discriminate|].
        destruct request; discriminate.
      * discriminate.
    + unfold playwrightScrape, playwrightTry.
      destruct (playwright_load L url) as [[|pageContent others]|e]; try discriminate.
      destruct (JSON_parse L pageContent) as [data|e]; try discriminate.
      destruct (JS.length (cleanText (pd_content data)) <? 100) eqn:Hlen; [discriminate|].
      intros H. injection H as <-. simpl. now apply Nat.ltb_ge in Hlen.
Qed.

(** C8. The title is the first non-empty candidate among the
    og:title content, the text of <title> and the text of the first
    <h1>, trimmed, and null when there is none. The image is null
    without a non-empty og:image content; otherwise it is that
    content resolved against the page URL, or the content as it is
    when resolving throws. A successful static scrape returns both. *)
Theorem title_and_image_by_priority (dom : Dom L) (baseUrl : JsString) :
  extractTitle L dom =
    option_map trim
      (firstPresent [ attr L dom sel_og_title (js "content");
                      Some (text L dom (js "title"));
                      Some (first_text L dom (js "h1")) ]) /\
  extractOgImage L dom baseUrl =
    match firstPresent [attr L dom sel_og_image (js "content")] with
    | None => None
    | Some raw =>
        Some (match resolveURL L raw baseUrl with
              | Some href => href
              | None => raw
              end)
    end /\
  (forall data r,
     axios_get L baseUrl = AxiosResponse 200 data ->
     cheerioScrape L baseUrl = Ok r ->
     cheerio_load L data = dom ->
     title r = extractTitle L dom /\ ogImage r = extractOgImage L dom baseUrl).
Proof.
  split; [|split].
  - unfold extractTitle.
    destruct (attr L dom sel_og_title (js "content")) as [[|c s]|];
      destruct (text L dom (js "title"));
      destruct (first_text L dom (js "h1")); reflexivity.
  - unfold extractOgImage. rewrite orNull_firstPresent.
    destruct (firstPresent _) as [raw|]; [|reflexivity].
    now destruct (resolveURL L raw baseUrl).
  - intros data r Hget Hok <-. unfold cheerioScrape, cheerioTry in Hok.
    rewrite Hget in Hok. cbn [Z.eqb Pos.eqb negb] in Hok.
    destruct (JS.length _ <? 100); [discriminate|].
    injection Hok as <-. split; reflexivity.
Qed.

End AnyLibs.

(** C3, as stated, fails: the domain of this URL is not on the list
    (nor a subdomain of a listed one), yet the engine selected for it
    is Playwright, because "netflix.com" contains "x.com". *)
Lemma engine_not_selected_by_domain :
  domainListed (urlHost (js "https://netflix.com/")) = false /\
  selectedEngine toLowerCaseAscii (js "https://netflix.com/") None = playwright.
Proof. split; reflexivity. Qed.

(** The same under every case mapping that agrees with ECMAScript on
    Basic Latin. *)
Lemma netflix_renders_under_any_case_mapping toLowerCase :
  LowerCaseOnAscii toLowerCase ->
  detectScraperEngine toLowerCase (js "https://netflix.com/") = playwright.
Proof.
  intros H. unfold detectScraperEngine. rewrite H; [reflexivity|].
  Tactics.ascii_literal.
Qed.

(** The C7 theorem at a page of three words, and at a rejected
    request that carries status 404. *)
Lemma short_content_and_bad_status_are_errors_witness :
  let url := js "https://example.org/" in
  cheerioScrape (Demo.libs (AxiosResponse 200 Demo.shortPage) Demo.shortPage) url =
    Err (CheerioScrapeFailed (ContentTooShort cheerio 15)) /\
  playwrightScrape (Demo.libs (AxiosResponse 200 Demo.shortPage) Demo.shortPage) url =
    Err (PlaywrightScrapeFailed (ContentTooShort playwright 15)) /\
  cheerioScrape (Demo.libs (AxiosRejected (js "Request failed with status code 404")
                                          (Some (js "ERR_BAD_REQUEST")) (Some 404%Z) true)
                           Demo.shortPage) url =
    Err (AxiosHttpError 404 url).
Proof.
  intros url. split; [|split].
  - apply (proj1 (proj2 (proj2
      (short_content_and_bad_status_are_errors
         (Demo.libs (AxiosResponse 200 Demo.shortPage) Demo.shortPage) url)))
      Demo.shortPage); [reflexivity | vm_compute; lia].
  - apply (proj1 (proj2 (proj2 (proj2
      (short_content_and_bad_status_are_errors
         (Demo.libs (AxiosResponse 200 Demo.shortPage) Demo.shortPage) url))))
      Demo.shortPage [] {| pd_title := None; pd_ogImage := None;
                           pd_content := Demo.shortPage |});
      [reflexivity | reflexivity | vm_compute; lia].
  - apply (proj1 (proj2
      (short_content_and_bad_status_are_errors
         (Demo.libs (AxiosRejected (js "Request failed with status code 404")
                                   (Some (js "ERR_BAD_REQUEST")) (Some 404%Z) true)
                    Demo.shortPage) url))
      (js "Request failed with status code 404")
      (Some (js "ERR_BAD_REQUEST")) 404%Z true); [reflexivity | discriminate].
Defined.

End ScraperFacts.

(* ================================================================= *)
(** ** Ingestion pipeline: lists and loops *)

Module IngestionFacts.
Import Loaders Ingestion SpecTerms.
Local Open Scope js_scope.

(** *** Slices *)

Lemma slice_from {A} (size : nat) (a : list A) (i : nat) :
  slice a i (i + size) = firstn size (skipn i a).
Proof. unfold slice. f_equal. lia. Qed.

Section Slices.
Context {A : Type}.
Variable size : nat.
Hypothesis size_pos : 0 < size.

Lemma ceilDiv_le (n k : nat) : ceilDiv n size <= k <-> n <= size * k.
Proof.
  unfold ceilDiv.
  pose proof (Nat.div_mod_eq (n + (size - 1)) size) as E.
  pose proof (Nat.mod_upper_bound (n + (size - 1)) size ltac:(lia)) as B.
  split; intros H; nia.
Qed.

Lemma slicesFrom_batches (a : list A) (fuel k : nat) :
  List.length a - size * k <= fuel ->
  slicesFrom size fuel a (size * k) =
    List.map (fun j => slice a (size * j) (size * j + size))
             (seq k (ceilDiv (List.length a) size - k)).
Proof.
  revert k. induction fuel as [|fuel IH]; intros k Hfuel.
  - assert (Hle : ceilDiv (List.length a) size <= k) by (apply ceilDiv_le; lia).
    replace (ceilDiv (List.length a) size - k) with 0 by lia. reflexivity.
  - cbn [slicesFrom]. destruct (size * k <? List.length a) eqn:Hlt.
    + apply Nat.ltb_lt in Hlt.
      assert (Hk : k < ceilDiv (List.length a) size).
      { apply Nat.nle_gt. rewrite ceilDiv_le. lia. }
      replace (ceilDiv (List.length a) size - k)
        with (S (ceilDiv (List.length a) size - S k)) by lia.
      cbn [seq List.map]. f_equal.
      replace (size * k + size) with (size * S k) by lia.
      apply IH. nia.
    + apply Nat.ltb_ge in Hlt.
      assert (Hle : ceilDiv (List.length a) size <= k) by (apply ceilDiv_le; lia).
      replace (ceilDiv (List.length a) size - k) with 0 by lia. reflexivity.
Qed.

Lemma slicesFrom_all (a : list A) :
  slicesFrom size (List.length a) a 0 = batchesOf size a.
Proof.
  unfold batchesOf. replace 0 with (size * 0) at 1 by lia.
  rewrite slicesFrom_batches by lia. now rewrite Nat.sub_0_r.
Qed.

Lemma concat_slicesFrom (a : list A) (fuel i : nat) :
  List.length a - i <= fuel ->
  List.concat (slicesFrom size fuel a i) = skipn i a.
Proof.
  revert i. induction fuel as [|fuel IH]; intros i Hfuel; cbn [slicesFrom].
  - simpl. symmetry. apply skipn_all2. lia.
  - destruct (i <? List.length a) eqn:Hlt.
    + cbn [List.concat]. rewrite IH by (apply Nat.ltb_lt in Hlt; lia).
      rewrite slice_from.
      replace (i + size) with (size + i) by lia.
      rewrite <- skipn_skipn. apply firstn_skipn.
    + apply Nat.ltb_ge in Hlt. simpl. symmetry. now apply skipn_all2.
Qed.

Lemma concat_batchesOf (a : list A) : List.concat (batchesOf size a) = a.
Proof. rewrite <- slicesFrom_all. now rewrite concat_slicesFrom by lia. Qed.

Lemma length_batchesOf (a : list A) :
  List.length (batchesOf size a) = ceilDiv (List.length a) size.
Proof. unfold batchesOf. now rewrite length_map, length_seq. Qed.




End Slices.

(** *** Validation *)

Lemma toPoint_out_of_range (vectors : list Vector) (cs : list Chunk) (i : nat) :
  List.length vectors <= i ->
  filterNotNull (mapWithIndex (toPoint vectors) i cs) = [].
Proof.
  revert i. induction cs as [|c cs IH]; intros i Hi; simpl; [reflexivity|].
  unfold toPoint at 1.
  rewrite (proj2 (nth_error_None vectors i) Hi). apply IH. lia.
Qed.

Lemma validate_from (cs : list Chunk) (seen vectors : list Vector) :
  filterNotNull (mapWithIndex (toPoint (seen ++ vectors)) (List.length seen) cs) =
    List.map pointOf (validPairs cs vectors).
Proof.
  revert seen vectors. induction cs as [|c cs IH]; intros seen vectors; simpl.
  - reflexivity.
  - destruct vectors as [|v vectors].
    + rewrite toPoint_out_of_range by (rewrite app_nil_r; lia).
      unfold toPoint.
      rewrite (proj2 (nth_error_None (seen ++ []) (List.length seen)))
        by (rewrite app_nil_r; lia).
      reflexivity.
    + unfold toPoint at 1.
      rewrite nth_error_app2, Nat.sub_diag by lia. cbn [nth_error].
      unfold EXPECTED_DIMENSION.
      replace (seen ++ v :: vectors) with ((seen ++ [v]) ++ vectors)
        by (now rewrite <- app_assoc).
      replace (S (List.length seen)) with (List.length (seen ++ [v]))
        by (rewrite length_app; simpl; lia).
      rewrite IH.
      destruct (List.length v =? 384); reflexivity.
Qed.

(** [validData] is the list of points of the valid pairs. *)
Lemma validate_validPairs (cs : list Chunk) (vectors : list Vector) :
  validate cs vectors = List.map pointOf (validPairs cs vectors).
Proof. exact (validate_from cs [] vectors). Qed.

Lemma validPairs_dimension (cs : list Chunk) (vectors : list Vector) :
  Forall (fun cv => List.length (snd cv) = 384) (validPairs cs vectors).
Proof.
  revert vectors. induction cs as [|c cs IH]; intros [|v vectors]; simpl;
    try constructor.
  destruct (List.length v =? 384) eqn:H; [|apply IH].
  constructor; [now apply Nat.eqb_eq in H | apply IH].
Qed.

Lemma validPairs_length (cs : list Chunk) (vectors : list Vector) :
  List.length (validPairs cs vectors) <= List.length cs.
Proof.
  revert vectors. induction cs as [|c cs IH]; intros [|v vectors]; simpl; try lia.
  specialize (IH vectors). destruct (List.length v =? 384); simpl; lia.
Qed.

(** *** Stages *)

Section AnyEnv.
Variable toLowerCase : JsString -> JsString.
Variable env : Env.

Lemma mapWithMetadata_spec (documentId fileName : JsString)
      (validChunks : list Document) (index : nat) (w : World) :
  exists cs w',
    mapWithMetadata env documentId fileName index validChunks w = (Ok cs, w') /\
    List.map chunk_text cs =
      List.map (fun chunk => trim (pageContent chunk)) validChunks /\
    List.map (fun c => get (chunk_metadata c) "chunkIndex") cs =
      List.map (fun i => Some (VNumber (Z.of_nat i)))
               (seq index (List.length validChunks)) /\
    Forall (fun c => keys (chunk_metadata c) = tl PAYLOAD_KEYS) cs /\
    collection w' = collection w.
Proof.
  revert index w. induction validChunks as [|chunk rest IH]; intros index w.
  - exists [], w. repeat split; constructor.
  - destruct (IH (S index) (log EvClock (log EvUuid w)))
      as (cs & w' & Hrun & Htext & Hidx & Hkeys & Hcoll).
    eexists (_ :: cs), w'.
    split; [cbn; unfold bind; cbn; rewrite Hrun; reflexivity|].
    cbn. repeat split; try (f_equal; assumption).
    + constructor; [reflexivity | assumption].
    + exact Hcoll.
Qed.

(** The answer of stage 3, whatever the chunks. *)
Lemma buildChunks_spec (fileName : JsString) (chunks : list Document) (w : World) :
  let validChunks := filter longEnough chunks in
  match buildChunks env fileName chunks w with
  | (Err e, _) => validChunks = [] /\ e = NoValidChunks
  | (Ok (documentId, cs), w') =>
      validChunks <> [] /\
      List.map chunk_text cs =
        List.map (fun chunk => trim (pageContent chunk)) validChunks /\
      List.map (fun c => get (chunk_metadata c) "chunkIndex") cs =
        List.map (fun i => Some (VNumber (Z.of_nat i))) (seq 0 (List.length cs)) /\
      Forall (fun c => keys (chunk_metadata c) = tl PAYLOAD_KEYS) cs /\
      collection w' = collection w
  end.
Proof.
  intros validChunks. unfold buildChunks, bind, call_uuidv4. fold validChunks.
  destruct validChunks as [|chunk rest] eqn:Hv; [simpl; auto|].
  cbn [List.length Nat.eqb].
  destruct (mapWithMetadata_spec (uuidv4 env w) fileName (chunk :: rest) 0 (log EvUuid w))
    as (cs & w' & Hrun & Htext & Hidx & Hkeys & Hcoll).
  rewrite Hrun. cbn [ret].
  assert (Hlen : List.length cs = List.length (chunk :: rest)).
  { rewrite <- (length_map chunk_text cs), Htext. apply length_map. }
  repeat split; try assumption; try discriminate.
  now rewrite Hlen.
Qed.

(** *** The embedding loop *)

Section Embedding.
Variable corresponds : JsString -> Vector -> Prop.
Hypothesis embed_ok :
  forall w batch, exists vectors,
    embedDocuments env w batch = Ok vectors /\
    Forall2 corresponds batch vectors.

End Embedding.

(** The fuel given to the loop is enough: more changes nothing. *)
Lemma embedLoop_fuel (texts : list JsString) (fuel fuel' i : nat)
      (acc : list Vector) (w : World) :
  List.length texts - i <= fuel ->
  List.length texts - i <= fuel' ->
  embedLoop env fuel texts i acc w = embedLoop env fuel' texts i acc w.
Proof.
  revert fuel' i acc w.
  induction fuel as [|fuel IH]; intros [|fuel'] i acc w H H'; cbn [embedLoop];
    try reflexivity;
    try (now replace (i <? List.length texts) with false
           by (symmetry; apply Nat.ltb_ge; lia)).
  destruct (i <? List.length texts); [|reflexivity].
  unfold bind. destruct (call_embedDocuments env _ w) as [[vs|e] w1]; [|reflexivity].
  apply IH; unfold EMBEDDING_BATCH_SIZE; lia.
Qed.

(** *** Writing *)

Lemma BatchAttempts_at_most_three (batch : list Point) (evs : list Event)
      (outcome : option Error) :
  BatchAttempts batch evs outcome ->
  1 <= upsertAttempts evs <= 3.
Proof. intros H. destruct H; simpl; lia. Qed.

(** One batch: what it leaves in the history and in the collection. *)
Lemma writeBatch_attempts (batch : list Point) (w : World) :
  exists evs outcome,
    BatchAttempts batch evs outcome /\
    trace (snd (writeBatch env batch w)) = trace w ++ evs /\
    match outcome with
    | None => fst (writeBatch env batch w) = Ok tt /\
              collection (snd (writeBatch env batch w)) = collection w ++ batch
    | Some e => fst (writeBatch env batch w) = Err e /\
                collection (snd (writeBatch env batch w)) = collection w
    end.
Proof.
  destruct (writeBatch env batch w) as [r w'] eqn:Hw. cbn [fst snd].
  unfold writeBatch in Hw. cbn [upsertRetrying Nat.eqb] in Hw.
  unfold try_catch, call_upsert, bind, sleep, throw, ret in Hw.
  destruct (upsert env w batch) as [e1|].
  2:{ injection Hw as <- <-. exists [EvUpsert batch None], None.
      split; [constructor | simpl; auto]. }
  destruct (upsert env _ batch) as [e2|] in Hw.
  2:{ injection Hw as <- <-. eexists _, None.
      split; [apply (second_attempt_ok batch e1)|].
      simpl. rewrite <- !app_assoc. auto. }
  destruct (upsert env _ batch) as [e3|] in Hw.
  2:{ injection Hw as <- <-. eexists _, None.
      split; [apply (third_attempt_ok batch e1 e2)|].
      simpl. rewrite <- !app_assoc. auto. }
  injection Hw as <- <-. eexists _, (Some e3).
  split; [apply (attempts_exhausted batch e1 e2 e3)|].
  simpl. rewrite <- !app_assoc. auto.
Qed.

(** The loop over the batches, as a run. *)
Lemma insertLoop_run (data : list Point) (fuel i : nat) (w : World) :
  exists evs committed outcome,
    WriteRun (slicesFrom BATCH_SIZE fuel data i) evs committed outcome /\
    trace (snd (insertLoop env fuel data i w)) = trace w ++ evs /\
    collection (snd (insertLoop env fuel data i w)) = collection w ++ committed /\
    fst (insertLoop env fuel data i w) =
      match outcome with None => Ok tt | Some e => Err e end.
Proof.
  revert i w. induction fuel as [|fuel IH]; intros i w; cbn [insertLoop slicesFrom].
  - exists [], [], None. rewrite !app_nil_r. repeat split. constructor.
  - destruct (i <? List.length data).
    2:{ exists [], [], None. rewrite !app_nil_r. repeat split. constructor. }
    set (batch := slice data i (i + BATCH_SIZE)). unfold bind.
    destruct (writeBatch_attempts batch w) as (evs & outcome & Hatt & Htr & Hout).
    destruct (writeBatch env batch w) as [[[]|e] w1]; cbn [fst snd] in *.
    + destruct outcome as [e|]; [destruct Hout; discriminate|].
      destruct Hout as [_ Hcoll].
      destruct (IH (i + BATCH_SIZE) w1) as (evs' & committed & outcome & Hrun & Htr' & Hcoll' & Hres).
      exists (evs ++ evs'), (batch ++ committed), outcome.
      split; [now apply run_batch_ok|].
      rewrite Htr', Hcoll', Htr, Hcoll, <- !app_assoc. auto.
    + destruct outcome as [e'|]; [|destruct Hout; discriminate].
      destruct Hout as [He Hcoll]. injection He as <-.
      exists evs, [], (Some e).
      split; [now apply run_batch_failed|].
      rewrite Htr, Hcoll, app_nil_r. auto.
Qed.

(** A run that ends well has committed every batch; one that
    fails has committed exactly the batches before the failed one. *)
Lemma WriteRun_committed (batches : list (list Point)) (evs : list Event)
      (committed : list Point) (outcome : option Error) :
  WriteRun batches evs committed outcome ->
  match outcome with
  | None => committed = List.concat batches
  | Some _ => exists done failed rest,
      batches = done ++ failed :: rest /\ committed = List.concat done
  end.
Proof.
  induction 1 as [|batch rest evs evs' committed outcome Hb Hrun IH|batch rest evs e Hb].
  - reflexivity.
  - destruct outcome as [e|].
    + destruct IH as (done & failed & rest' & -> & ->).
      exists (batch :: done), failed, rest'. split; reflexivity.
    + simpl. now rewrite IH.
  - exists [], batch, rest. split; reflexivity.
Qed.

(** The history of a run: at most three attempts for each batch. *)
Lemma upsertAttempts_app (t t' : list Event) :
  upsertAttempts (t ++ t') = upsertAttempts t + upsertAttempts t'.
Proof.
  induction t as [|[] t IH]; simpl; rewrite ?IH; reflexivity.
Qed.

Lemma WriteRun_attempts (batches : list (list Point)) (evs : list Event)
      (committed : list Point) (outcome : option Error) :
  WriteRun batches evs committed outcome ->
  upsertAttempts evs <= 3 * List.length batches.
Proof.
  induction 1 as [|batch rest evs evs' committed outcome Hb Hrun IH|batch rest evs e Hb].
  - simpl. lia.
  - apply BatchAttempts_at_most_three in Hb.
    rewrite upsertAttempts_app. simpl. lia.
  - apply BatchAttempts_at_most_three in Hb. simpl. lia.
Qed.

Lemma insertLoop_fuel (data : list Point) (fuel fuel' i : nat) (w : World) :
  List.length data - i <= fuel ->
  List.length data - i <= fuel' ->
  insertLoop env fuel data i w = insertLoop env fuel' data i w.
Proof.
  revert fuel' i w.
  induction fuel as [|fuel IH]; intros [|fuel'] i w H H'; cbn [insertLoop];
    try reflexivity;
    try (now replace (i <? List.length data) with false
           by (symmetry; apply Nat.ltb_ge; lia)).
  destruct (i <? List.length data); [|reflexivity].
  unfold bind. destruct (writeBatch env _ w) as [[[]|e] w1]; [|reflexivity].
  apply IH; unfold BATCH_SIZE; lia.
Qed.

(** *** The stages leave the collection alone until step 5 *)

Lemma loadAndSplit_world (dto : DocumentDto) (w : World) :
  snd (loadAndSplit toLowerCase env dto w) = w.
Proof.
  unfold loadAndSplit, bind, checkConnection, lift, call_load,
    call_splitDocuments, throw, ret.
  destruct (getCollections env w); [reflexivity|].
  destruct (createLoaderFromFileName toLowerCase (fileName dto)); [|reflexivity].
  destruct (load env a (filePath dto) w) as [documents|]; [|reflexivity].
  destruct (List.length documents =? 0); [reflexivity|].
  destruct (splitDocuments env documents w) as [chunks|]; [|reflexivity].
  destruct (List.length chunks =? 0); reflexivity.
Qed.

Lemma loadAndSplit_not_empty (dto : DocumentDto) (w w1 : World)
      (chunks : list Document) :
  loadAndSplit toLowerCase env dto w = (Ok chunks, w1) -> chunks <> [].
Proof.
  unfold loadAndSplit, bind, checkConnection, lift, call_load,
    call_splitDocuments, throw, ret.
  destruct (getCollections env w); [discriminate|].
  destruct (createLoaderFromFileName toLowerCase (fileName dto)); [|discriminate].
  destruct (load env a (filePath dto) w) as [documents|]; [|discriminate].
  destruct (List.length documents =? 0); [discriminate|].
  destruct (splitDocuments env documents w) as [cs|]; [|discriminate].
  destruct (List.length cs =? 0) eqn:Hlen; [discriminate|].
  intros H. injection H as <- _. intros ->. discriminate.
Qed.

Lemma embedLoop_collection (texts : list JsString) (fuel i : nat)
      (acc : list Vector) (w : World) :
  collection (snd (embedLoop env fuel texts i acc w)) = collection w.
Proof.
  revert i acc w. induction fuel as [|fuel IH]; intros i acc w; cbn [embedLoop].
  - reflexivity.
  - destruct (i <? List.length texts); [|reflexivity].
    unfold bind, call_embedDocuments.
    destruct (embedDocuments env w _); [|reflexivity].
    now rewrite IH.
Qed.

Lemma processDocument_stages (dto : DocumentDto) (w : World) :
  processDocument toLowerCase env dto w =
    match loadAndSplit toLowerCase env dto w with
    | (Err e, w1) => (Err e, w1)
    | (Ok chunks, w1) =>
        match buildChunks env (fileName dto) chunks w1 with
        | (Err e, w2) => (Err e, w2)
        | (Ok built, w2) =>
            match generateEmbeddings env (List.map chunk_text (snd built)) w2 with
            | (Err e, w3) => (Err e, w3)
            | (Ok embeddingsVectors, w3) =>
                match storePoints env (snd built) embeddingsVectors w3 with
                | (Err e, w4) => (Err e, w4)
                | (Ok _, w4) =>
                    (Ok {| success := true;
                           documentId := fst built;
                           chunksCount := List.length (snd built);
                           message := Some (js "Documento processado com sucesso!") |},
                     w4)
                end
            end
        end
    end.
Proof.
  unfold processDocument, bind.
  destruct (loadAndSplit toLowerCase env dto w) as [[chunks|] w1]; [|reflexivity].
  destruct (buildChunks env (fileName dto) chunks w1) as [[built|] w2]; [|reflexivity].
  destruct (generateEmbeddings env _ w2) as [[vs|] w3]; [|reflexivity].
  destruct (storePoints env (snd built) vs w3) as [[|] w4]; reflexivity.
Qed.

Lemma payload_keys (c : Chunk) (v : Vector) :
  keys (chunk_metadata c) = tl PAYLOAD_KEYS ->
  keys (payload (pointOf (c, v))) = PAYLOAD_KEYS.
Proof.
  unfold pointOf. cbn [fst snd payload].
  destruct (chunk_metadata c) as [|[k1 v1] [|[k2 v2] [|[k3 v3] [|[k4 v4] [|[k5 v5] [|]]]]]];
    try discriminate.
  intros H. injection H as -> -> -> -> ->. reflexivity.
Qed.

(** *** Theorems *)

(** C4. Stage 3 keeps exactly the chunks whose trimmed text has at
    least 10 characters. If none is left it fails with the
    no-valid-chunks error, and so does the ingestion call.
    Otherwise the chunks it builds are the kept ones in order, each
    with its trimmed text, and their chunkIndex values are
    0, 1, ..., k-1. *)
Theorem short_chunks_dropped_then_indexed (fileName : JsString)
        (chunks : list Document) (w : World) :
  let validChunks := filter longEnough chunks in
  (forall chunk, In chunk validChunks <->
                 In chunk chunks /\ 10 <= JS.length (trim (pageContent chunk))) /\
  match buildChunks env fileName chunks w with
  | (Err e, _) => validChunks = [] /\ e = NoValidChunks
  | (Ok (_, cs), _) =>
      validChunks <> [] /\
      List.map chunk_text cs =
        List.map (fun chunk => trim (pageContent chunk)) validChunks /\
      Forall (fun c => 10 <= JS.length (chunk_text c)) cs /\
      List.map (fun c => get (chunk_metadata c) "chunkIndex") cs =
        List.map (fun i => Some (VNumber (Z.of_nat i))) (seq 0 (List.length cs))
  end /\
  (forall dto w0 w1,
     loadAndSplit toLowerCase env dto w0 = (Ok chunks, w1) ->
     validChunks = [] ->
     fst (processDocument toLowerCase env dto w0) = Err NoValidChunks).
Proof.
  intros validChunks.
  assert (Hfilter : forall chunk, In chunk validChunks <->
             In chunk chunks /\ 10 <= JS.length (trim (pageContent chunk))).
  { intros chunk. subst validChunks. rewrite filter_In. unfold longEnough.
    now rewrite Nat.leb_le. }
  split; [exact Hfilter|]. split.
  - pose proof (buildChunks_spec fileName chunks w) as H. cbv zeta in H.
    fold validChunks in H.
    destruct (buildChunks env fileName chunks w) as [[[documentId cs]|e] w'];
      [|exact H].
    destruct H as (Hne & Htext & Hidx & _ & _).
    repeat split; try assumption.
    apply Forall_map with (f := chunk_text) (P := fun t => 10 <= JS.length t).
    rewrite Htext. apply Forall_map. apply Forall_forall.
    intros chunk Hin. now apply Hfilter in Hin.
  - intros dto w0 w1 Hload Hnone. rewrite processDocument_stages, Hload.
    pose proof (buildChunks_spec (Ingestion.fileName dto) chunks w1) as H.
    cbv zeta in H. fold validChunks in H.
    destruct (buildChunks env (Ingestion.fileName dto) chunks w1)
      as [[[documentId cs]|e] w'].
    + destruct H as [Hne _]. contradiction.
    + destruct H as [_ ->]. reflexivity.
Qed.


(** C2. One write batch makes at most three upsert attempts, with
    a pause of 1000 ms after the first failure and of 2000 ms after
    the second; it commits the batch when an attempt succeeds and
    otherwise fails with the error of the third attempt, the
    collection unchanged. The batches are written in order: after a
    committed batch comes the next; the first batch to fail ends
    the loop with its error, which is the error of the ingestion
    call, and the batches committed before it stay in the
    collection. *)
Theorem write_batches_retry_then_abort (data : list Point) (w : World) :
  let r := insertPoints env data w in
  (forall batch w0, exists evs outcome,
      BatchAttempts batch evs outcome /\
      trace (snd (writeBatch env batch w0)) = trace w0 ++ evs /\
      match outcome with
      | None => fst (writeBatch env batch w0) = Ok tt /\
                collection (snd (writeBatch env batch w0)) = collection w0 ++ batch
      | Some e => fst (writeBatch env batch w0) = Err e /\
                  collection (snd (writeBatch env batch w0)) = collection w0
      end) /\
  (exists evs committed outcome,
      WriteRun (batchesOf 50 data) evs committed outcome /\
      upsertAttempts evs <= 3 * ceilDiv (List.length data) 50 /\
      trace (snd r) = trace w ++ evs /\
      collection (snd r) = collection w ++ committed /\
      match outcome with
      | None => fst r = Ok tt /\ committed = data
      | Some e =>
          fst r = Err e /\
          exists done failed rest,
            batchesOf 50 data = done ++ failed :: rest /\
            committed = List.concat done
      end) /\
  (forall dto w0 chunks w1 built w2 vectors e w4,
      loadAndSplit toLowerCase env dto w0 = (Ok chunks, w1) ->
      buildChunks env (fileName dto) chunks w1 = (Ok built, w2) ->
      generateEmbeddings env (List.map chunk_text (snd built)) w2 = (Ok vectors, w) ->
      validate (snd built) vectors = data ->
      r = (Err e, w4) ->
      processDocument toLowerCase env dto w0 = (Err e, w4)).
Proof.
  intros r. assert (Hpos : 0 < 50) by lia.
  split; [exact writeBatch_attempts|]. split.
  - destruct (insertLoop_run data (List.length data) 0 w)
      as (evs & committed & outcome & Hrun & Htr & Hcoll & Hres).
    unfold BATCH_SIZE in Hrun. rewrite slicesFrom_all in Hrun by exact Hpos.
    exists evs, committed, outcome. fold (insertPoints env data w) in Htr, Hcoll, Hres.
    fold r in Htr, Hcoll, Hres.
    split; [exact Hrun|]. split.
    { rewrite <- (length_batchesOf 50 data). exact (WriteRun_attempts _ _ _ _ Hrun). }
    split; [exact Htr|]. split; [exact Hcoll|].
    pose proof (WriteRun_committed _ _ _ _ Hrun) as Hc.
    destruct outcome as [e|].
    + split; [exact Hres | exact Hc].
    + split; [exact Hres|]. now rewrite Hc, concat_batchesOf.
  - intros dto w0 chunks w1 built w2 vectors e w4 Hload Hbuild Hembed Hdata Hr.
    rewrite processDocument_stages, Hload, Hbuild, Hembed.
    unfold storePoints. rewrite Hdata.
    destruct data as [|p data'] eqn:Hd.
    + subst r. discriminate.
    + cbn [List.length Nat.eqb]. fold r. now rewrite Hr.
Qed.

End AnyEnv.

(** C1, as stated, fails. Two chunks pass the length filter; the
    embedding model is called once with their two texts and answers
    with 384 components for the first and 256 for the second; the call
    succeeds and one point is committed, but chunksCount is 2. *)
Lemma chunksCount_includes_dropped_chunks :
  exists resp,
    fst (Demo.run 0) = Ok resp /\
    embedCalls (trace (snd (Demo.run 0))) =
      [[js "first chunk of text"; js "second chunk of text"]] /\
    (exists vectors,
        embedDocuments (Demo.env 0) Demo.emptyWorld
          [js "first chunk of text"; js "second chunk of text"] = Ok vectors /\
        List.map (@List.length number) vectors = [384; 256]) /\
    List.map (fun p => List.length (vector p)) (collection (snd (Demo.run 0))) = [384] /\
    chunksCount resp = 2 /\
    chunksCount resp <> List.length (collection (snd (Demo.run 0))).
Proof.
  eexists. split; [vm_compute; reflexivity|].
  split; [vm_compute; reflexivity|].
  split; [eexists; split; [reflexivity | vm_compute; reflexivity]|].
  split; [vm_compute; reflexivity|].
  split; [reflexivity|]. vm_compute. discriminate.
Qed.

(** C6 on the run above: the payload of the committed point has the
    key "uploadAt" where the claim, and the [DocumentChunk] interface
    of [types.ts], have "uploadedAt". *)
Theorem payload_timestamp_key_is_uploadAt :
  List.map (fun p => keys (payload p)) (collection (snd (Demo.run 0))) =
    [["text"; "documentId"; "chunkIndex"; "fileName"; "uploadAt"; "page"]%string] /\
  List.map (fun p => get (payload p) "uploadedAt") (collection (snd (Demo.run 0))) =
    [None] /\
  List.map (fun p => get (payload p) "uploadAt") (collection (snd (Demo.run 0))) =
    [Some (VString (js "2025-01-01T00:00:00.000Z"))].
Proof. repeat split; vm_compute; reflexivity. Qed.


(** The store fails twice, then accepts: the batch is committed on
    the third attempt, after pauses of 1000 ms and 2000 ms. *)
Example third_attempt_commits :
  writeSteps (trace (snd (Demo.run 2))) =
    [Attempt true; Pause 1000; Attempt true; Pause 2000; Attempt false] /\
  List.length (collection (snd (Demo.run 2))) = 1 /\
  (exists resp, fst (Demo.run 2) = Ok resp).
Proof.
  split; [vm_compute; reflexivity|]. split; [vm_compute; reflexivity|].
  eexists. vm_compute. reflexivity.
Qed.

(** The store fails three times: the call fails with the last error
    and nothing is committed. *)
Example three_failures_abort :
  fst (Demo.run 3) = Err (Thrown (js "timeout")) /\
  collection (snd (Demo.run 3)) = [] /\
  writeSteps (trace (snd (Demo.run 3))) =
    [Attempt true; Pause 1000; Attempt true; Pause 2000; Attempt true].
Proof. repeat split; vm_compute; reflexivity. Qed.

(** Sixty points, a store that accepts one upsert only: the first
    batch of fifty stays committed, the second exhausts its three
    attempts, and the loop ends with its error. *)
Example second_batch_fails_first_stays :
  let r := insertPoints (Demo.envFailingAfter 1) Demo.sixtyPoints Demo.emptyWorld in
  fst r = Err (Thrown (js "timeout")) /\
  collection (snd r) = firstn 50 Demo.sixtyPoints /\
  writeSteps (trace (snd r)) =
    [Attempt false;
     Attempt true; Pause 1000; Attempt true; Pause 2000; Attempt true].
Proof. repeat split; vm_compute; reflexivity. Qed.

(** The chunk of four letters is dropped before the indices are
    given out. *)
Example tiny_chunk_dropped :
  match buildChunks (Demo.env 0) (js "book.pdf")
                    [Demo.chunkA; Demo.chunkTiny; Demo.chunkB] Demo.emptyWorld with
  | (Ok (_, cs), _) =>
      List.map (fun c => (chunk_text c, get (chunk_metadata c) "chunkIndex")) cs =
        [ (js "first chunk of text", Some (VNumber 0));
          (js "second chunk of text", Some (VNumber 1)) ]
  | (Err _, _) => False
  end.
Proof. vm_compute. reflexivity. Qed.

End IngestionFacts.

(* ================================================================= *)
(** ** Ingestion pipeline: what every run does *)

Module IngestionRuns.
Import Loaders Ingestion SpecTerms Observations JSFacts IngestionFacts.
Local Open Scope js_scope.

(** *** Trimming *)

Lemma trimStart_suffix (s : JsString) :
  exists blanks, s = blanks ++ trimStart s /\
                 Forall (fun c => isWhiteSpace c = true) blanks.
Proof.
  induction s as [|c s (blanks & Hs & Hb)]; simpl.
  - exists []. auto.
  - destruct (isWhiteSpace c) eqn:Hc.
    + exists (c :: blanks). split; [simpl; now f_equal | now constructor].
    + exists []. auto.
Qed.

Lemma trimStart_head (s : JsString) (c : N) (rest : JsString) :
  trimStart s = c :: rest -> isWhiteSpace c = false.
Proof.
  induction s as [|d s IH]; simpl; [discriminate|].
  destruct (isWhiteSpace d) eqn:Hd; [exact IH|].
  intros H. injection H as <- _. exact Hd.
Qed.

Lemma trimStart_fixed (s : JsString) :
  (forall c rest, s = c :: rest -> isWhiteSpace c = false) -> trimStart s = s.
Proof.
  destruct s as [|c s]; [reflexivity|]. intros H. simpl.
  now rewrite (H c s eq_refl).
Qed.

Lemma trimStart_keeps_end (s : JsString) (c : N) :
  isWhiteSpace c = false ->
  exists front, trimStart (s ++ [c]) = front ++ [c].
Proof.
  intros Hc. induction s as [|d s (front & IH)]; simpl.
  - rewrite Hc. now exists [].
  - destruct (isWhiteSpace d); [now exists front|]. now exists (d :: s).
Qed.

Lemma trimEnd_prefix (s : JsString) :
  exists blanks, s = trimEnd s ++ blanks /\
                 Forall (fun c => isWhiteSpace c = true) blanks.
Proof.
  unfold trimEnd. destruct (trimStart_suffix (rev s)) as (blanks & Hs & Hb).
  exists (rev blanks). split.
  - rewrite <- rev_app_distr, <- Hs. now rewrite rev_involutive.
  - now apply Forall_rev.
Qed.

Lemma trimEnd_last (s front : JsString) (c : N) :
  trimEnd s = front ++ [c] -> isWhiteSpace c = false.
Proof.
  unfold trimEnd. intros H.
  assert (Hr : trimStart (rev s) = c :: rev front).
  { rewrite <- (rev_involutive (trimStart (rev s))), H, rev_app_distr. reflexivity. }
  exact (trimStart_head _ _ _ Hr).
Qed.

Lemma trimEnd_head (s : JsString) (c : N) (rest : JsString) :
  isWhiteSpace c = false -> exists rest', trimEnd (c :: rest) = c :: rest'.
Proof.
  intros Hc. unfold trimEnd. simpl.
  destruct (trimStart_keeps_end (rev rest) c Hc) as (front & H).
  rewrite H, rev_app_distr. simpl. now exists (rev front).
Qed.

(** [trim] leaves no white space at either end. *)
Lemma trim_ends (s : JsString) :
  (forall c rest, trim s = c :: rest -> isWhiteSpace c = false) /\
  (forall front c, trim s = front ++ [c] -> isWhiteSpace c = false).
Proof.
  unfold trim. split.
  - destruct (trimStart s) as [|d t] eqn:Ht.
    + intros c rest H. discriminate.
    + pose proof (trimStart_head _ _ _ Ht) as Hd.
      destruct (trimEnd_head t d t Hd) as (rest' & H').
      intros c rest H. rewrite H' in H. now injection H as <- _.
  - intros front c. apply trimEnd_last.
Qed.

Lemma trimEnd_fixed (s : JsString) :
  (forall front c, s = front ++ [c] -> isWhiteSpace c = false) -> trimEnd s = s.
Proof.
  intros H. unfold trimEnd. rewrite trimStart_fixed; [apply rev_involutive|].
  intros c rest Hr. apply (H (rev rest) c).
  rewrite <- (rev_involutive s), Hr. reflexivity.
Qed.

Lemma trim_idempotent (s : JsString) : trim (trim s) = trim s.
Proof.
  destruct (trim_ends s) as [Hhead Hlast].
  unfold trim at 1. rewrite trimStart_fixed by exact Hhead.
  now apply trimEnd_fixed.
Qed.

(** *** Lists *)

Lemma firstn_add_skipn {A} (i n : nat) (a : list A) :
  firstn (i + n) a = firstn i a ++ firstn n (skipn i a).
Proof.
  revert a. induction i as [|i IH]; intros [|x a]; simpl;
    rewrite ?firstn_nil; try reflexivity.
  now rewrite IH.
Qed.

Lemma Forall_firstn_of {A} (P : A -> Prop) (n : nat) (a : list A) :
  Forall P a -> Forall P (firstn n a).
Proof.
  intros H. rewrite <- (firstn_skipn n a) in H. now apply Forall_app in H.
Qed.

Lemma NoDup_map_firstn {A B} (f : A -> B) (n : nat) (a : list A) :
  NoDup (List.map f a) -> NoDup (List.map f (firstn n a)).
Proof.
  intros H. rewrite <- (firstn_skipn n a), map_app in H.
  now apply NoDup_app_remove_r in H.
Qed.

Lemma validPairs_In (cs : list Chunk) (vectors : list Vector) (c : Chunk) (v : Vector) :
  In (c, v) (validPairs cs vectors) -> In c cs /\ List.length v = 384.
Proof.
  revert vectors. induction cs as [|c0 cs IH]; intros [|v0 vectors]; simpl;
    try tauto.
  destruct (List.length v0 =? 384) eqn:Hv.
  - intros [H | H].
    + injection H as <- <-. split; [now left | now apply Nat.eqb_eq].
    + destruct (IH _ H). auto.
  - intros H. destruct (IH _ H). auto.
Qed.

Lemma validPairs_NoDup (cs : list Chunk) (vectors : list Vector) :
  NoDup (List.map chunk_id cs) ->
  NoDup (List.map (fun cv => chunk_id (fst cv)) (validPairs cs vectors)).
Proof.
  revert vectors. induction cs as [|c cs IH]; intros [|v vectors] H; simpl;
    try constructor.
  inversion H as [|x l Hnotin Hrest]; subst.
  destruct (List.length v =? 384); [|now apply IH].
  simpl. constructor; [|now apply IH].
  intros Hin. apply in_map_iff in Hin. destruct Hin as ([c' v'] & Hid & Hin).
  apply validPairs_In in Hin. destruct Hin as [Hin _]. simpl in Hid.
  apply Hnotin. rewrite <- Hid. now apply in_map.
Qed.

(** The indices of the valid pairs increase. *)
Lemma validPairs_indices (cs : list Chunk) (vectors : list Vector) (lo : nat) :
  List.map (fun c => get (chunk_metadata c) "chunkIndex") cs =
    List.map (fun i => Some (VNumber (Z.of_nat i))) (seq lo (List.length cs)) ->
  exists indices,
    List.map (fun cv => get (chunk_metadata (fst cv)) "chunkIndex") (validPairs cs vectors) =
      List.map (fun i => Some (VNumber (Z.of_nat i))) indices /\
    increasingFrom lo indices = true /\
    Forall (fun i => i < lo + List.length cs) indices.
Proof.
  revert vectors lo. induction cs as [|c cs IH]; intros vectors lo Hidx.
  - exists []. simpl. auto.
  - simpl in Hidx. injection Hidx as Hc Hrest.
    destruct vectors as [|v vectors]; [exists []; simpl; auto|].
    destruct (IH vectors (S lo) Hrest) as (indices & Hmap & Hinc & Hbound).
    assert (Hbound' : Forall (fun i => i < lo + List.length (c :: cs)) indices).
    { eapply Forall_impl; [|exact Hbound]. simpl. intros i Hi. lia. }
    simpl. destruct (List.length v =? 384).
    + exists (lo :: indices). simpl. rewrite Hc, Hmap. repeat split.
      * now rewrite Nat.leb_refl.
      * constructor; [lia | exact Hbound'].
    + exists indices. repeat split; try assumption.
      clear -Hinc. destruct indices as [|i indices]; [reflexivity|].
      cbn [increasingFrom] in *. apply andb_true_iff in Hinc.
      destruct Hinc as [Hi Hrest].
      rewrite Hrest, andb_true_r. apply Nat.leb_le in Hi. apply Nat.leb_le. lia.
Qed.

(** With the metadata of stage 3, the payload is the text in front of
    the metadata. *)
Lemma pointOf_payload (documentId fileName : JsString) (c : Chunk) (v : Vector) :
  chunkOf documentId fileName c ->
  payload (pointOf (c, v)) = ("text"%string, VString (chunk_text c)) :: chunk_metadata c.
Proof.
  intros ((index & uploadAt & page & Hm) & _). unfold pointOf. cbn [fst snd payload].
  rewrite Hm. reflexivity.
Qed.

(** *** Stages *)

Section Runs.
Variable toLowerCase : JsString -> JsString.
Variable env : Env.

Lemma mapWithMetadata_chunks (documentId fileName : JsString)
      (validChunks : list Document) (index : nat) (w : World) :
  Forall (fun chunk => longEnough chunk = true) validChunks ->
  exists cs w' ids,
    mapWithMetadata env documentId fileName index validChunks w = (Ok cs, w') /\
    Forall (chunkOf documentId fileName) cs /\
    trace w' = trace w ++ ids /\
    forallb isIdEvent ids = true /\
    List.length ids = 2 * List.length validChunks /\
    List.map chunk_id cs =
      List.map (fun j => uuidv4 env {| collection := collection w;
                                       trace := trace w ++ firstn (2 * j) ids |})
               (seq 0 (List.length validChunks)).
Proof.
  revert index w. induction validChunks as [|chunk rest IH]; intros index w Hlong.
  - exists [], w, []. rewrite app_nil_r. repeat split; constructor.
  - inversion Hlong as [|x l Hchunk Hrest]; subst.
    destruct (IH (S index) (log EvClock (log EvUuid w)) Hrest)
      as (cs & w' & ids & Hrun & Hchunks & Htrace & Hids & Hlen & Hmap).
    eexists (_ :: cs), w', (EvUuid :: EvClock :: ids).
    split; [cbn; unfold bind; cbn; rewrite Hrun; reflexivity|].
    repeat split.
    + constructor; [|exact Hchunks]. repeat split.
      * now eexists _, _, _.
      * cbn [chunk_text]. unfold longEnough in Hchunk. now apply Nat.leb_le in Hchunk.
      * cbn [chunk_text]. apply trim_idempotent.
    + rewrite Htrace. cbn [log trace]. now rewrite <- !app_assoc.
    + exact Hids.
    + simpl. lia.
    + cbn [List.map List.length seq chunk_id]. f_equal.
      * cbn [Nat.mul firstn]. rewrite app_nil_r. now destruct w.
      * rewrite Hmap, <- seq_shift, map_map. apply map_ext. intros j.
        f_equal. cbn [log trace collection]. f_equal.
        replace (2 * S j) with (S (S (2 * j))) by lia.
        cbn [firstn]. now rewrite <- !app_assoc.
Qed.

Lemma worldAt_nil (w : World) : worldAt w [] = w.
Proof. destruct w. unfold worldAt. cbn [collection trace]. now rewrite app_nil_r. Qed.

Lemma worldAt_log (ev : Event) (w : World) (events : list Event) :
  worldAt (log ev w) events = worldAt w (ev :: events).
Proof. unfold worldAt, log. cbn [collection trace]. now rewrite <- app_assoc. Qed.

Lemma forallb_firstn {A} (f : A -> bool) (k : nat) (l : list A) :
  forallb f l = true -> forallb f (firstn k l) = true.
Proof.
  revert k. induction l as [|x l IH]; intros [|k]; simpl; trivial.
  intros H. apply andb_true_iff in H. destruct H as [-> H]. now apply IH.
Qed.

Lemma FreshAlong_prefix (w : World) (events rest : list Event) :
  FreshAlong env w (events ++ rest) -> FreshAlong env w events.
Proof.
  intros H k1 k2 H1 H2 Hne Hid1 Hid2.
  assert (Hcut : forall k, k <= List.length events ->
                           firstn k (events ++ rest) = firstn k events).
  { intros k Hk. rewrite firstn_app. replace (k - List.length events) with 0 by lia.
    now rewrite firstn_O, app_nil_r. }
  specialize (H k1 k2). rewrite !Hcut in H by assumption.
  apply H; trivial; rewrite length_app; lia.
Qed.

(** The identifiers of stage 3 are pairwise different when [uuidv4]
    answers differently along the identifier phase. *)
Lemma mapWithMetadata_ids_fresh (fileName : JsString)
      (validChunks : list Document) (w : World) (cs : list Chunk)
      (w' : World) (ids : list Event) :
  Forall (fun chunk => longEnough chunk = true) validChunks ->
  mapWithMetadata env (uuidv4 env w) fileName 0 validChunks (log EvUuid w) = (Ok cs, w') ->
  trace w' = trace (log EvUuid w) ++ ids ->
  FreshAlong env w (EvUuid :: ids) ->
  NoDup (uuidv4 env w :: List.map chunk_id cs).
Proof.
  intros Hlong Hrun Htrace Hfresh.
  destruct (mapWithMetadata_chunks (uuidv4 env w) fileName validChunks 0 (log EvUuid w) Hlong)
    as (cs' & w'' & ids' & Hrun' & _ & Htrace' & Hids & Hlen & Hmap).
  rewrite Hrun in Hrun'. injection Hrun' as <- <-.
  assert (ids' = ids) by (rewrite Htrace in Htrace'; now apply app_inv_head in Htrace').
  subst ids'.
  assert (Hall : forall k, forallb isIdEvent (firstn k (EvUuid :: ids)) = true).
  { intros k. apply forallb_firstn. cbn [forallb isIdEvent]. exact Hids. }
  assert (Hat : forall j,
             {| collection := collection (log EvUuid w);
                trace := trace (log EvUuid w) ++ firstn (2 * j) ids |}
             = worldAt w (firstn (S (2 * j)) (EvUuid :: ids))).
  { intros j. unfold worldAt, log. cbn [collection trace firstn].
    now rewrite <- app_assoc. }
  rewrite Hmap.
  rewrite (map_ext _ (fun j => uuidv4 env (worldAt w (firstn (S (2 * j)) (EvUuid :: ids)))))
    by (intros j; now rewrite Hat).
  assert (Hdoc : uuidv4 env w = uuidv4 env (worldAt w (firstn 0 (EvUuid :: ids))))
    by (cbn [firstn]; now rewrite worldAt_nil).
  constructor.
  - intros Hin. apply in_map_iff in Hin. destruct Hin as (j & Heq & Hj).
    apply in_seq in Hj. rewrite Hdoc in Heq. revert Heq.
    apply Hfresh; try apply Hall; cbn [List.length]; lia.
  - apply NoDup_map_NoDup_ForallPairs; [|apply seq_NoDup].
    intros i j Hi Hj Heq. apply in_seq in Hi, Hj.
    destruct (Nat.eq_dec i j) as [|Hne]; [assumption|]. exfalso.
    revert Heq. apply Hfresh; try apply Hall; cbn [List.length]; lia.
Qed.

Lemma filter_longEnough (chunks : list Document) :
  Forall (fun chunk => longEnough chunk = true) (filter longEnough chunks).
Proof. apply Forall_forall. intros c Hc. now apply filter_In in Hc. Qed.

(** Stage 3, with what it leaves in the history. *)
Lemma buildChunks_run (fileName : JsString) (chunks : list Document) (w : World) :
  exists ids,
    trace (snd (buildChunks env fileName chunks w)) = trace w ++ ids /\
    forallb isIdEvent ids = true /\
    collection (snd (buildChunks env fileName chunks w)) = collection w /\
    forall documentId cs,
      fst (buildChunks env fileName chunks w) = Ok (documentId, cs) ->
      Forall (chunkOf documentId fileName) cs /\
      List.length cs = List.length (filter longEnough chunks) /\
      List.map (fun c => get (chunk_metadata c) "chunkIndex") cs =
        List.map (fun i => Some (VNumber (Z.of_nat i))) (seq 0 (List.length cs)) /\
      (FreshAlong env w ids -> NoDup (documentId :: List.map chunk_id cs)).
Proof.
  pose proof (buildChunks_spec env fileName chunks w) as Hspec. cbv zeta in Hspec.
  unfold buildChunks, bind, call_uuidv4 in *.
  destruct (filter longEnough chunks) as [|chunk rest] eqn:Hv.
  - exists [EvUuid]. simpl. split; [reflexivity|]. split; [reflexivity|].
    split; [reflexivity|]. intros documentId cs H. discriminate.
  - cbn [List.length Nat.eqb] in *.
    destruct (mapWithMetadata_chunks (uuidv4 env w) fileName (chunk :: rest) 0
                (log EvUuid w)) as (cs & w' & ids & Hrun & Hchunks & Htrace & Hids & Hlen & _).
    { rewrite <- Hv. apply filter_longEnough. }
    rewrite Hrun in *. cbn [ret fst snd] in *.
    destruct Hspec as (_ & Htext & Hidx & _ & Hcoll).
    exists (EvUuid :: ids).
    split; [rewrite Htrace; cbn [log trace]; now rewrite <- app_assoc|].
    split; [exact Hids|]. split; [exact Hcoll|].
    intros documentId cs0 H. injection H as <- <-.
    split; [exact Hchunks|]. split; [|split; [exact Hidx|]].
    + rewrite <- (length_map chunk_text cs), Htext. apply length_map.
    + intros Hfresh.
      apply (mapWithMetadata_ids_fresh fileName (chunk :: rest) w cs w' ids); trivial.
      rewrite <- Hv. apply filter_longEnough.
Qed.

(** Stage 4 only calls the embedding function. *)
Lemma embedLoop_trace (texts : list JsString) (fuel i : nat)
      (acc : list Vector) (w : World) :
  exists embeds,
    trace (snd (embedLoop env fuel texts i acc w)) = trace w ++ embeds /\
    forallb isEmbedEvent embeds = true.
Proof.
  revert i acc w. induction fuel as [|fuel IH]; intros i acc w; cbn [embedLoop].
  - exists []. now rewrite app_nil_r.
  - destruct (i <? List.length texts); [|exists []; now rewrite app_nil_r].
    unfold bind, call_embedDocuments.
    destruct (embedDocuments env w _) as [vs|e].
    + destruct (IH (i + EMBEDDING_BATCH_SIZE) (acc ++ vs)
                   (log (EvEmbed (slice texts i (i + EMBEDDING_BATCH_SIZE))) w))
        as (embeds & Htrace & Hall).
      exists (EvEmbed (slice texts i (i + EMBEDDING_BATCH_SIZE)) :: embeds).
      rewrite Htrace. cbn [log trace]. rewrite <- app_assoc. auto.
    + exists [EvEmbed (slice texts i (i + EMBEDDING_BATCH_SIZE))]. auto.
Qed.

Lemma BatchAttempts_events (batch : list Point) (evs : list Event)
      (outcome : option Error) :
  BatchAttempts batch evs outcome -> forallb isWriteEvent evs = true.
Proof. intros H. destruct H; reflexivity. Qed.

Lemma WriteRun_events (batches : list (list Point)) (evs : list Event)
      (committed : list Point) (outcome : option Error) :
  WriteRun batches evs committed outcome -> forallb isWriteEvent evs = true.
Proof.
  induction 1 as [|batch rest evs evs' committed outcome Hb Hrun IH|batch rest evs e Hb].
  - reflexivity.
  - rewrite forallb_app, IH, (BatchAttempts_events _ _ _ Hb). reflexivity.
  - exact (BatchAttempts_events _ _ _ Hb).
Qed.

(** The write loop commits a whole number of batches. *)
Lemma insertLoop_prefix (data : list Point) (fuel i : nat) (w : World) :
  List.length data - i <= fuel ->
  exists m,
    collection (snd (insertLoop env fuel data i w)) =
      collection w ++ firstn (50 * m) (skipn i data) /\
    (fst (insertLoop env fuel data i w) = Ok tt ->
     firstn (50 * m) (skipn i data) = skipn i data) /\
    (forall e, fst (insertLoop env fuel data i w) = Err e ->
               50 * m < List.length (skipn i data)).
Proof.
  revert i w. induction fuel as [|fuel IH]; intros i w Hfuel; cbn [insertLoop].
  - exists 0. simpl. rewrite app_nil_r, skipn_all2 by lia.
    repeat split. intros e H. discriminate.
  - destruct (i <? List.length data) eqn:Hlt.
    2:{ apply Nat.ltb_ge in Hlt. exists 0. simpl.
        rewrite app_nil_r, skipn_all2 by lia. repeat split. intros e H. discriminate. }
    apply Nat.ltb_lt in Hlt. unfold bind.
    set (batch := slice data i (i + BATCH_SIZE)).
    destruct (writeBatch_attempts env batch w) as (evs & outcome & _ & _ & Hout).
    destruct (writeBatch env batch w) as [[[]|e] w1]; cbn [fst snd] in *.
    + destruct outcome as [e|]; [destruct Hout; discriminate|].
      destruct Hout as [_ Hcoll].
      destruct (IH (i + BATCH_SIZE) w1) as (m & Hc & Hok & Herr);
        [unfold BATCH_SIZE; lia|].
      assert (Hsplit : firstn (50 * S m) (skipn i data) =
                       batch ++ firstn (50 * m) (skipn (i + BATCH_SIZE) data)).
      { replace (50 * S m) with (50 + 50 * m) by lia.
        rewrite firstn_add_skipn, skipn_skipn. subst batch.
        rewrite slice_from. unfold BATCH_SIZE.
        now replace (50 + i) with (i + 50) by lia. }
      exists (S m). rewrite Hsplit. split; [|split].
      * rewrite Hc, Hcoll, <- app_assoc. reflexivity.
      * intros H. rewrite (Hok H). subst batch. rewrite slice_from.
        unfold BATCH_SIZE.
        replace (i + 50) with (50 + i) by lia.
        rewrite <- skipn_skipn. apply firstn_skipn.
      * intros e H. specialize (Herr e H).
        rewrite length_skipn in *. unfold BATCH_SIZE in *. lia.
    + destruct outcome as [e'|]; [|destruct Hout; discriminate].
      destruct Hout as [_ Hcoll].
      exists 0. simpl. rewrite app_nil_r. split; [exact Hcoll|]. split.
      * discriminate.
      * intros e0 _. rewrite length_skipn. lia.
Qed.

Lemma upsertAttempts_none (t : list Event) :
  forallb (fun ev => isIdEvent ev || isEmbedEvent ev) t = true ->
  upsertAttempts t = 0.
Proof.
  induction t as [|[] t IH]; simpl; try discriminate; auto.
Qed.

Lemma embedCalls_app (t t' : list Event) :
  embedCalls (t ++ t') = embedCalls t ++ embedCalls t'.
Proof.
  induction t as [|[] t IH]; simpl; rewrite ?IH; reflexivity.
Qed.

Lemma embedCalls_map (batches : list (list JsString)) :
  embedCalls (List.map EvEmbed batches) = batches.
Proof. induction batches as [|b l IH]; simpl; now rewrite ?IH. Qed.

Lemma forallb_weaken {A} (p q : A -> bool) (l : list A) :
  (forall x, p x = true -> q x = true) -> forallb p l = true -> forallb q l = true.
Proof.
  intros H. induction l as [|x l IH]; simpl; [reflexivity|].
  intros Hl. apply andb_true_iff in Hl. destruct Hl as [Hx Hl].
  now rewrite (H x Hx), IH.
Qed.

(** The first failing embedding call ends stage 4: the calls made
    are the batches up to and including that one, the error is the
    answer of the model to that call, and the model answered all
    calls before it. *)
Lemma embedLoop_failure (texts : list JsString) (fuel i : nat)
      (acc : list Vector) (w : World) (e : Error) (w' : World) :
  embedLoop env fuel texts i acc w = (Err e, w') ->
  exists k,
    let batches := slicesFrom EMBEDDING_BATCH_SIZE fuel texts i in
    k < List.length batches /\
    trace w' = trace w ++ List.map EvEmbed (firstn (S k) batches) /\
    embedDocuments env (worldAt w (List.map EvEmbed (firstn k batches)))
                   (nth k batches []) = Err e /\
    forall j, j < k ->
      exists vectors,
        embedDocuments env (worldAt w (List.map EvEmbed (firstn j batches)))
                       (nth j batches []) = Ok vectors.
Proof.
  revert i acc w. induction fuel as [|fuel IH]; intros i acc w; cbn [embedLoop slicesFrom].
  - discriminate.
  - destruct (i <? List.length texts); [|discriminate].
    unfold bind, call_embedDocuments.
    destruct (embedDocuments env w _) as [vs|e0] eqn:Hanswer.
    + intros H. destruct (IH _ _ _ H) as (k & Hk & Htrace & Hfail & Hbefore).
      cbv zeta in *.
      exists (S k). split; [simpl; lia|]. split.
      { rewrite Htrace. cbn [log trace]. rewrite <- app_assoc. reflexivity. }
      split.
      { cbn [nth firstn List.map]. rewrite <- worldAt_log. exact Hfail. }
      intros [|j] Hj.
      * exists vs. cbn [nth firstn List.map]. now rewrite worldAt_nil.
      * destruct (Hbefore j) as (vectors & Hv); [lia|].
        exists vectors. cbn [nth firstn List.map]. rewrite <- worldAt_log. exact Hv.
    + intros H. injection H as <- <-. exists 0. cbv zeta.
      split; [simpl; lia|]. split; [reflexivity|]. split.
      * cbn [nth firstn List.map]. now rewrite worldAt_nil.
      * intros j Hj. lia.
Qed.

(** *** What the write loop leaves *)

Lemma acceptedBatches_app (t t' : list Event) :
  acceptedBatches (t ++ t') = acceptedBatches t ++ acceptedBatches t'.
Proof.
  induction t as [|ev t IH]; [reflexivity|].
  destruct ev as [| | |batch [e|]|]; cbn [app acceptedBatches]; rewrite IH; reflexivity.
Qed.

Lemma acceptedBatches_none (t : list Event) :
  forallb (fun ev => isIdEvent ev || isEmbedEvent ev) t = true ->
  acceptedBatches t = [].
Proof.
  induction t as [|[] t IH]; simpl; try discriminate; auto.
Qed.

Lemma acceptedBatches_attempts (batch : list Point) (evs : list Event)
      (outcome : option Error) :
  BatchAttempts batch evs outcome ->
  acceptedBatches evs = match outcome with None => [batch] | Some _ => [] end.
Proof. intros H. destruct H; reflexivity. Qed.

(** The write loop leaves in the collection what the store accepted,
    and the batches accepted before a failure are full ones. *)
Lemma insertLoop_accepted (data : list Point) (fuel i : nat) (w : World) :
  exists evs,
    trace (snd (insertLoop env fuel data i w)) = trace w ++ evs /\
    forallb isWriteEvent evs = true /\
    collection (snd (insertLoop env fuel data i w)) =
      collection w ++ List.concat (acceptedBatches evs) /\
    (forall e, fst (insertLoop env fuel data i w) = Err e ->
               Forall (fun batch => List.length batch = 50) (acceptedBatches evs)).
Proof.
  revert i w. induction fuel as [|fuel IH]; intros i w; cbn [insertLoop].
  - exists []. simpl. rewrite !app_nil_r. repeat split. intros e H. discriminate.
  - destruct (i <? List.length data) eqn:Hlt.
    2:{ exists []. simpl. rewrite !app_nil_r. repeat split. intros e H. discriminate. }
    set (batch := slice data i (i + BATCH_SIZE)). unfold bind.
    destruct (writeBatch_attempts env batch w) as (evs & outcome & Hatt & Htr & Hout).
    pose proof (acceptedBatches_attempts _ _ _ Hatt) as Hacc.
    pose proof (BatchAttempts_events _ _ _ Hatt) as Hwr.
    destruct (writeBatch env batch w) as [[[]|e0] w1]; cbn [fst snd] in *.
    + destruct outcome as [e1|]; [destruct Hout as [Hout _]; discriminate|].
      destruct Hout as [_ Hc1].
      destruct (IH (i + BATCH_SIZE) w1) as (evs' & Htr' & Hwr' & Hc' & Hfull).
      exists (evs ++ evs'). rewrite acceptedBatches_app, Hacc. cbn [app List.concat].
      split; [rewrite Htr', Htr, <- app_assoc; reflexivity|].
      split; [rewrite forallb_app, Hwr, Hwr'; reflexivity|].
      split; [rewrite Hc', Hc1, <- app_assoc; reflexivity|].
      intros e He. constructor; [|exact (Hfull e He)].
      assert (Hnext : i + BATCH_SIZE < List.length data).
      { destruct fuel as [|fuel']; cbn [insertLoop] in He; [discriminate|].
        destruct (i + BATCH_SIZE <? List.length data) eqn:Hn; [|discriminate].
        now apply Nat.ltb_lt in Hn. }
      unfold batch, slice, BATCH_SIZE in *. rewrite length_firstn, length_skipn. lia.
    + destruct outcome as [e1|]; [|destruct Hout as [Hout _]; discriminate].
      destruct Hout as [_ Hc1].
      exists evs. rewrite Hacc. cbn [List.concat]. rewrite app_nil_r.
      split; [exact Htr|]. split; [exact Hwr|]. split; [exact Hc1|].
      intros e _. constructor.
Qed.

(** A run that ends in a failure has a batch that exhausted its
    attempts, and such a batch takes three upserts. *)
Lemma WriteRun_exhausted (batches : list (list Point)) (evs : list Event)
      (committed : list Point) (e : Error) :
  WriteRun batches evs committed (Some e) -> ExhaustsAttempts evs.
Proof.
  remember (Some e) as outcome eqn:Ho. intros H. revert e Ho.
  induction H as [|batch rest evs evs' committed outcome Hb Hrun IH|batch rest evs e0 Hb];
    intros e Ho.
  - discriminate.
  - destruct (IH e Ho) as (before & b & e1 & e2 & e3 & after & ->).
    exists (evs ++ before), b, e1, e2, e3, after. now rewrite <- app_assoc.
  - inversion Hb; subst. exists [], batch, e1, e2, e0, []. reflexivity.
Qed.

Lemma ExhaustsAttempts_later (before t : list Event) :
  ExhaustsAttempts t -> ExhaustsAttempts (before ++ t).
Proof.
  intros (b0 & batch & e1 & e2 & e3 & after & ->).
  exists (before ++ b0), batch, e1, e2, e3, after. now rewrite <- app_assoc.
Qed.

Lemma ExhaustsAttempts_three_upserts (t : list Event) :
  ExhaustsAttempts t -> 3 <= upsertAttempts t.
Proof.
  intros (before & batch & e1 & e2 & e3 & after & ->).
  rewrite !upsertAttempts_app. cbn [upsertAttempts]. lia.
Qed.

Lemma validPairs_some (cs : list Chunk) (vectors : list Vector)
      (i : nat) (c : Chunk) (v : Vector) :
  nth_error cs i = Some c -> nth_error vectors i = Some v ->
  List.length v = 384 -> In (c, v) (validPairs cs vectors).
Proof.
  revert vectors i. induction cs as [|c0 cs IH]; intros [|v0 vectors] [|i];
    cbn [nth_error validPairs]; try discriminate.
  - intros Hc Hv Hlen. injection Hc as ->. injection Hv as ->.
    apply Nat.eqb_eq in Hlen. rewrite Hlen. now left.
  - intros Hc Hv Hlen. specialize (IH vectors i Hc Hv Hlen).
    destruct (List.length v0 =? 384); [now right | exact IH].
Qed.

(** Every run, taken apart: either it fails before anything is
    written, or it reaches the write loop with at least one point. *)
Lemma processDocument_run (dto : DocumentDto) (w : World) :
  let run := processDocument toLowerCase env dto w in
  (exists e ids embeds,
      fst run = Err e /\ collection (snd run) = collection w /\
      trace (snd run) = trace w ++ ids ++ embeds /\
      forallb isIdEvent ids = true /\ forallb isEmbedEvent embeds = true) \/
  (exists chunks documentId cs w2 vectors w3 ids embeds,
      loadAndSplit toLowerCase env dto w = (Ok chunks, w) /\
      buildChunks env (fileName dto) chunks w = (Ok (documentId, cs), w2) /\
      generateEmbeddings env (List.map chunk_text cs) w2 = (Ok vectors, w3) /\
      collection w3 = collection w /\
      trace w3 = trace w ++ ids ++ embeds /\
      forallb isIdEvent ids = true /\ forallb isEmbedEvent embeds = true /\
      validate cs vectors <> [] /\
      snd run = snd (insertPoints env (validate cs vectors) w3) /\
      fst run =
        match fst (insertPoints env (validate cs vectors) w3) with
        | Ok _ => Ok {| success := true;
                        documentId := documentId;
                        chunksCount := List.length cs;
                        message := Some (js "Documento processado com sucesso!") |}
        | Err e => Err e
        end).
Proof.
  intros run. subst run. rewrite processDocument_stages.
  pose proof (loadAndSplit_world toLowerCase env dto w) as Hw1.
  destruct (loadAndSplit toLowerCase env dto w) as [[chunks|e] w1] eqn:Hload;
    cbn [snd] in Hw1; subst w1.
  2:{ left. exists e, [], []. rewrite !app_nil_r. auto. }
  destruct (buildChunks_run (fileName dto) chunks w) as (ids & Htr2 & Hids & Hc2 & _).
  destruct (buildChunks env (fileName dto) chunks w) as [[[documentId cs]|e] w2] eqn:Hbuild;
    cbn [fst snd] in *.
  2:{ left. exists e, ids, []. rewrite !app_nil_r. auto. }
  destruct (embedLoop_trace (List.map chunk_text cs)
              (List.length (List.map chunk_text cs)) 0 [] w2) as (embeds & Htr3 & Hemb).
  pose proof (embedLoop_collection env (List.map chunk_text cs)
                (List.length (List.map chunk_text cs)) 0 [] w2) as Hc3.
  fold (generateEmbeddings env (List.map chunk_text cs) w2) in Htr3, Hc3.
  destruct (generateEmbeddings env (List.map chunk_text cs) w2) as [[vectors|e] w3] eqn:Hembed;
    cbn [fst snd] in *.
  2:{ left. exists e, ids, embeds. rewrite Htr3, Htr2, Hc3, Hc2, <- app_assoc. auto. }
  unfold storePoints.
  destruct (validate cs vectors) as [|p data] eqn:Hdata.
  { left. exists NoValidVectors, ids, embeds. cbn.
    rewrite Htr3, Htr2, Hc3, Hc2, <- app_assoc. auto. }
  cbn [List.length Nat.eqb].
  right. exists chunks, documentId, cs, w2, vectors, w3, ids, embeds.
  rewrite Hdata.
  split; [reflexivity|]. split; [exact Hbuild|]. split; [exact Hembed|].
  split; [congruence|].
  split; [rewrite Htr3, Htr2, <- app_assoc; reflexivity|].
  split; [exact Hids|]. split; [exact Hemb|]. split; [discriminate|].
  now destruct (insertPoints env (p :: data) w3) as [[[]|e] w4].
Qed.

(** What a run adds to the collection. *)
Lemma processDocument_added (dto : DocumentDto) (w : World) :
  let run := processDocument toLowerCase env dto w in
  exists documentId cs vectors m,
    let added := List.map pointOf (firstn m (validPairs cs vectors)) in
    collection (snd run) = collection w ++ added /\
    Forall (chunkOf documentId (fileName dto)) cs /\
    List.map (fun c => get (chunk_metadata c) "chunkIndex") cs =
      List.map (fun i => Some (VNumber (Z.of_nat i))) (seq 0 (List.length cs)) /\
    (forall events,
        trace (snd run) = trace w ++ events -> FreshAlong env w events ->
        NoDup (documentId :: List.map chunk_id cs)) /\
    (forall resp, fst run = Ok resp ->
       resp = {| success := true; documentId := documentId;
                 chunksCount := List.length cs;
                 message := Some (js "Documento processado com sucesso!") |} /\
       firstn m (validPairs cs vectors) = validPairs cs vectors /\
       validPairs cs vectors <> []) /\
    (forall e, fst run = Err e ->
       exists k, m = 50 * k /\ List.length added = m).
Proof.
  intros run. destruct (processDocument_run dto w) as
      [(e & ids & embeds & Hfst & Hcoll & _)
      |(chunks & documentId & cs & w2 & vectors & w3 & ids & embeds & Hload & Hbuild &
        Hembed & Hc3 & Htr3 & _ & _ & Hne & Hsnd & Hfst)]; fold run in Hfst.
  - exists [], [], [], 0. cbn zeta. simpl. rewrite app_nil_r. fold run in Hcoll.
    split; [exact Hcoll|]. split; [constructor|]. split; [reflexivity|].
    split; [intros _ _ _; constructor; [intros []|constructor]|].
    split; [intros resp H; rewrite H in Hfst; discriminate|].
    intros e0 _. exists 0. auto.
  - fold run in Hsnd.
    destruct (buildChunks_run (fileName dto) chunks w) as (ids0 & Htr2 & _ & _ & Hcs).
    rewrite Hbuild in Htr2, Hcs. cbn [snd] in Htr2.
    destruct (Hcs documentId cs eq_refl) as (Hchunks & _ & Hidx & Hfresh).
    destruct (insertLoop_prefix (validate cs vectors) (List.length (validate cs vectors)) 0 w3)
      as (m & Hcoll & Hok & Herr); [lia|].
    fold (insertPoints env (validate cs vectors) w3) in Hcoll, Hok, Herr.
    cbn [skipn] in *. rewrite validate_validPairs in *. rewrite firstn_map in Hcoll.
    exists documentId, cs, vectors, (50 * m). cbn zeta.
    split; [rewrite Hsnd, Hcoll, Hc3; reflexivity|].
    split; [exact Hchunks|]. split; [exact Hidx|]. split.
    { intros events Hevents Hfr. apply Hfresh.
      destruct (insertLoop_run env (validate cs vectors)
                  (List.length (validate cs vectors)) 0 w3)
        as (evs & _ & _ & _ & Htr4 & _).
      fold (insertPoints env (validate cs vectors) w3) in Htr4.
      rewrite validate_validPairs in Htr4.
      rewrite Hsnd, Htr4 in Hevents.
      destruct (embedLoop_trace (List.map chunk_text cs)
                  (List.length (List.map chunk_text cs)) 0 [] w2) as (embeds0 & Htr3' & _).
      fold (generateEmbeddings env (List.map chunk_text cs) w2) in Htr3'.
      rewrite Hembed in Htr3'. cbn [snd] in Htr3'.
      rewrite Htr3', Htr2, <- !app_assoc in Hevents.
      apply app_inv_head in Hevents. subst events.
      exact (FreshAlong_prefix _ _ _ Hfr). }
    split.
    + intros resp H. rewrite H in Hfst.
      destruct (fst (insertPoints env _ w3)) as [[]|e]; [|discriminate].
      injection Hfst as ->. split; [reflexivity|].
      specialize (Hok eq_refl).
      split.
      * apply (f_equal (@List.length Point)) in Hok.
        rewrite length_firstn, !length_map in Hok.
        apply firstn_all2. lia.
      * intros Hnil. rewrite Hnil in Hne. now apply Hne.
    + intros e H. rewrite H in Hfst.
      destruct (fst (insertPoints env _ w3)) as [[]|e0]; [discriminate|].
      specialize (Herr e0 eq_refl). exists m. split; [reflexivity|].
      rewrite length_map in Herr. rewrite length_map, length_firstn. lia.
Qed.

Lemma increasingFrom_firstn (m lo : nat) (l : list nat) :
  increasingFrom lo l = true -> increasingFrom lo (firstn m l) = true.
Proof.
  revert lo l. induction m as [|m IH]; intros lo [|i l]; simpl; try reflexivity.
  intros H. apply andb_true_iff in H. destruct H as [Hi Hl].
  now rewrite Hi, IH.
Qed.

Lemma embedCalls_ids (ids : list Event) :
  forallb isIdEvent ids = true -> embedCalls ids = [].
Proof. induction ids as [|[] ids IH]; simpl; try discriminate; auto. Qed.

(** What the pairs kept by validation look like. *)
Lemma validPairs_chunks (documentId fileName : JsString) (cs : list Chunk)
      (vectors : list Vector) (m : nat) :
  Forall (chunkOf documentId fileName) cs ->
  Forall (fun cv => chunkOf documentId fileName (fst cv) /\ List.length (snd cv) = 384)
         (firstn m (validPairs cs vectors)).
Proof.
  intros Hcs. apply Forall_firstn_of. apply Forall_forall. intros [c v] Hin.
  apply validPairs_In in Hin. destruct Hin as [Hin Hv].
  split; [|exact Hv]. rewrite Forall_forall in Hcs. now apply Hcs.
Qed.

(** *** Theorems *)

(** X1. A call that returns success has added at least one point to
    the collection; every added point has a vector of 384 components;
    there are at most chunksCount of them; and the answer has
    success = true. *)
Theorem success_has_committed_points (dto : DocumentDto) (w : World)
        (resp : UploadResponse) (w' : World) :
  processDocument toLowerCase env dto w = (Ok resp, w') ->
  exists added,
    collection w' = collection w ++ added /\
    added <> [] /\
    Forall (fun p => List.length (vector p) = 384) added /\
    List.length added <= chunksCount resp /\
    success resp = true.
Proof.
  intros Hrun.
  destruct (processDocument_added dto w)
    as (documentId & cs & vectors & m & Hcoll & Hchunks & _ & _ & Hok & _).
  rewrite Hrun in Hcoll, Hok. cbn [fst snd] in *.
  destruct (Hok resp eq_refl) as (-> & Hall & Hne).
  rewrite Hall in Hcoll.
  exists (List.map pointOf (validPairs cs vectors)).
  split; [exact Hcoll|]. split; [|split; [|split; [|reflexivity]]].
  - destruct (validPairs cs vectors); [contradiction | discriminate].
  - apply Forall_map. eapply Forall_impl; [|apply validPairs_dimension].
    intros [c v] H. exact H.
  - rewrite length_map. cbn [chunksCount]. apply validPairs_length.
Qed.

(** X2. A call that fails leaves in the collection exactly the
    batches the store accepted during the call, in the order it
    accepted them: nothing that was committed is taken back. Each of
    these batches has 50 points and every point has a vector of 384
    components. *)
Theorem failure_leaves_whole_batches (dto : DocumentDto) (w : World)
        (e : Error) (w' : World) :
  processDocument toLowerCase env dto w = (Err e, w') ->
  exists events,
    trace w' = trace w ++ events /\
    collection w' = collection w ++ List.concat (acceptedBatches events) /\
    Forall (fun batch => List.length batch = 50) (acceptedBatches events) /\
    Forall (fun p => List.length (vector p) = 384)
           (List.concat (acceptedBatches events)).
Proof.
  intros Hrun.
  assert (Hdim : forall added, collection w' = collection w ++ added ->
                   Forall (fun p => List.length (vector p) = 384) added).
  { intros added Hadded.
    destruct (processDocument_added dto w)
      as (documentId & cs & vectors & m & Hcoll & _).
    rewrite Hrun in Hcoll. cbn [fst snd] in Hcoll. rewrite Hadded in Hcoll.
    apply app_inv_head in Hcoll. subst added.
    apply Forall_map. apply Forall_firstn_of.
    eapply Forall_impl; [|apply validPairs_dimension]. intros [c v] H. exact H. }
  destruct (processDocument_run dto w) as
      [(e0 & ids & embeds & _ & Hcoll & Htrace & Hids & Hemb)
      |(chunks & documentId & cs & w2 & vectors & w3 & ids & embeds & _ & _ &
        _ & Hc3 & Htr3 & Hids & Hemb & _ & Hsnd & Hfst)];
    rewrite Hrun in *; cbn [fst snd] in *.
  - assert (Hnone : acceptedBatches (ids ++ embeds) = []).
    { apply acceptedBatches_none. rewrite forallb_app. apply andb_true_iff. split.
      - eapply forallb_weaken; [|exact Hids]. intros ev ->. reflexivity.
      - eapply forallb_weaken; [|exact Hemb]. intros ev ->. apply orb_true_r. }
    exists (ids ++ embeds). rewrite Hnone. cbn [List.concat]. rewrite app_nil_r.
    split; [exact Htrace|]. split; [exact Hcoll|]. split; constructor.
  - destruct (insertLoop_accepted (validate cs vectors)
                (List.length (validate cs vectors)) 0 w3)
      as (evs & Htr4 & _ & Hc4 & Hfull).
    fold (insertPoints env (validate cs vectors) w3) in Htr4, Hc4, Hfull.
    assert (Hnone : acceptedBatches (ids ++ embeds) = []).
    { apply acceptedBatches_none. rewrite forallb_app. apply andb_true_iff. split.
      - eapply forallb_weaken; [|exact Hids]. intros ev ->. reflexivity.
      - eapply forallb_weaken; [|exact Hemb]. intros ev ->. apply orb_true_r. }
    assert (Hacc : acceptedBatches (ids ++ embeds ++ evs) = acceptedBatches evs).
    { rewrite app_assoc, acceptedBatches_app, Hnone. reflexivity. }
    assert (Hcoll : collection w' = collection w ++ List.concat (acceptedBatches evs)).
    { rewrite Hsnd, Hc4, Hc3. reflexivity. }
    exists (ids ++ embeds ++ evs). rewrite Hacc.
    split; [rewrite Hsnd, Htr4, Htr3, <- !app_assoc; reflexivity|].
    split; [exact Hcoll|]. split; [|exact (Hdim _ Hcoll)].
    destruct (fst (insertPoints env (validate cs vectors) w3)) as [[]|e1] eqn:Hres;
      [discriminate|].
    exact (Hfull e1 eq_refl).
Qed.

(** X3. Of the effects the history records (draws of identifiers
    and timestamps, embedding calls, upserts and pauses), a call makes
    the draws first, then the embedding calls, then the upserts and
    pauses: no embedding call follows an upsert and no identifier is
    drawn after the first embedding call. The connection check, the
    choice of the loader, loading and splitting come before all of
    them and leave no event: a call that fails there, as against a
    store that cannot be reached, fails with that error having drawn,
    embedded and written nothing. *)
Theorem stages_leave_history_in_order (dto : DocumentDto) (w : World) :
  (exists ids embeds writes,
      trace (snd (processDocument toLowerCase env dto w)) =
        trace w ++ ids ++ embeds ++ writes /\
      forallb isIdEvent ids = true /\
      forallb isEmbedEvent embeds = true /\
      forallb isWriteEvent writes = true) /\
  (forall e,
      fst (loadAndSplit toLowerCase env dto w) = Err e ->
      processDocument toLowerCase env dto w = (Err e, w)) /\
  (forall cause,
      getCollections env w = Some cause ->
      processDocument toLowerCase env dto w = (Err (QdrantUnreachable cause), w)).
Proof.
  assert (Hearly : forall e,
             fst (loadAndSplit toLowerCase env dto w) = Err e ->
             processDocument toLowerCase env dto w = (Err e, w)).
  { intros e He. rewrite processDocument_stages.
    pose proof (loadAndSplit_world toLowerCase env dto w) as Hw.
    destruct (loadAndSplit toLowerCase env dto w) as [[chunks|e0] w1];
      cbn [fst snd] in *; [discriminate|].
    injection He as ->. now subst w1. }
  split; [|split; [exact Hearly|]].
  - destruct (processDocument_run dto w) as
        [(e & ids & embeds & _ & _ & Htrace & Hids & Hemb)
        |(chunks & documentId & cs & w2 & vectors & w3 & ids & embeds & _ & _ &
          _ & _ & Htrace & Hids & Hemb & _ & Hsnd & _)].
    + exists ids, embeds, []. rewrite app_nil_r. auto.
    + destruct (insertLoop_run env (validate cs vectors) (List.length (validate cs vectors)) 0 w3)
        as (evs & committed & outcome & Hrun & Htr & _).
      exists ids, embeds, evs. rewrite Hsnd. unfold insertPoints.
      rewrite Htr, Htrace, <- !app_assoc.
      repeat split; try assumption. exact (WriteRun_events _ _ _ _ Hrun).
  - intros cause Hcause. apply Hearly.
    unfold loadAndSplit, bind, checkConnection. now rewrite Hcause.
Qed.

(** X4. When [uuidv4] answers differently at any two different
    points of the identifier phase of the call's own history, the
    points the call adds have pairwise different ids, none of which
    is the documentId. *)
Theorem point_ids_never_repeat (dto : DocumentDto) (w : World)
        (events : list Event) :
  trace (snd (processDocument toLowerCase env dto w)) = trace w ++ events ->
  FreshAlong env w events ->
  exists added,
    collection (snd (processDocument toLowerCase env dto w)) = collection w ++ added /\
    NoDup (List.map id added) /\
    (forall resp, fst (processDocument toLowerCase env dto w) = Ok resp ->
                  ~ In (documentId resp) (List.map id added)).
Proof.
  intros Hevents Hfresh.
  destruct (processDocument_added dto w)
    as (documentId & cs & vectors & m & Hcoll & _ & _ & Hnodup & Hok & _).
  specialize (Hnodup events Hevents Hfresh).
  inversion Hnodup as [|x l Hnotin Hcs]; subst.
  exists (List.map pointOf (firstn m (validPairs cs vectors))).
  split; [exact Hcoll|].
  assert (Hids : List.map id (List.map pointOf (firstn m (validPairs cs vectors))) =
                 List.map (fun cv => chunk_id (fst cv)) (firstn m (validPairs cs vectors))).
  { rewrite map_map. reflexivity. }
  rewrite Hids. split.
  - apply NoDup_map_firstn. now apply validPairs_NoDup.
  - intros resp Hresp. destruct (Hok resp Hresp) as (-> & _ & _). cbn [Ingestion.documentId].
    intros Hin. apply Hnotin. apply in_map_iff in Hin.
    destruct Hin as ([c v] & Hid & Hin). cbn [fst] in Hid.
    assert (Hin' : In (c, v) (validPairs cs vectors)).
    { rewrite <- (firstn_skipn m (validPairs cs vectors)). apply in_or_app. now left. }
    apply validPairs_In in Hin'. rewrite <- Hid. apply in_map. tauto.
Qed.

(** X5. Every point a call adds carries, in its payload, one and the
    same documentId (the one returned on success), the fileName of the
    call, and a text that is trimmed and has at least 10 characters. *)
Theorem payload_carries_document_and_text (dto : DocumentDto) (w : World) :
  exists added documentId,
    collection (snd (processDocument toLowerCase env dto w)) = collection w ++ added /\
    Forall (fun p =>
              get (payload p) "documentId" = Some (VString documentId) /\
              get (payload p) "fileName" = Some (VString (fileName dto)) /\
              exists text,
                get (payload p) "text" = Some (VString text) /\
                10 <= JS.length text /\ trim text = text) added /\
    (forall resp, fst (processDocument toLowerCase env dto w) = Ok resp ->
                  Ingestion.documentId resp = documentId).
Proof.
  destruct (processDocument_added dto w)
    as (documentId & cs & vectors & m & Hcoll & Hchunks & _ & _ & Hok & _).
  exists (List.map pointOf (firstn m (validPairs cs vectors))), documentId.
  split; [exact Hcoll|]. split.
  - apply Forall_map.
    eapply Forall_impl; [|exact (validPairs_chunks _ _ cs vectors m Hchunks)].
    intros [c v] [Hc _]. cbn [fst] in Hc.
    rewrite (pointOf_payload _ _ c v Hc).
    destruct Hc as ((index & uploadAt & page & Hm) & Hlen & Htrim). rewrite Hm.
    split; [reflexivity|]. split; [reflexivity|].
    exists (chunk_text c). split; [reflexivity|]. split; assumption.
  - intros resp Hresp. destruct (Hok resp Hresp) as (-> & _). reflexivity.
Qed.

(** X6. The chunkIndex values of the points a call adds increase
    strictly, in the order the points are added, and stay below
    chunksCount; they need not be contiguous. *)
Theorem committed_chunk_indices_increase (dto : DocumentDto) (w : World) :
  exists added indices,
    collection (snd (processDocument toLowerCase env dto w)) = collection w ++ added /\
    List.map chunkIndexOf added = List.map (fun i => Some (Z.of_nat i)) indices /\
    increasingFrom 0 indices = true /\
    (forall resp, fst (processDocument toLowerCase env dto w) = Ok resp ->
                  Forall (fun i => i < chunksCount resp) indices).
Proof.
  destruct (processDocument_added dto w)
    as (documentId & cs & vectors & m & Hcoll & Hchunks & Hidx & _ & Hok & _).
  destruct (validPairs_indices cs vectors 0 Hidx) as (indices & Hmap & Hinc & Hbound).
  exists (List.map pointOf (firstn m (validPairs cs vectors))), (firstn m indices).
  split; [exact Hcoll|]. split; [|split].
  - set (unwrap := fun o : option JsValue =>
                     match o with Some (VNumber n) => Some n | _ => None end).
    set (g := fun cv : Chunk * Vector =>
                unwrap (get (chunk_metadata (fst cv)) "chunkIndex")).
    rewrite map_map.
    rewrite (map_ext_in _ g).
    + rewrite <- !firstn_map. f_equal.
      transitivity (List.map unwrap
                      (List.map (fun cv : Chunk * Vector =>
                                   get (chunk_metadata (fst cv)) "chunkIndex")
                                (validPairs cs vectors))).
      * now rewrite map_map.
      * rewrite Hmap, map_map. reflexivity.
    + intros [c v] Hin.
      pose proof (validPairs_chunks _ _ cs vectors m Hchunks) as Hall.
      rewrite Forall_forall in Hall. destruct (Hall _ Hin) as [Hc _]. cbn [fst] in Hc.
      unfold chunkIndexOf, g, unwrap. rewrite (pointOf_payload _ _ c v Hc). reflexivity.
  - now apply increasingFrom_firstn.
  - intros resp Hresp. destruct (Hok resp Hresp) as (-> & _). cbn [chunksCount].
    apply Forall_firstn_of. exact Hbound.
Qed.

(** X7. When stage 4 fails, the error of the ingestion call is the
    very error the embedding function answered with: the function
    answered the batches before the failing one, failed on that one,
    and no later batch was handed to it; no upsert is attempted and
    the collection is as it was. *)
Theorem embedding_failure_writes_nothing (dto : DocumentDto) (w : World)
        (chunks : list Document) (built : JsString * list Chunk) (w2 : World)
        (e : Error) (w3 : World) :
  loadAndSplit toLowerCase env dto w = (Ok chunks, w) ->
  buildChunks env (fileName dto) chunks w = (Ok built, w2) ->
  generateEmbeddings env (List.map chunk_text (snd built)) w2 = (Err e, w3) ->
  processDocument toLowerCase env dto w = (Err e, w3) /\
  collection w3 = collection w /\
  upsertAttempts (trace w3) = upsertAttempts (trace w) /\
  exists k,
    let batches := batchesOf 50 (List.map chunk_text (snd built)) in
    k < ceilDiv (List.length (snd built)) 50 /\
    embedCalls (trace w3) = embedCalls (trace w) ++ firstn (S k) batches /\
    embedDocuments env (worldAt w2 (List.map EvEmbed (firstn k batches)))
                   (nth k batches []) = Err e /\
    forall j, j < k ->
      exists vectors,
        embedDocuments env (worldAt w2 (List.map EvEmbed (firstn j batches)))
                       (nth j batches []) = Ok vectors.
Proof.
  intros Hload Hbuild Hembed. assert (Hpos : 0 < 50) by lia.
  split; [rewrite processDocument_stages, Hload, Hbuild, Hembed; reflexivity|].
  destruct (buildChunks_run (fileName dto) chunks w) as (ids & Htr2 & Hids & Hc2 & _).
  rewrite Hbuild in Htr2, Hc2. cbn [snd] in *.
  pose proof (embedLoop_collection env (List.map chunk_text (snd built))
                (List.length (List.map chunk_text (snd built))) 0 [] w2) as Hc3.
  unfold generateEmbeddings in Hembed. rewrite Hembed in Hc3. cbn [snd] in Hc3.
  destruct (embedLoop_failure _ _ _ _ _ _ _ Hembed) as (k & Hk & Htr3 & Hfail & Hbefore).
  cbv zeta in *.
  unfold EMBEDDING_BATCH_SIZE in *. rewrite slicesFrom_all in * by exact Hpos.
  rewrite length_batchesOf, length_map in Hk.
  split; [congruence|]. split.
  - rewrite Htr3, Htr2, !upsertAttempts_app.
    rewrite (upsertAttempts_none ids), (upsertAttempts_none (List.map EvEmbed _)); [lia| |].
    + apply forallb_forall. intros ev Hin. apply in_map_iff in Hin.
      destruct Hin as (b & <- & _). reflexivity.
    + eapply forallb_weaken; [|exact Hids]. intros ev ->. reflexivity.
  - exists k. split; [exact Hk|]. split; [|split; [exact Hfail | exact Hbefore]].
    rewrite Htr3, Htr2, !embedCalls_app, embedCalls_map, (embedCalls_ids ids Hids).
    now rewrite app_nil_r.
Qed.

(** C1, as the code has it. In a call whose earlier stages succeed,
    where at least one chunk has, at its position, a vector of
    exactly 384 components, and in whose own history no write batch
    exhausts its three attempts, the call succeeds; the points added
    to the collection are those of the chunks whose vector, at the
    same position, has exactly 384 components, in order; and
    chunksCount is the number of chunks that passed the length
    filter, whether or not their vector was dropped. *)
Theorem valid_vectors_committed_every_chunk_counted
        (dto : DocumentDto) (w : World) (chunks : list Document) (w1 : World)
        (documentId : JsString) (cs : list Chunk) (w2 : World)
        (vectors : list Vector) (w3 : World) :
  loadAndSplit toLowerCase env dto w = (Ok chunks, w1) ->
  buildChunks env (fileName dto) chunks w1 = (Ok (documentId, cs), w2) ->
  generateEmbeddings env (List.map chunk_text cs) w2 = (Ok vectors, w3) ->
  (exists i c v,
      nth_error cs i = Some c /\ nth_error vectors i = Some v /\
      List.length v = 384) ->
  (forall events,
      trace (snd (processDocument toLowerCase env dto w)) = trace w ++ events ->
      ~ ExhaustsAttempts events) ->
  exists resp w4,
    processDocument toLowerCase env dto w = (Ok resp, w4) /\
    collection w4 = collection w ++ List.map pointOf (validPairs cs vectors) /\
    Forall (fun p => List.length (vector p) = 384)
           (List.map pointOf (validPairs cs vectors)) /\
    chunksCount resp = List.length cs /\
    List.length cs = List.length (filter longEnough chunks) /\
    List.length (validPairs cs vectors) <= chunksCount resp.
Proof.
  intros Hload Hbuild Hembed Hvalid Hnone.
  assert (Hw1 : w1 = w).
  { rewrite <- (loadAndSplit_world toLowerCase env dto w). now rewrite Hload. }
  subst w1.
  assert (Hne : validPairs cs vectors <> []).
  { destruct Hvalid as (i & c & v & Hc & Hv & Hlen). intros Hnil.
    pose proof (validPairs_some cs vectors i c v Hc Hv Hlen) as Hin.
    now rewrite Hnil in Hin. }
  destruct (buildChunks_run (fileName dto) chunks w) as (ids & Htr2 & _ & Hc2 & Hcs).
  rewrite Hbuild in Htr2, Hc2, Hcs. cbn [fst snd] in *.
  destruct (Hcs documentId cs eq_refl) as (_ & Hlen & _).
  destruct (embedLoop_trace (List.map chunk_text cs)
              (List.length (List.map chunk_text cs)) 0 [] w2) as (embeds & Htr3 & _).
  pose proof (embedLoop_collection env (List.map chunk_text cs)
                (List.length (List.map chunk_text cs)) 0 [] w2) as Hc3.
  fold (generateEmbeddings env (List.map chunk_text cs) w2) in Htr3, Hc3.
  rewrite Hembed in Htr3, Hc3. cbn [snd] in Htr3, Hc3.
  set (data := validate cs vectors).
  assert (Hdata : data = List.map pointOf (validPairs cs vectors))
    by apply validate_validPairs.
  assert (Hproc : processDocument toLowerCase env dto w =
                  match insertPoints env data w3 with
                  | (Ok _, w4) =>
                      (Ok {| success := true; documentId := documentId;
                             chunksCount := List.length cs;
                             message := Some (js "Documento processado com sucesso!") |},
                       w4)
                  | (Err e, w4) => (Err e, w4)
                  end).
  { rewrite processDocument_stages, Hload, Hbuild. cbn [fst snd].
    rewrite Hembed. unfold storePoints. fold data.
    replace (List.length data =? 0) with false.
    - now destruct (insertPoints env data w3) as [[[]|e] w4].
    - symmetry. apply Nat.eqb_neq. rewrite Hdata, length_map.
      destruct (validPairs cs vectors); [contradiction | discriminate]. }
  destruct (insertLoop_run env data (List.length data) 0 w3)
    as (evs & committed & outcome & Hrun & Htr4 & Hc4 & Hres).
  fold (insertPoints env data w3) in Htr4, Hc4, Hres.
  assert (Hpos : 0 < 50) by lia.
  unfold BATCH_SIZE in Hrun. rewrite slicesFrom_all in Hrun by exact Hpos.
  assert (Htrace : trace (snd (processDocument toLowerCase env dto w))
                   = trace w ++ ids ++ embeds ++ evs).
  { rewrite Hproc.
    destruct (insertPoints env data w3) as [[[]|e] w4]; cbn [fst snd] in *;
      rewrite Htr4, Htr3, Htr2, <- !app_assoc; reflexivity. }
  destruct outcome as [e|].
  - exfalso. apply (Hnone _ Htrace).
    rewrite !app_assoc. apply ExhaustsAttempts_later.
    exact (WriteRun_exhausted _ _ _ _ Hrun).
  - pose proof (WriteRun_committed _ _ _ _ Hrun) as Hcommitted.
    cbn beta iota in Hcommitted. rewrite concat_batchesOf in Hcommitted by exact Hpos.
    destruct (insertPoints env data w3) as [[[]|e] w4] eqn:Hins;
      cbn [fst snd] in *; [|discriminate].
    eexists _, w4. split; [exact Hproc|].
    cbn [chunksCount]. split.
    { rewrite Hc4, Hc3, Hc2, Hcommitted, Hdata. reflexivity. }
    split.
    { apply Forall_map. eapply Forall_impl; [|apply validPairs_dimension].
      intros [c v] H. exact H. }
    split; [reflexivity|]. split; [exact Hlen|]. apply validPairs_length.
Qed.

End Runs.

(** The X1 theorem at the run with one bad vector. *)
Lemma success_has_committed_points_witness :
  exists resp w' added,
    Demo.run 0 = (Ok resp, w') /\
    collection w' = [] ++ added /\ List.length added = 1.
Proof.
  destruct (Demo.run 0) as [[resp|e] w'] eqn:Hrun; [|vm_compute in Hrun; discriminate].
  destruct (success_has_committed_points toLowerCaseAscii (Demo.env 0) Demo.dto
              Demo.emptyWorld resp w' Hrun) as (added & Hcoll & _).
  exists resp, w', added. split; [reflexivity|]. split; [exact Hcoll|].
  vm_compute in Hrun. injection Hrun as <- <-.
  apply (f_equal (@List.length Point)) in Hcoll. simpl in Hcoll. lia.
Defined.

(** The X2 theorem at sixty chunks and a store that accepts one
    upsert: the first batch of 50 stays, the second exhausts its
    attempts. *)
Lemma failure_leaves_whole_batches_witness :
  exists e w',
    processDocument toLowerCaseAscii (envManyChunks 60 1) Demo.dto Demo.emptyWorld
      = (Err e, w') /\
    List.length (collection w') = 50 /\
    List.length (acceptedBatches (trace w')) = 1.
Proof.
  destruct (processDocument toLowerCaseAscii (envManyChunks 60 1) Demo.dto
                            Demo.emptyWorld) as [[resp|e] w'] eqn:Hrun;
    [vm_compute in Hrun; discriminate|].
  destruct (failure_leaves_whole_batches toLowerCaseAscii (envManyChunks 60 1) Demo.dto
              Demo.emptyWorld e w' Hrun) as (events & Htrace & Hcoll & Hfull & _).
  assert (Hone : List.length (acceptedBatches (trace w')) = 1)
    by (vm_compute in Hrun; injection Hrun as _ <-; vm_compute; reflexivity).
  exists e, w'. split; [reflexivity|]. split; [|exact Hone].
  cbn [Demo.emptyWorld trace collection app] in Htrace, Hcoll.
  rewrite Hcoll. rewrite Htrace in Hone.
  destruct (acceptedBatches events) as [|batch [|batch' rest]]; try discriminate.
  inversion Hfull as [|b l Hbatch _]; subst.
  cbn [List.concat]. rewrite app_nil_r. exact Hbatch.
Defined.

Lemma demo_fresh_along (chunks successes : nat) (w : World) (events : list Event) :
  FreshAlong (envManyChunks chunks successes) w events.
Proof.
  intros k1 k2 H1 H2 Hne _ _ Heq. apply Hne.
  cbn [uuidv4 envManyChunks Demo.env] in Heq.
  apply app_inv_head in Heq. injection Heq as Heq. apply Nat2N.inj in Heq.
  unfold worldAt in Heq. cbn [trace] in Heq.
  rewrite !length_app, !length_firstn in Heq. lia.
Defined.

(** The X4 theorem at three chunks, all committed. *)
Lemma point_ids_never_repeat_witness :
  exists resp added,
    fst (processDocument toLowerCaseAscii (envManyChunks 3 9) Demo.dto Demo.emptyWorld)
      = Ok resp /\
    collection (snd (processDocument toLowerCaseAscii (envManyChunks 3 9) Demo.dto
                                     Demo.emptyWorld)) = added /\
    List.length added = 3 /\
    NoDup (List.map id added) /\
    ~ In (documentId resp) (List.map id added).
Proof.
  destruct (point_ids_never_repeat toLowerCaseAscii (envManyChunks 3 9) Demo.dto
              Demo.emptyWorld
              (trace (snd (processDocument toLowerCaseAscii (envManyChunks 3 9)
                                           Demo.dto Demo.emptyWorld)))
              eq_refl (demo_fresh_along 3 9 _ _))
    as (added & Hcoll & Hnodup & Hdoc).
  destruct (fst (processDocument toLowerCaseAscii (envManyChunks 3 9) Demo.dto
                                 Demo.emptyWorld)) as [resp|e] eqn:Hfst;
    [|vm_compute in Hfst; discriminate].
  exists resp, added. split; [reflexivity|]. split; [exact Hcoll|].
  split; [|split; [exact Hnodup | exact (Hdoc resp eq_refl)]].
  apply (f_equal (@List.length Point)) in Hcoll. vm_compute in Hcoll.
  now symmetry.
Defined.

(** The X7 theorem with an embedding model that is down: the call
    fails with the model's error. *)
Lemma embedding_failure_writes_nothing_witness :
  exists w3,
    processDocument toLowerCaseAscii (envEmbedFailingAt 0) Demo.dto Demo.emptyWorld
      = (Err (Thrown (js "model unavailable")), w3) /\
    collection w3 = [] /\ upsertAttempts (trace w3) = 0.
Proof.
  destruct (loadAndSplit toLowerCaseAscii (envEmbedFailingAt 0) Demo.dto Demo.emptyWorld)
    as [[chunks|e] w1] eqn:Hload; [|vm_compute in Hload; discriminate].
  assert (Hw1 : w1 = Demo.emptyWorld)
    by (vm_compute in Hload; now injection Hload as _ <-).
  subst w1.
  destruct (buildChunks (envEmbedFailingAt 0) (fileName Demo.dto) chunks Demo.emptyWorld)
    as [[built|e] w2] eqn:Hbuild;
    [|vm_compute in Hload; injection Hload as <-; vm_compute in Hbuild; discriminate].
  destruct (generateEmbeddings (envEmbedFailingAt 0) (List.map chunk_text (snd built)) w2)
    as [[vectors|e] w3] eqn:Hembed;
    [vm_compute in Hload; injection Hload as <-;
     vm_compute in Hbuild; injection Hbuild as <- <-;
     vm_compute in Hembed; discriminate|].
  destruct (embedding_failure_writes_nothing toLowerCaseAscii (envEmbedFailingAt 0)
              Demo.dto Demo.emptyWorld chunks built w2 e w3 Hload Hbuild Hembed)
    as (Hrun & Hcoll & Hattempts & k & _ & _ & Hfail & _).
  cbn [embedDocuments envEmbedFailingAt] in Hfail.
  replace (_ <? 0) with false in Hfail by (symmetry; apply Nat.ltb_ge; lia).
  injection Hfail as <-.
  exists w3. auto.
Defined.

(** The C1 theorem at a store that accepts one upsert and would
    reject every later one: two chunks, one vector of 256 components,
    one point committed at the first attempt. *)
Lemma valid_vectors_committed_every_chunk_counted_witness :
  exists resp w4,
    processDocument toLowerCaseAscii (Demo.envFailingAfter 1) Demo.dto Demo.emptyWorld
      = (Ok resp, w4) /\
    List.length (collection w4) = 1 /\
    chunksCount resp = 2.
Proof.
  destruct (loadAndSplit toLowerCaseAscii (Demo.envFailingAfter 1) Demo.dto
                         Demo.emptyWorld)
    as [[chunks|e] w1] eqn:Hload; [|vm_compute in Hload; discriminate].
  destruct (buildChunks (Demo.envFailingAfter 1) (fileName Demo.dto) chunks w1)
    as [[[documentId cs]|e] w2] eqn:Hbuild;
    [|vm_compute in Hload; injection Hload as <- <-;
      vm_compute in Hbuild; discriminate].
  destruct (generateEmbeddings (Demo.envFailingAfter 1) (List.map chunk_text cs) w2)
    as [[vectors|e] w3] eqn:Hembed;
    [|vm_compute in Hload; injection Hload as <- <-;
      vm_compute in Hbuild; injection Hbuild as <- <- <-;
      vm_compute in Hembed; discriminate].
  destruct (valid_vectors_committed_every_chunk_counted
              toLowerCaseAscii (Demo.envFailingAfter 1) Demo.dto Demo.emptyWorld
              chunks w1 documentId cs w2 vectors w3 Hload Hbuild Hembed)
    as (resp & w4 & Hrun & Hcoll & _ & Hcount & _).
  - vm_compute in Hload. injection Hload as <- <-.
    vm_compute in Hbuild. injection Hbuild as <- <- <-.
    vm_compute in Hembed. injection Hembed as <- <-.
    exists 0. eexists. eexists. split; [reflexivity|]. split; reflexivity.
  - intros events Hevents Hexhausted.
    apply ExhaustsAttempts_three_upserts in Hexhausted.
    cbn [Demo.emptyWorld trace app] in Hevents. rewrite <- Hevents in Hexhausted.
    vm_compute in Hexhausted. lia.
  - exists resp, w4. split; [exact Hrun|].
    vm_compute in Hload. injection Hload as <- <-.
    vm_compute in Hbuild. injection Hbuild as <- <- <-.
    vm_compute in Hembed. injection Hembed as <- <-.
    split; [rewrite Hcoll; reflexivity | rewrite Hcount; reflexivity].
Defined.

(** The first vector is the bad one: the only point added has
    chunkIndex 1. *)
Example committed_indices_may_skip :
  List.map chunkIndexOf
    (collection (snd (processDocument toLowerCaseAscii envFirstVectorBad Demo.dto
                                      Demo.emptyWorld))) = [Some 1%Z].
Proof. vm_compute. reflexivity. Qed.

End IngestionRuns.

(* ================================================================= *)
(** ** Content extractor: the shape of the cleaned text *)

Module CleanText.
Import Scraper SpecTerms Observations JSFacts ScraperFacts IngestionRuns.

(** *** Spaces *)

Lemma isBlank_not_LF (c : N) : isBlank c = true -> (c =? LF)%N = false.
Proof.
  unfold isBlank, LF. intros H. apply orb_true_iff in H.
  destruct H as [H | H]; apply N.eqb_eq in H; subst; reflexivity.
Qed.

Lemma collapseSpaces_not_blank (c : N) (s : JsString) :
  isBlank c = false -> collapseSpaces (c :: s) = c :: collapseSpaces s.
Proof. intros H. simpl. now rewrite H. Qed.

Lemma collapseSpaces_singleSpaced (s : JsString) :
  singleSpaced (collapseSpaces s) = true.
Proof.
  induction s as [|c s IH]; [reflexivity|].
  cbn [collapseSpaces]. destruct (isBlank c) eqn:Hc.
  - destruct s as [|d s]; [reflexivity|].
    destruct (isBlank d) eqn:Hd; [exact IH|].
    rewrite (collapseSpaces_not_blank d s Hd) in *.
    cbn [singleSpaced] in *. rewrite IH.
    unfold isBlank in Hd. apply orb_false_iff in Hd. destruct Hd as [Hd _].
    now rewrite Hd.
  - cbn [singleSpaced]. rewrite IH.
    unfold isBlank in Hc. apply orb_false_iff in Hc. destruct Hc as [H32 H9].
    now rewrite H32, H9.
Qed.

Lemma singleSpaced_app (a b : JsString) :
  singleSpaced (a ++ b) = true -> singleSpaced a = true /\ singleSpaced b = true.
Proof.
  induction a as [|c a IH]; [auto|].
  cbn [app singleSpaced]. intros H.
  apply andb_true_iff in H. destruct H as [H Hrest].
  apply andb_true_iff in H. destruct H as [H9 H32].
  destruct (IH Hrest) as [Ha Hb]. split; [|exact Hb].
  rewrite H9, Ha, andb_true_r. cbn [andb].
  destruct a as [|d a]; [now rewrite andb_false_r|exact H32].
Qed.

Lemma singleSpaced_no_tab (s : JsString) :
  singleSpaced s = true -> ~ In 9%N s.
Proof.
  induction s as [|c s IH]; [auto|]. cbn [singleSpaced]. intros H.
  apply andb_true_iff in H. destruct H as [H Hrest].
  apply andb_true_iff in H. destruct H as [H9 _].
  intros [-> | Hin]; [discriminate | now apply IH].
Qed.

Lemma singleSpaced_no_double (s : JsString) :
  singleSpaced s = true -> ~ Contains s [32%N; 32%N].
Proof.
  intros H (before & after & Hs). subst s.
  apply singleSpaced_app in H. destruct H as [_ H]. discriminate.
Qed.

(** [trim] cuts white space off both ends and nothing else. *)
Lemma trim_infix (s : JsString) :
  exists before after, s = before ++ trim s ++ after.
Proof.
  unfold trim.
  destruct (trimStart_suffix s) as (before & Hs & _).
  destruct (trimEnd_prefix (trimStart s)) as (after & Ht & _).
  exists before, after. now rewrite <- Ht.
Qed.

(** *** Line feeds *)

Lemma runs_mono (k k' : nat) (s : JsString) :
  k <= k' -> lineFeedRunsAtMostTwo k' s = true -> lineFeedRunsAtMostTwo k s = true.
Proof.
  revert k k'. induction s as [|c s IH]; intros k k' Hk; [auto|].
  cbn [lineFeedRunsAtMostTwo]. destruct (c =? LF)%N; [|auto].
  intros H. apply andb_true_iff in H. destruct H as [H2 Hs].
  apply Nat.ltb_lt in H2. rewrite (IH (S k) (S k')) by (lia || assumption).
  rewrite andb_true_r. apply Nat.ltb_lt. lia.
Qed.

Lemma runs_any (k : nat) (s : JsString) :
  headNotLF s -> lineFeedRunsAtMostTwo 0 s = true -> lineFeedRunsAtMostTwo k s = true.
Proof.
  destruct s as [|c s]; [auto|]. intros H. cbn [lineFeedRunsAtMostTwo].
  now rewrite (H c s eq_refl).
Qed.

Lemma collapse_head (fuel : nat) (s : JsString) :
  headNotLF s -> headNotLF (collapseBlankLinesFrom fuel s).
Proof.
  intros H. destruct fuel as [|fuel]; [exact H|].
  destruct s as [|c s]; [exact H|].
  cbn [collapseBlankLinesFrom]. rewrite (H c s eq_refl).
  intros d rest Hd. injection Hd as <- _. exact (H c s eq_refl).
Qed.

Lemma span_fst_all (p : N -> bool) (s : JsString) :
  Forall (fun c => p c = true) (fst (span p s)).
Proof.
  induction s as [|c s IH]; simpl; [constructor|].
  destruct (p c) eqn:Hc; [|constructor].
  destruct (span p s) as [a b]. simpl in *. now constructor.
Qed.

Lemma span_snd_head (p : N -> bool) (s : JsString) (c : N) (rest : JsString) :
  snd (span p s) = c :: rest -> p c = false.
Proof.
  induction s as [|d s IH]; simpl; [discriminate|].
  destruct (p d) eqn:Hd.
  - destruct (span p s) as [a b]. simpl in *. exact IH.
  - simpl. intros H. now injection H as <- _.
Qed.

Lemma after_match_head (run rest : JsString) (s : JsString) :
  span isWhiteSpace s = (run, rest) -> headNotLF (afterLastLF run ++ rest).
Proof.
  intros Hspan c t Ht. unfold afterLastLF in Ht.
  pose proof (span_fst_all (fun c => negb (c =? LF)%N) (rev run)) as Hall.
  apply Forall_rev in Hall.
  destruct (rev (fst (span (fun c => negb (c =? LF)%N) (rev run)))) as [|d l].
  - simpl in Ht. assert (Hrest : snd (span isWhiteSpace s) = c :: t)
      by (rewrite Hspan; exact Ht).
    apply span_snd_head in Hrest.
    destruct (c =? LF)%N eqn:Hc; [|reflexivity].
    apply N.eqb_eq in Hc. subst c. discriminate.
  - simpl in Ht. injection Ht as <- _. inversion Hall; subst.
    now apply negb_true_iff.
Qed.

Lemma countLF_head (s : JsString) :
  countLF (fst (span isWhiteSpace s)) = 0 -> headNotLF s.
Proof.
  intros H c rest ->. simpl in H.
  destruct (c =? LF)%N eqn:Hc; [|reflexivity].
  apply N.eqb_eq in Hc. subst c. cbn in H.
  destruct (span isWhiteSpace rest). cbn in H. discriminate.
Qed.

(** After [collapseBlankLines] no run of line feeds is longer than two. *)
Lemma collapse_runs (fuel : nat) (s : JsString) :
  List.length s <= fuel ->
  lineFeedRunsAtMostTwo 0 (collapseBlankLinesFrom fuel s) = true /\
  (countLF (fst (span isWhiteSpace s)) <= 1 ->
   lineFeedRunsAtMostTwo 1 (collapseBlankLinesFrom fuel s) = true).
Proof.
  revert s. induction fuel as [|fuel IH]; intros [|c s] Hlen; simpl in Hlen;
    try lia; try (split; reflexivity).
  cbn [collapseBlankLinesFrom].
  pose proof (span_length isWhiteSpace s) as Hspan.
  pose proof (afterLastLF_length (fst (span isWhiteSpace s))) as Hafter.
  destruct (c =? LF)%N eqn:Hc.
  - apply N.eqb_eq in Hc. subst c.
    assert (Hrun : fst (span isWhiteSpace (LF :: s)) = LF :: fst (span isWhiteSpace s)).
    { cbn. now destruct (span isWhiteSpace s). }
    rewrite Hrun.
    destruct (span isWhiteSpace s) as [run rest] eqn:Hs. cbn [fst snd] in *.
    destruct (2 <=? countLF run) eqn:Hcount.
    + apply Nat.leb_le in Hcount.
      assert (Ht : List.length (afterLastLF run ++ rest) <= fuel)
        by (rewrite length_app; lia).
      destruct (IH _ Ht) as [H0 _].
      pose proof (collapse_head fuel _ (after_match_head run rest s Hs)) as Hhead.
      split.
      * cbn [lineFeedRunsAtMostTwo]. rewrite N.eqb_refl. cbn.
        now apply runs_any.
      * unfold countLF in *. cbn [count_occ]. destruct (N.eq_dec LF LF); [lia|tauto].
    + apply Nat.leb_gt in Hcount.
      destruct (IH s ltac:(lia)) as [H0 H1]. rewrite Hs in H1. cbn [fst] in H1.
      split.
      * cbn [lineFeedRunsAtMostTwo]. rewrite N.eqb_refl. cbn. apply H1. lia.
      * intros Hle. unfold countLF in Hle. cbn [count_occ] in Hle.
        destruct (N.eq_dec LF LF); [|tauto].
        cbn [lineFeedRunsAtMostTwo]. rewrite N.eqb_refl. cbn.
        apply runs_any; [|exact H0].
        apply collapse_head. apply countLF_head. rewrite Hs. cbn [fst].
        unfold countLF. lia.
  - destruct (IH s ltac:(lia)) as [H0 _].
    cbn [lineFeedRunsAtMostTwo]. rewrite Hc. auto.
Qed.

Lemma collapseSpaces_runs (s : JsString) (k : nat) :
  lineFeedRunsAtMostTwo k s = true ->
  lineFeedRunsAtMostTwo k (collapseSpaces s) = true.
Proof.
  revert k. induction s as [|c s IH]; intros k; [auto|].
  cbn [collapseSpaces]. destruct (isBlank c) eqn:Hc.
  - pose proof (isBlank_not_LF c Hc) as Hlf.
    cbn [lineFeedRunsAtMostTwo]. rewrite Hlf. intros H.
    destruct s as [|d s]; [reflexivity|].
    destruct (isBlank d) eqn:Hd.
    + apply IH. apply runs_any; [|exact H].
      intros x rest Hx. injection Hx as <- _. now apply isBlank_not_LF.
    + cbn [lineFeedRunsAtMostTwo]. cbn. now apply IH.
  - cbn [lineFeedRunsAtMostTwo]. destruct (c =? LF)%N.
    + intros H. apply andb_true_iff in H. destruct H as [H2 Hs].
      now rewrite H2, IH.
    + apply IH.
Qed.

Lemma runs_app (a b : JsString) (k : nat) :
  lineFeedRunsAtMostTwo k (a ++ b) = true ->
  lineFeedRunsAtMostTwo k a = true /\ lineFeedRunsAtMostTwo 0 b = true.
Proof.
  revert k. induction a as [|c a IH]; intros k H.
  - split; [reflexivity|]. apply (runs_mono 0 k); [lia | exact H].
  - cbn [app lineFeedRunsAtMostTwo] in *. destruct (c =? LF)%N.
    + apply andb_true_iff in H. destruct H as [H2 Hs].
      destruct (IH _ Hs) as [Ha Hb]. now rewrite H2, Ha.
    + now apply IH.
Qed.

Lemma runs_no_triple (s : JsString) (k : nat) :
  lineFeedRunsAtMostTwo k s = true -> ~ Contains s [LF; LF; LF].
Proof.
  intros H (before & after & Hs). subst s.
  apply runs_app in H. destruct H as [_ H]. discriminate.
Qed.

(** *** Lengths *)

Lemma collapseSpaces_length (s : JsString) :
  List.length (collapseSpaces s) <= List.length s.
Proof.
  induction s as [|c s IH]; [auto|]. cbn [collapseSpaces].
  destruct (isBlank c).
  - destruct s as [|d s]; [auto|]. destruct (isBlank d); simpl in *; lia.
  - simpl. lia.
Qed.

Lemma afterLastLF_short (run : JsString) :
  2 <= countLF run -> List.length (afterLastLF run) + 2 <= List.length run.
Proof.
  intros H. unfold afterLastLF. rewrite length_rev.
  pose proof (span_app (fun c => negb (c =? LF)%N) (rev run)) as Happ.
  pose proof (span_fst_all (fun c => negb (c =? LF)%N) (rev run)) as Hall.
  set (a := fst (span (fun c => negb (c =? LF)%N) (rev run))) in *.
  set (b := snd (span (fun c => negb (c =? LF)%N) (rev run))) in *.
  assert (Ha : countLF a = 0).
  { unfold countLF. apply count_occ_not_In. intros Hin.
    rewrite Forall_forall in Hall. specialize (Hall _ Hin).
    unfold LF in Hall. discriminate. }
  assert (Hb : countLF b = countLF run).
  { unfold countLF in *. rewrite <- (count_occ_rev N.eq_dec run), Happ, count_occ_app.
    fold a b. lia. }
  pose proof (count_occ_bound N.eq_dec LF b) as Hbound. unfold countLF in *.
  rewrite <- (length_rev run), Happ, length_app. fold a b. lia.
Qed.

Lemma collapseBlankLinesFrom_length (fuel : nat) (s : JsString) :
  List.length (collapseBlankLinesFrom fuel s) <= List.length s.
Proof.
  revert s. induction fuel as [|fuel IH]; intros [|c s]; cbn [collapseBlankLinesFrom];
    try lia.
  pose proof (span_length isWhiteSpace s) as Hspan.
  destruct (span isWhiteSpace s) as [run rest]. cbn [fst snd] in Hspan.
  destruct (c =? LF)%N; [destruct (2 <=? countLF run) eqn:Hcount|].
  - apply Nat.leb_le in Hcount. apply afterLastLF_short in Hcount.
    specialize (IH (afterLastLF run ++ rest)). rewrite length_app in IH.
    simpl. lia.
  - specialize (IH s). simpl. lia.
  - specialize (IH s). simpl. lia.
Qed.

Lemma trim_length (s : JsString) : List.length (trim s) <= List.length s.
Proof.
  destruct (trim_infix s) as (before & after & Hs).
  rewrite Hs at 2. rewrite !length_app. lia.
Qed.

Lemma all_whitespace_trims_to_nothing [s : JsString] :
  Forall (fun c => isWhiteSpace c = true) s -> trim s = [].
Proof.
  intros H. unfold trim.
  assert (Hs : trimStart s = []).
  { induction H as [|c s Hc Hs IH]; simpl; [reflexivity|]. now rewrite Hc. }
  now rewrite Hs.
Qed.

(** *** Theorems *)

(** X8. The cleaned text holds no tab and no two spaces in a row,
    and neither starts nor ends with white space; so does the content
    of everything a scraper returns. *)
Theorem cleaned_text_is_single_spaced_and_trimmed :
  (forall text,
      ~ In 9%N (cleanText text) /\
      ~ Contains (cleanText text) [32%N; 32%N] /\
      (forall c rest, cleanText text = c :: rest -> isWhiteSpace c = false) /\
      (forall front c, cleanText text = front ++ [c] -> isWhiteSpace c = false)) /\
  (forall L engine url r,
      scrape (createScraper L engine) url = Ok r ->
      ~ In 9%N (content r) /\
      ~ Contains (content r) [32%N; 32%N] /\
      (forall c rest, content r = c :: rest -> isWhiteSpace c = false) /\
      (forall front c, content r = front ++ [c] -> isWhiteSpace c = false)).
Proof.
  assert (Hclean : forall text,
      ~ In 9%N (cleanText text) /\
      ~ Contains (cleanText text) [32%N; 32%N] /\
      (forall c rest, cleanText text = c :: rest -> isWhiteSpace c = false) /\
      (forall front c, cleanText text = front ++ [c] -> isWhiteSpace c = false)).
  { intros text. unfold cleanText.
    set (t := collapseSpaces (collapseBlankLines text)).
    assert (Hs : singleSpaced (trim t) = true).
    { destruct (trim_infix t) as (before & after & Ht).
      pose proof (collapseSpaces_singleSpaced (collapseBlankLines text)) as H.
      fold t in H. rewrite Ht in H.
      apply singleSpaced_app in H. destruct H as [_ H].
      now apply singleSpaced_app in H. }
    split; [now apply singleSpaced_no_tab|].
    split; [now apply singleSpaced_no_double|]. apply trim_ends. }
  split; [exact Hclean|].
  intros L engine url r Hr.
  assert (Hraw : exists raw, content r = cleanText raw).
  { destruct engine; simpl in Hr.
    - unfold cheerioScrape, cheerioTry in Hr.
      destruct (axios_get L url) as [status data|message code response request|message].
      + destruct (negb (status =? 200)%Z); [discriminate|].
        destruct (JS.length _ <? 100); [discriminate|].
        injection Hr as <-. eexists. reflexivity.
      + destruct (match code with Some c => eqb c _ | None => false end);
          [discriminate|]. destruct response; [discriminate|].
        destruct request; discriminate.
      + discriminate.
    - unfold playwrightScrape, playwrightTry in Hr.
      destruct (playwright_load L url) as [[|pageContent others]|e]; try discriminate.
      destruct (JSON_parse L pageContent) as [data|e]; try discriminate.
      destruct (JS.length _ <? 100); [discriminate|].
      injection Hr as <-. eexists. reflexivity. }
  destruct Hraw as (raw & ->). apply Hclean.
Qed.

(** X9. The cleaned text never holds three line feeds in a row. *)
Theorem cleaned_text_has_no_three_line_feeds (text : JsString) :
  ~ Contains (collapseBlankLines text) [LF; LF; LF] /\
  ~ Contains (cleanText text) [LF; LF; LF].
Proof.
  destruct (collapse_runs (List.length text) text (Nat.le_refl _)) as [H _].
  fold (collapseBlankLines text) in H.
  split; [exact (runs_no_triple _ _ H)|].
  unfold cleanText. apply collapseSpaces_runs in H.
  destruct (trim_infix (collapseSpaces (collapseBlankLines text)))
    as (before & after & Ht).
  rewrite Ht in H. apply runs_app in H. destruct H as [_ H].
  apply runs_app in H. destruct H as [H _].
  exact (runs_no_triple _ _ H).
Qed.

(** X10. Cleaning never lengthens a text. So a scrape that succeeds
    had at least 100 code units before cleaning: the text of the page
    under Playwright, the converted main content under Cheerio. *)
Theorem cleaning_never_lengthens :
  (forall text, JS.length (cleanText text) <= JS.length text) /\
  (forall L url r,
      playwrightScrape L url = Ok r ->
      exists pageContent others data,
        playwright_load L url = Ok (pageContent :: others) /\
        JSON_parse L pageContent = Ok data /\
        100 <= JS.length (pd_content data)) /\
  (forall L url r,
      cheerioScrape L url = Ok r ->
      exists data,
        axios_get L url = AxiosResponse 200 data /\
        100 <= JS.length
                 (convert L (extractMainContent L
                    (fold_left (remove L) UNWANTED_SELECTORS (cheerio_load L data))))).
Proof.
  assert (Hlen : forall text, JS.length (cleanText text) <= JS.length text).
  { intros text. unfold cleanText, JS.length.
    pose proof (trim_length (collapseSpaces (collapseBlankLines text))).
    pose proof (collapseSpaces_length (collapseBlankLines text)).
    pose proof (collapseBlankLinesFrom_length (List.length text) text).
    unfold collapseBlankLines in *. lia. }
  split; [exact Hlen|]. split.
  - intros L url r Hr. unfold playwrightScrape, playwrightTry in Hr.
    destruct (playwright_load L url) as [[|pageContent others]|e]; try discriminate.
    destruct (JSON_parse L pageContent) as [data|e] eqn:Hparse; try discriminate.
    destruct (JS.length (cleanText (pd_content data)) <? 100) eqn:Hgate; [discriminate|].
    apply Nat.ltb_ge in Hgate. exists pageContent, others, data.
    repeat split; trivial. specialize (Hlen (pd_content data)). lia.
  - intros L url r Hr. unfold cheerioScrape, cheerioTry in Hr.
    destruct (axios_get L url) as [status data|message code response request|message].
    + destruct (status =? 200)%Z eqn:Hst; [|discriminate]. cbn [negb] in Hr.
      apply Z.eqb_eq in Hst. subst status.
      unfold htmlToCleanText in Hr.
      destruct (JS.length (cleanText _) <? 100) eqn:Hgate; [discriminate|].
      apply Nat.ltb_ge in Hgate. exists data. split; [reflexivity|].
      match type of Hgate with
      | 100 <= JS.length (cleanText ?t) => specialize (Hlen t)
      end. lia.
    + destruct (match code with Some c => eqb c _ | None => false end);
        [discriminate|]. destruct response; [discriminate|].
      destruct request; discriminate.
    + discriminate.
Qed.

(** X11. The error of a failed scrape tells the engine that ran: a
    Playwright failure is always wrapped as such, with its cause, and
    a Cheerio failure is a timeout, an HTTP error, a network failure
    or a wrapped cause, each about the requested URL. *)
Theorem scrape_error_names_the_engine (L : Libs) (toLowerCase : JsString -> JsString)
        (url : JsString) (hint : option ScraperEngine) (e : Error) :
  scrapeUrl L toLowerCase url hint = Err e ->
  match selectedEngine toLowerCase url hint with
  | playwright => exists cause, e = PlaywrightScrapeFailed cause
  | cheerio =>
      e = AxiosTimeout url \/
      (exists status, e = AxiosHttpError status url) \/
      e = AxiosNetworkFailure url \/
      (exists cause, e = CheerioScrapeFailed cause)
  end.
Proof.
  unfold scrapeUrl. destruct (selectedEngine toLowerCase url hint); simpl.
  - unfold cheerioScrape.
    destruct (axios_get L url) as [status data|message code response request|message].
    + destruct (cheerioTry L url status data); [discriminate|].
      intros H. injection H as <-. eauto 6.
    + destruct (match code with Some c => eqb c _ | None => false end).
      * intros H. injection H as <-. auto.
      * destruct response as [status|].
        -- intros H. injection H as <-. eauto.
        -- destruct request; intros H; injection H as <-; eauto 6.
    + intros H. injection H as <-. eauto 6.
  - unfold playwrightScrape. destruct (playwrightTry L url); [discriminate|].
    intros H. injection H as <-. eauto.
Qed.

(** X12. The title is null exactly when none of the three candidates
    is a non-empty string; and when the first non-empty candidate is
    white space only, the title is the empty string: no later
    candidate is looked at. *)
Theorem title_is_null_or_of_first_candidate (L : Libs) (dom : Dom L) :
  let candidates := [ attr L dom sel_og_title (js "content");
                      Some (text L dom (js "title"));
                      Some (first_text L dom (js "h1")) ] in
  (extractTitle L dom = None <-> firstPresent candidates = None) /\
  (forall chosen,
      firstPresent candidates = Some chosen ->
      Forall (fun c => isWhiteSpace c = true) chosen ->
      extractTitle L dom = Some []).
Proof.
  cbv zeta. unfold extractTitle.
  destruct (attr L dom sel_og_title (js "content")) as [[|c s]|];
    destruct (text L dom (js "title")) as [|c1 s1];
    destruct (first_text L dom (js "h1")) as [|c2 s2];
    cbn [firstPresent orNull truthy];
    (split; [split; intros H; (reflexivity || discriminate)|]);
    intros chosen H Hws; try discriminate; injection H as <-;
    now rewrite (all_whitespace_trims_to_nothing Hws).
Qed.

(** X13. The main content is the html of the first selector of the
    list whose first element has html that is not blank; when there is
    such a selector the main content is not blank. *)
Theorem main_content_is_first_non_blank (L : Libs) (dom : Dom L) :
  (forall h,
      firstContent L dom CONTENT_SELECTORS = Some h <->
      exists earlier selector later,
        CONTENT_SELECTORS = earlier ++ selector :: later /\
        first_html L dom selector = Some (Some h) /\
        trim h <> [] /\
        Forall (fun s => forall h', first_html L dom s = Some (Some h') -> trim h' = [])
               earlier) /\
  (forall selector h,
      In selector CONTENT_SELECTORS ->
      first_html L dom selector = Some (Some h) -> trim h <> [] ->
      trim (extractMainContent L dom) <> []).
Proof.
  assert (Hgate : forall h, (0 <? JS.length (trim h)) = true <-> trim h <> []).
  { intros h. unfold JS.length. destruct (trim h); simpl; split;
      intros; congruence || discriminate || reflexivity. }
  assert (Hfirst : forall selectors h,
      firstContent L dom selectors = Some h <->
      exists earlier selector later,
        selectors = earlier ++ selector :: later /\
        first_html L dom selector = Some (Some h) /\
        trim h <> [] /\
        Forall (fun s => forall h', first_html L dom s = Some (Some h') -> trim h' = [])
               earlier).
  { induction selectors as [|sel rest IH]; intros h.
    - simpl. split; [discriminate|]. intros (earlier & selector & later & H & _).
      destruct earlier; discriminate.
    - cbn [firstContent].
      assert (Hskip : (forall h', first_html L dom sel = Some (Some h') -> trim h' = []) ->
                      (firstContent L dom rest = Some h <->
                       exists earlier selector later,
                         sel :: rest = earlier ++ selector :: later /\
                         first_html L dom selector = Some (Some h) /\
                         trim h <> [] /\
                         Forall (fun s => forall h', first_html L dom s = Some (Some h') ->
                                                     trim h' = []) earlier)).
      { intros Hblank. rewrite IH. split.
        - intros (earlier & selector & later & -> & Hh & Hne & Hall).
          exists (sel :: earlier), selector, later. repeat split; trivial.
          now constructor.
        - intros (earlier & selector & later & Heq & Hh & Hne & Hall).
          destruct earlier as [|s0 earlier].
          + injection Heq as <- <-. now rewrite (Hblank h Hh) in Hne.
          + injection Heq as <- ->. inversion Hall; subst.
            now exists earlier, selector, later. }
      destruct (first_html L dom sel) as [[h0|]|] eqn:Hsel;
        try (apply Hskip; intros h' H'; discriminate).
      destruct (0 <? JS.length (trim h0)) eqn:Hg.
      + apply Hgate in Hg. split.
        * intros H. injection H as <-. exists [], sel, rest. repeat split; trivial.
        * intros (earlier & selector & later & Heq & Hh & Hne & Hall).
          destruct earlier as [|s0 earlier].
          -- injection Heq as <- <-. congruence.
          -- injection Heq as <- ->. inversion Hall as [|x l Hb Hl]; subst.
             now rewrite (Hb h0 Hsel) in Hg.
      + apply Hskip. intros h' H'. injection H' as <-.
        destruct (trim h0) eqn:Ht; [reflexivity|].
        assert (trim h0 <> []) by (rewrite Ht; discriminate).
        apply Hgate in H. rewrite Ht in H. congruence. }
  split; [intros h; apply Hfirst|].
  intros selector h Hin Hh Hne.
  assert (Hsome : exists h1, firstContent L dom CONTENT_SELECTORS = Some h1 /\ trim h1 <> []).
  { clear Hfirst. induction CONTENT_SELECTORS as [|sel rest IH]; [contradiction|].
    cbn [firstContent]. destruct Hin as [-> | Hin].
    - rewrite Hh. rewrite (proj2 (Hgate h) Hne). eauto.
    - destruct (first_html L dom sel) as [[h0|]|]; auto.
      destruct (0 <? JS.length (trim h0)) eqn:Hg; auto.
      apply Hgate in Hg. eauto. }
  destruct Hsome as (h1 & Hh1 & Hne1). unfold extractMainContent. now rewrite Hh1.
Qed.

(** The X11 theorem at a page of three words. *)
Lemma scrape_error_names_the_engine_witness :
  exists cause,
    scrapeUrl (Demo.libs (AxiosResponse 200 Demo.shortPage) Demo.shortPage)
              toLowerCaseAscii (js "https://example.org/") (Some playwright)
    = Err (PlaywrightScrapeFailed cause).
Proof.
  destruct (scrapeUrl (Demo.libs (AxiosResponse 200 Demo.shortPage) Demo.shortPage)
              toLowerCaseAscii (js "https://example.org/") (Some playwright))
    as [r|e] eqn:Hrun; [vm_compute in Hrun; discriminate|].
  destruct (scrape_error_names_the_engine _ _ _ _ _ Hrun) as (cause & ->).
  now exists cause.
Defined.

Lemma cleaned_text_is_single_spaced_and_trimmed_witness :
  exists r,
    scrape (createScraper (Demo.libs (AxiosResponse 200 Demo.longPage) Demo.longPage)
                          cheerio) (js "https://example.org/") = Ok r /\
    ~ In 9%N (content r) /\ ~ Contains (content r) [32%N; 32%N].
Proof.
  destruct (scrape (createScraper
                      (Demo.libs (AxiosResponse 200 Demo.longPage) Demo.longPage)
                      cheerio) (js "https://example.org/")) as [r|e] eqn:Hrun;
    [|vm_compute in Hrun; discriminate].
  exists r. split; [reflexivity|].
  destruct (proj2 cleaned_text_is_single_spaced_and_trimmed _ _ _ _ Hrun)
    as (Htab & Hdouble & _).
  split; assumption.
Defined.

Lemma cleaning_never_lengthens_witness :
  exists r data,
    cheerioScrape (Demo.libs (AxiosResponse 200 Demo.longPage) Demo.longPage)
                  (js "https://example.org/") = Ok r /\
    100 <= JS.length data.
Proof.
  destruct (cheerioScrape (Demo.libs (AxiosResponse 200 Demo.longPage) Demo.longPage)
                          (js "https://example.org/")) as [r|e] eqn:Hrun;
    [|vm_compute in Hrun; discriminate].
  destruct (proj2 (proj2 cleaning_never_lengthens) _ _ _ Hrun) as (data & Hget & Hlen).
  exists r, data. split; [reflexivity|].
  injection Hget as <-. exact Hlen.
Defined.

Lemma title_is_null_or_of_first_candidate_witness :
  extractTitle (libsWithTitles (Some (js "   ")) (js "Title tag") (js "Heading"))
               (js "<html>") = Some [].
Proof.
  apply (proj2 (title_is_null_or_of_first_candidate
                  (libsWithTitles (Some (js "   ")) (js "Title tag") (js "Heading"))
                  (js "<html>")) (js "   ")).
  - reflexivity.
  - repeat constructor.
Defined.

Lemma main_content_is_first_non_blank_witness :
  trim (extractMainContent
          (Demo.libs (AxiosResponse 200 Demo.longPage) Demo.longPage) Demo.longPage)
  <> [].
Proof.
  apply (proj2 (main_content_is_first_non_blank
                  (Demo.libs (AxiosResponse 200 Demo.longPage) Demo.longPage)
                  Demo.longPage) (js "body") Demo.longPage).
  - unfold CONTENT_SELECTORS. do 8 right. left. reflexivity.
  - reflexivity.
  - vm_compute. discriminate.
Defined.

Example long_page_is_returned :
  match cheerioScrape (Demo.libs (AxiosResponse 200 Demo.longPage) Demo.longPage)
                      (js "https://example.org/") with
  | Ok r => content r = Demo.longPage
  | Err _ => False
  end.
Proof. vm_compute. reflexivity. Qed.

End CleanText.

(* ================================================================= *)
(** ** Loader bodies and URL ingestion *)

Module UrlIngestion.
Import Loaders Scraper Ingestion SpecTerms Observations LoaderBodies UrlService.
Import JSFacts ScraperFacts IngestionFacts IngestionRuns CleanText.

(** What every scraper's success went through. *)
Lemma scrape_success (L : Libs) (engine : ScraperEngine) (url : JsString)
      (r : ScrapedContent) :
  scrape (createScraper L engine) url = Ok r ->
  (exists raw, content r = cleanText raw) /\ 100 <= JS.length (content r).
Proof.
  intros Hr. destruct engine; simpl in Hr.
  - unfold cheerioScrape, cheerioTry in Hr.
    destruct (axios_get L url) as [status data|message code response request|message].
    + destruct (negb (status =? 200)%Z); [discriminate|].
      destruct (JS.length _ <? 100) eqn:Hgate; [discriminate|].
      apply Nat.ltb_ge in Hgate. injection Hr as <-. cbn [content].
      split; [eexists; reflexivity|exact Hgate].
    + destruct (match code with Some c => eqb c _ | None => false end);
        [discriminate|]. destruct response; [discriminate|].
      destruct request; discriminate.
    + discriminate.
  - unfold playwrightScrape, playwrightTry in Hr.
    destruct (playwright_load L url) as [[|pageContent others]|e]; try discriminate.
    destruct (JSON_parse L pageContent) as [data|e]; try discriminate.
    destruct (JS.length _ <? 100) eqn:Hgate; [discriminate|].
    apply Nat.ltb_ge in Hgate. injection Hr as <-. cbn [content].
    split; [eexists; reflexivity|exact Hgate].
Qed.

Lemma trim_not_empty (s : JsString) : s <> [] -> trim s = s -> trim s <> [].
Proof. intros Hs Ht. now rewrite Ht. Qed.

Lemma urlLoad_success
      (L : Libs) (toLowerCase : JsString -> JsString) (filePath : JsString)
      (documents : list UrlDocument) :
  urlLoad L toLowerCase filePath = Docs documents ->
  exists scraped,
    scrape (createScraper L (detectScraperEngine toLowerCase filePath)) filePath
      = Ok scraped /\
    100 <= JS.length (content scraped).
Proof.
  unfold urlLoad, scrapeUrl. cbn [selectedEngine].
  destruct (scrape (createScraper L (detectScraperEngine toLowerCase filePath)) filePath)
    as [scraped|e] eqn:Hrun; [|discriminate].
  intros _. exists scraped. split; [reflexivity|].
  now destruct (scrape_success _ _ _ _ Hrun).
Qed.

Lemma url_loader_gives_one_document
      (L : Libs) (toLowerCase : JsString -> JsString) (filePath : JsString) :
  match urlLoad L toLowerCase filePath with
  | Docs documents => List.map urlAsDocument documents <> []
  | Failed _ => True
  end.
Proof.
  unfold urlLoad. destruct (scrapeUrl L toLowerCase filePath None); [discriminate|exact I].
Qed.

Lemma pdfLoad_cases (P : PdfLibs) (filePath : JsString) :
  match pdfLoad P filePath with
  | Docs documents =>
      exists d buffer info,
        documents = [d] /\
        readFileSync P filePath = Ok buffer /\
        getTextAndInfo P buffer = Ok (Some (pdf_pageContent d), info) /\
        pdf_source d = filePath /\
        trim (pdf_pageContent d) <> []
  | Failed e =>
      exists cause,
        e = PdfLoadFailed cause /\
        (cause = PdfNoText \/ exists rejection, cause = Rejected rejection)
  end.
Proof.
  unfold pdfLoad, pdfTry.
  destruct (import_pdf_parse P) as [e|]; [eauto 6|].
  destruct (readFileSync P filePath) as [buffer|e]; [|eauto 6].
  destruct (getTextAndInfo P buffer) as [[text info]|e] eqn:Hparse; [|eauto 6].
  destruct (negb (truthy (orEmpty text)) || (JS.length (trim (orEmpty text)) =? 0))
    eqn:Hgate; [eauto 6|].
  apply orb_false_iff in Hgate. destruct Hgate as [Htruthy Hblank].
  apply Nat.eqb_neq in Hblank.
  eexists. exists buffer, info. cbn [pdf_pageContent pdf_source].
  assert (Htext : text = Some (orEmpty text)).
  { destruct text as [[|c s]|]; simpl in Htruthy; try discriminate. reflexivity. }
  split; [reflexivity|]. split; [reflexivity|]. cbn [pdf_pageContent pdf_source].
  split; [congruence|]. split; [reflexivity|].
  intros Hnil. apply Hblank. now rewrite Hnil.
Qed.

(** X14. The URL loader scrapes with the engine detected from the
    URL. It returns exactly one document: its text is the scraped
    content, trimmed and of at least 100 code units, and
    [contentLength] is the length of that text. When the scrape fails
    the loader fails with the scraper's error as its cause. *)
Theorem url_loader_gives_one_long_document
        (L : Libs) (toLowerCase : JsString -> JsString) (filePath : JsString) :
  match urlLoad L toLowerCase filePath with
  | Docs documents =>
      exists d scraped,
        documents = [d] /\
        scrape (createScraper L (detectScraperEngine toLowerCase filePath)) filePath
          = Ok scraped /\
        url_pageContent d = content scraped /\
        url_source d = filePath /\
        url_contentLength d = JS.length (url_pageContent d) /\
        100 <= JS.length (url_pageContent d) /\
        trim (url_pageContent d) = url_pageContent d
  | Failed e =>
      exists cause,
        e = UrlLoadFailed cause /\
        scrape (createScraper L (detectScraperEngine toLowerCase filePath)) filePath
          = Err cause
  end.
Proof.
  unfold urlLoad, scrapeUrl. cbn [selectedEngine].
  destruct (scrape (createScraper L (detectScraperEngine toLowerCase filePath)) filePath)
    as [scraped|e] eqn:Hrun.
  - destruct (scrape_success _ _ _ _ Hrun) as ((raw & Hraw) & Hlen).
    eexists. exists scraped. cbn [url_pageContent url_source url_contentLength].
    repeat split; trivial.
    rewrite Hraw. unfold cleanText. apply trim_idempotent.
  - exists e. split; reflexivity.
Qed.

(** X15. The PDF loader returns exactly one document, whose text is
    the text of the file and is not blank, and whose source is the
    path. A file whose text is missing or white space only is an
    error, and every error is wrapped once as a PDF loading error. *)
Theorem pdf_loader_gives_one_document_with_text (P : PdfLibs) (filePath : JsString) :
  match pdfLoad P filePath with
  | Docs documents =>
      exists d buffer info,
        documents = [d] /\
        readFileSync P filePath = Ok buffer /\
        getTextAndInfo P buffer = Ok (Some (pdf_pageContent d), info) /\
        pdf_source d = filePath /\
        trim (pdf_pageContent d) <> []
  | Failed e =>
      exists cause,
        e = PdfLoadFailed cause /\
        (cause = PdfNoText \/ exists rejection, cause = Rejected rejection)
  end /\
  (forall buffer text info,
      import_pdf_parse P = None ->
      readFileSync P filePath = Ok buffer ->
      getTextAndInfo P buffer = Ok (text, info) ->
      Forall (fun c => isWhiteSpace c = true) (orEmpty text) ->
      pdfLoad P filePath = Failed (PdfLoadFailed PdfNoText)).
Proof.
  split; [apply pdfLoad_cases|].
  intros buffer text info Himport Hread Hparse Hws.
  unfold pdfLoad, pdfTry. rewrite Himport, Hread, Hparse.
  rewrite (all_whitespace_trims_to_nothing Hws). cbn [JS.length List.length Nat.eqb].
  now rewrite orb_true_r.
Qed.

Lemma epubLoad_cases (epub_load : EpubLibs) (filePath : JsString) :
  match epubLoad epub_load filePath with
  | Docs documents =>
      exists chapters,
        epub_load filePath = Ok (Some chapters) /\ chapters <> [] /\
        documents = filter hasText chapters
  | Failed e =>
      exists cause,
        e = EpubLoadFailed cause /\
        (cause = EpubNoContent \/ exists rejection, cause = Rejected rejection)
  end.
Proof.
  unfold epubLoad, epubTry.
  destruct (epub_load filePath) as [[chapters|]|e]; [|eauto|eauto 6].
  destruct chapters as [|chapter chapters]; cbn [List.length Nat.eqb]; [eauto|].
  exists (chapter :: chapters). split; [reflexivity|]. split; [discriminate|reflexivity].
Qed.

(** The connection check, the loader of the file name and its answer
    at the file path stand behind every success of the pipeline. *)
Lemma processDocument_loaded (toLowerCase : JsString -> JsString) (env : Env)
      (dto : DocumentDto) (w w' : World) (resp : UploadResponse) :
  processDocument toLowerCase env dto w = (Ok resp, w') ->
  exists loader documents,
    createLoaderFromFileName toLowerCase (fileName dto) = Ok loader /\
    load env loader (filePath dto) w = Ok documents /\ documents <> [].
Proof.
  rewrite processDocument_stages.
  destruct (loadAndSplit toLowerCase env dto w) as [[chunks|e] w1] eqn:Hload;
    [|discriminate].
  intros _. revert Hload.
  unfold loadAndSplit, bind, checkConnection, lift, call_load,
    call_splitDocuments, throw, ret.
  destruct (getCollections env w); [discriminate|].
  destruct (createLoaderFromFileName toLowerCase (fileName dto)) as [loader|]
    eqn:Hloader; [|discriminate].
  destruct (load env loader (filePath dto) w) as [documents|] eqn:Hdocs;
    [|discriminate].
  destruct (List.length documents =? 0) eqn:Hlen; [discriminate|].
  intros _. exists loader, documents.
  split; [reflexivity|]. split; [exact Hdocs|]. intros ->. discriminate.
Qed.

(** X16. The file name chooses the loader and the file path is what
    it reads. When the pipeline succeeds for an http(s) file name, the
    scraper detected for the path returned a content of at least 100
    code units for it; when it succeeds for a PDF file name, the file
    at the path was read and had text that is not blank; when it
    succeeds for an EPUB file name, the file had a chapter that is not
    blank. *)
Theorem success_means_the_source_was_read
        (P : PdfLibs) (epub_load : EpubLibs) (L : Libs)
        (toLowerCase : JsString -> JsString)
        (describe : LoadError -> JsString) (env : Env)
        (dto : DocumentDto) (w w' : World) (resp : UploadResponse) :
  processDocument toLowerCase (withLoaders P epub_load L toLowerCase describe env) dto w
    = (Ok resp, w') ->
  match detectDocumentType toLowerCase (fileName dto) with
  | Ok URL =>
      exists scraped,
        scrape (createScraper L (detectScraperEngine toLowerCase (filePath dto)))
               (filePath dto) = Ok scraped /\
        100 <= JS.length (content scraped)
  | Ok PDF =>
      exists buffer text info,
        readFileSync P (filePath dto) = Ok buffer /\
        getTextAndInfo P buffer = Ok (Some text, info) /\
        trim text <> []
  | Ok EPUB =>
      exists chapters chapter,
        epub_load (filePath dto) = Ok (Some chapters) /\
        In chapter chapters /\ trim (pageContent chapter) <> []
  | Err _ => False
  end.
Proof.
  intros Hrun.
  destruct (processDocument_loaded _ _ _ _ _ _ Hrun) as (loader & documents & Hloader & Hload & Hne).
  unfold createLoaderFromFileName in Hloader.
  destruct (detectDocumentType toLowerCase (fileName dto)) as [[| |]|e];
    [| | |discriminate]; injection Hloader as <-; cbn [withLoaders load createLoader] in Hload.
  - pose proof (pdfLoad_cases P (filePath dto)) as Hpdf.
    destruct (pdfLoad P (filePath dto)) as [docs|e]; [|discriminate].
    destruct Hpdf as (d & buffer & info & _ & Hread & Hparse & _ & Hblank).
    now exists buffer, (pdf_pageContent d), info.
  - pose proof (epubLoad_cases epub_load (filePath dto)) as Hepub.
    destruct (epubLoad epub_load (filePath dto)) as [docs|e]; [|discriminate].
    destruct Hepub as (chapters & Hread & _ & ->).
    injection Hload as <-. rewrite map_id in Hne.
    destruct (filter hasText chapters) as [|chapter rest] eqn:Hfilter; [congruence|].
    assert (Hin : In chapter (filter hasText chapters)) by (rewrite Hfilter; now left).
    apply filter_In in Hin. destruct Hin as [Hin Htext].
    exists chapters, chapter. split; [exact Hread|]. split; [exact Hin|].
    unfold hasText, JS.length in Htext. intros Hnil. rewrite Hnil in Htext. discriminate.
  - destruct (urlLoad L toLowerCase (filePath dto)) as [docs|e] eqn:Hurl;
      [|discriminate].
    exact (urlLoad_success _ _ _ _ Hurl).
Qed.

(** X17. Neither the engine asked for nor the answer to the second
    scrape changes what URL ingestion does to the store and its
    history, nor the upload fields of the response; and an invalid URL
    is refused with the world untouched. *)
Theorem hint_and_second_scrape_never_change_the_store
        (toLowerCase : JsString -> JsString) (validURL : JsString -> bool)
        (env : Env) (L1 L2 : Libs) (url : JsString)
        (hint1 hint2 : option ScraperEngine) (w : World) :
  let run1 := processUrl toLowerCase validURL env L1 url hint1 w in
  let run2 := processUrl toLowerCase validURL env L2 url hint2 w in
  snd run1 = snd run2 /\
  (forall r1 r2,
      fst run1 = Processed r1 -> fst run2 = Processed r2 -> upload r1 = upload r2) /\
  (validURL url = false -> run1 = (InvalidUrl url, w)).
Proof.
  cbv zeta. unfold processUrl.
  destruct (validURL url); cbn [negb].
  - destruct (processDocument toLowerCase env _ w) as [[result|e] w'].
    + destruct (scrapeUrl L1 toLowerCase url hint1) as [s1|e1];
        destruct (scrapeUrl L2 toLowerCase url hint2) as [s2|e2]; cbn [fst snd];
        (split; [reflexivity|]); (split; [|discriminate]);
        intros r1 r2 H1 H2; try discriminate.
      injection H1 as <-. injection H2 as <-. reflexivity.
    + cbn [fst snd]. split; [reflexivity|]. split; [|discriminate].
      intros r1 r2 H1. discriminate.
  - cbn [fst snd]. split; [reflexivity|]. split; [|reflexivity].
    intros r1 r2 H1. discriminate.
Qed.

(** X18. URL ingestion scrapes the page a second time after the
    pipeline has committed its points. When that second scrape fails
    the call fails with the scraper's error, and the points stay in
    the collection. *)
Theorem url_ingestion_can_fail_after_the_commit
        (toLowerCase : JsString -> JsString) (validURL : JsString -> bool)
        (env : Env) (L : Libs) (url : JsString) (hint : option ScraperEngine)
        (w w' : World) (resp : UploadResponse) (e : Error) :
  validURL url = true ->
  processDocument toLowerCase env
    {| fileName := url; filePath := url; fileSize := None |} w = (Ok resp, w') ->
  scrapeUrl L toLowerCase url hint = Err e ->
  processUrl toLowerCase validURL env L url hint w = (UrlFailed e, w') /\
  exists added, added <> [] /\ collection w' = collection w ++ added.
Proof.
  intros Hvalid Hrun Hscrape. split.
  - unfold processUrl. now rewrite Hvalid, Hrun, Hscrape.
  - destruct (processDocument_added toLowerCase env
                {| fileName := url; filePath := url; fileSize := None |} w)
      as (documentId & cs & vectors & m & Hcoll & _ & _ & _ & Hok & _).
    rewrite Hrun in Hcoll, Hok. cbn [fst snd] in Hcoll, Hok.
    destruct (Hok resp eq_refl) as (_ & Hall & Hne).
    eexists. split; [|exact Hcoll].
    rewrite Hall. destruct (validPairs cs vectors); [congruence|discriminate].
Qed.

(** X19. For a URL that is valid but neither starts with http:// or
    https:// nor has pdf or epub after its last dot, URL ingestion is
    decided by the connection check alone: it fails with the
    unsupported-type error that names the extension when the store
    answers, and with the connection error otherwise. The outcome is
    the same whatever the loaders, the splitter, the embedding model,
    the upserts and the scrapers would answer and whatever engine is
    asked for, and the collection and the recorded history are
    unchanged. *)
Theorem unsupported_url_fails_before_anything
        (toLowerCase : JsString -> JsString) (validURL : JsString -> bool)
        (env : Env) (L : Libs) (url : JsString) (hint : option ScraperEngine)
        (w : World) :
  validURL url = true ->
  isHttpLocator url = false ->
  extensionOf toLowerCase url <> Some (js "pdf") ->
  extensionOf toLowerCase url <> Some (js "epub") ->
  processUrl toLowerCase validURL env L url hint w =
    (UrlFailed (match getCollections env w with
                | Some cause => QdrantUnreachable cause
                | None => UnsupportedFileType (extensionOf toLowerCase url)
                end), w) /\
  (forall env' L' hint',
      getCollections env' w = getCollections env w ->
      processUrl toLowerCase validURL env' L' url hint' w =
      processUrl toLowerCase validURL env L url hint w).
Proof.
  intros Hvalid Hhttp Hpdf Hepub.
  assert (Hloader : createLoaderFromFileName toLowerCase url
                    = Err (UnsupportedFileType (extensionOf toLowerCase url))).
  { unfold createLoaderFromFileName, detectDocumentType. rewrite Hhttp.
    destruct (extensionOf toLowerCase url) as [ext|]; [|reflexivity].
    destruct (eqb ext (js "pdf")) eqn:H1.
    { apply eqb_eq in H1. subst ext. contradiction Hpdf; reflexivity. }
    destruct (eqb ext (js "epub")) eqn:H2.
    { apply eqb_eq in H2. subst ext. contradiction Hepub; reflexivity. }
    reflexivity. }
  assert (Hany : forall env0 L0 hint0,
             processUrl toLowerCase validURL env0 L0 url hint0 w =
             (UrlFailed (match getCollections env0 w with
                         | Some cause => QdrantUnreachable cause
                         | None => UnsupportedFileType (extensionOf toLowerCase url)
                         end), w)).
  { intros env0 L0 hint0. unfold processUrl. rewrite Hvalid. cbn [negb].
    rewrite processDocument_stages.
    unfold loadAndSplit, bind, checkConnection, lift, throw, ret. cbn [fileName].
    destruct (getCollections env0 w) as [cause|]; [reflexivity|].
    now rewrite Hloader. }
  split; [apply Hany|].
  intros env' L' hint' Hsame. now rewrite !Hany, Hsame.
Qed.

(** X20. The engine reported by URL ingestion is the one asked for
    (the detected one when none is asked for), and title, image and
    time come from a scrape with that engine. The text that was
    indexed was loaded with the detected engine, whatever was asked
    for. *)
Theorem reported_engine_is_the_one_asked_for
        (P : PdfLibs) (epub_load : EpubLibs) (L1 L2 : Libs)
        (toLowerCase : JsString -> JsString)
        (describe : LoadError -> JsString) (validURL : JsString -> bool)
        (env : Env) (url : JsString) (hint : option ScraperEngine)
        (w w' : World) (r : ProcessUrlResponse) :
  isHttpLocator url = true ->
  processUrl toLowerCase validURL
             (withLoaders P epub_load L1 toLowerCase describe env) L2
             url hint w = (Processed r, w') ->
  meta_scraperEngine (metadata r) = selectedEngine toLowerCase url hint /\
  (exists scraped,
      scrape (createScraper L2 (selectedEngine toLowerCase url hint)) url = Ok scraped /\
      meta_title (metadata r) = title scraped /\
      meta_ogImage (metadata r) = ogImage scraped /\
      meta_scrapedAt (metadata r) = scrapedAt scraped) /\
  (exists loaded,
      scrape (createScraper L1 (detectScraperEngine toLowerCase url)) url = Ok loaded) /\
  success (upload r) = true.
Proof.
  intros Hhttp. unfold processUrl.
  destruct (validURL url); cbn [negb]; [|discriminate].
  destruct (processDocument toLowerCase _ _ w) as [[result|e] w1] eqn:Hrun;
    [|discriminate].
  unfold scrapeUrl.
  destruct (scrape (createScraper L2 (selectedEngine toLowerCase url hint)) url)
    as [scraped|e] eqn:Hscrape; [|discriminate].
  intros H. injection H as <- <-. cbn [metadata upload meta_scraperEngine meta_title
                                        meta_ogImage meta_scrapedAt].
  split; [reflexivity|]. split; [now exists scraped|].
  destruct (processDocument_loaded _ _ _ _ _ _ Hrun) as (loader & documents & Hloader & Hload & _).
  cbn [fileName filePath] in Hloader, Hload.
  unfold createLoaderFromFileName, detectDocumentType in Hloader.
  rewrite Hhttp in Hloader. injection Hloader as <-.
  cbn [withLoaders load createLoader] in Hload.
  destruct (urlLoad L1 toLowerCase url) as [docs|e] eqn:Hurl; [|discriminate].
  destruct (urlLoad_success _ _ _ _ Hurl) as (loaded & Hloaded & _).
  split; [now exists loaded|].
  destruct (processDocument_added toLowerCase
              (withLoaders P epub_load L1 toLowerCase describe env)
              {| fileName := url; filePath := url; fileSize := None |} w)
    as (documentId & cs & vectors & m & _ & _ & _ & _ & Hok & _).
  rewrite Hrun in Hok. cbn [fst] in Hok.
  destruct (Hok result eq_refl) as (-> & _). reflexivity.
Qed.

(** X21. The EPUB loader keeps the chapters that are not blank, in
    their order, and fails when the library finds no chapter at all.
    A file whose chapters are all blank is no loader error: the loader
    returns no document, and the pipeline then stops with its
    no-document error before anything is changed. The PDF and URL
    loaders never return an empty list. *)
Theorem blank_epub_is_reported_by_the_pipeline
        (P : PdfLibs) (epub_load : EpubLibs) (L : Libs)
        (toLowerCase : JsString -> JsString)
        (describe : LoadError -> JsString) (env : Env) :
  (forall filePath,
      match epubLoad epub_load filePath with
      | Docs documents =>
          exists chapters,
            epub_load filePath = Ok (Some chapters) /\ chapters <> [] /\
            documents = filter hasText chapters /\
            Forall (fun d => trim (pageContent d) <> []) documents
      | Failed e =>
          exists cause,
            e = EpubLoadFailed cause /\
            (cause = EpubNoContent \/ exists rejection, cause = Rejected rejection)
      end) /\
  (forall dto w chapters,
      getCollections env w = None ->
      detectDocumentType toLowerCase (fileName dto) = Ok EPUB ->
      epub_load (filePath dto) = Ok (Some chapters) ->
      chapters <> [] ->
      Forall (fun d => trim (pageContent d) = []) chapters ->
      processDocument toLowerCase (withLoaders P epub_load L toLowerCase describe env)
                      dto w = (Err NoDocuments, w)) /\
  (forall filePath w,
      load (withLoaders P epub_load L toLowerCase describe env)
           PDFDocumentLoader filePath w <> Ok [] /\
      load (withLoaders P epub_load L toLowerCase describe env)
           URLDocumentLoader filePath w <> Ok []).
Proof.
  split; [|split].
  - intros filePath. pose proof (epubLoad_cases epub_load filePath) as H.
    destruct (epubLoad epub_load filePath) as [documents|e]; [|exact H].
    destruct H as (chapters & Hread & Hne & ->). exists chapters.
    split; [exact Hread|]. split; [exact Hne|]. split; [reflexivity|].
    apply Forall_forall. intros d Hin. apply filter_In in Hin.
    destruct Hin as [_ Htext]. unfold hasText, JS.length in Htext.
    intros Hnil. rewrite Hnil in Htext. discriminate.
  - intros dto w chapters Hconn Htype Hread Hne Hblank.
    assert (Hfilter : filter hasText chapters = []).
    { clear Hread Hne. induction Hblank as [|d ds Hd _ IH]; [reflexivity|].
      cbn [filter]. unfold hasText at 1. rewrite Hd. exact IH. }
    rewrite processDocument_stages.
    unfold loadAndSplit, bind, checkConnection, lift, call_load, throw.
    cbn [getCollections withLoaders]. rewrite Hconn.
    unfold createLoaderFromFileName. rewrite Htype.
    cbn [createLoader load withLoaders settle]. unfold epubLoad, epubTry. rewrite Hread.
    destruct chapters as [|chapter chapters]; [congruence|].
    cbn [List.length Nat.eqb]. rewrite Hfilter. reflexivity.
  - intros filePath w. cbn [withLoaders load]. split.
    + pose proof (pdfLoad_cases P filePath) as H.
      destruct (pdfLoad P filePath) as [documents|e]; [|discriminate].
      destruct H as (d & _ & _ & -> & _). discriminate.
    + pose proof (url_loader_gives_one_document L toLowerCase filePath) as H.
      destruct (urlLoad L toLowerCase filePath) as [documents|e]; [|discriminate].
      cbn [settle]. intros Heq. injection Heq as Heq. exact (H Heq).
Qed.

(** *** The theorems at the demo page and store *)

Lemma blank_epub_is_reported_by_the_pipeline_witness :
  processDocument toLowerCaseAscii
    (withLoaders (UrlDemo.pdfLibs None) (UrlDemo.epubLibs [js "  "; js ""])
                 UrlDemo.longPageLibs toLowerCaseAscii UrlDemo.describe (Demo.env 0))
    {| fileName := js "Book.EPUB"; filePath := js "/uploads/1"; fileSize := None |}
    Demo.emptyWorld
  = (Err NoDocuments, Demo.emptyWorld).
Proof.
  apply (proj1 (proj2 (blank_epub_is_reported_by_the_pipeline
                         (UrlDemo.pdfLibs None) (UrlDemo.epubLibs [js "  "; js ""])
                         UrlDemo.longPageLibs toLowerCaseAscii UrlDemo.describe
                         (Demo.env 0)))
               {| fileName := js "Book.EPUB"; filePath := js "/uploads/1";
                  fileSize := None |}
               Demo.emptyWorld
               [ {| pageContent := js "  "; loc_pageNumber := None |};
                 {| pageContent := js ""; loc_pageNumber := None |} ]).
  - reflexivity.
  - reflexivity.
  - reflexivity.
  - discriminate.
  - repeat constructor.
Defined.


Lemma pdf_loader_gives_one_document_with_text_witness :
  pdfLoad (UrlDemo.pdfLibs (Some (js "  "))) (js "/uploads/book.pdf")
  = Failed (PdfLoadFailed PdfNoText).
Proof.
  apply (proj2 (pdf_loader_gives_one_document_with_text
                  (UrlDemo.pdfLibs (Some (js "  "))) (js "/uploads/book.pdf"))
               (js "/uploads/book.pdf") (Some (js "  "))
               {| total := Some 1%Z; info_Title := None; info_Author := None;
                  info_Subject := None; info_Creator := None;
                  info_PDFFormatVersion := None |});
    try reflexivity.
  repeat constructor.
Defined.

Lemma success_means_the_source_was_read_witness :
  exists scraped,
    scrape (createScraper UrlDemo.longPageLibs cheerio) UrlDemo.pageUrl = Ok scraped /\
    100 <= JS.length (content scraped).
Proof.
  destruct (processDocument toLowerCaseAscii
              (UrlDemo.env None UrlDemo.longPageLibs)
              {| fileName := UrlDemo.pageUrl; filePath := UrlDemo.pageUrl;
                 fileSize := None |} Demo.emptyWorld) as [[resp|e] w'] eqn:Hrun;
    [|vm_compute in Hrun; discriminate].
  exact (success_means_the_source_was_read
           (UrlDemo.pdfLibs None) (UrlDemo.epubLibs []) UrlDemo.longPageLibs
           toLowerCaseAscii UrlDemo.describe (Demo.env 0) _ _ _ _ Hrun).
Defined.

Lemma url_ingestion_can_fail_after_the_commit_witness :
  exists e w',
    processUrl toLowerCaseAscii UrlDemo.validURL
               (UrlDemo.env None UrlDemo.longPageLibs) UrlDemo.shortPageLibs
               UrlDemo.pageUrl None Demo.emptyWorld = (UrlFailed e, w') /\
    exists added, added <> [] /\ collection w' = added.
Proof.
  destruct (processDocument toLowerCaseAscii (UrlDemo.env None UrlDemo.longPageLibs)
              {| fileName := UrlDemo.pageUrl; filePath := UrlDemo.pageUrl;
                 fileSize := None |} Demo.emptyWorld) as [[resp|e] w'] eqn:Hrun;
    [|vm_compute in Hrun; discriminate].
  destruct (scrapeUrl UrlDemo.shortPageLibs toLowerCaseAscii UrlDemo.pageUrl None)
    as [scraped|e] eqn:Hscrape; [vm_compute in Hscrape; discriminate|].
  exists e, w'.
  exact (url_ingestion_can_fail_after_the_commit
           toLowerCaseAscii UrlDemo.validURL
           (UrlDemo.env None UrlDemo.longPageLibs) UrlDemo.shortPageLibs
           UrlDemo.pageUrl None Demo.emptyWorld w' resp e eq_refl Hrun Hscrape).
Defined.

Lemma unsupported_url_fails_before_anything_witness :
  processUrl toLowerCaseAscii UrlDemo.validURL
             (UrlDemo.env None UrlDemo.longPageLibs) UrlDemo.longPageLibs
             (js "ftp://example.org/page") None Demo.emptyWorld
  = (UrlFailed (UnsupportedFileType (Some (js "org/page"))), Demo.emptyWorld).
Proof.
  destruct (unsupported_url_fails_before_anything
              toLowerCaseAscii UrlDemo.validURL
              (UrlDemo.env None UrlDemo.longPageLibs) UrlDemo.longPageLibs
              (js "ftp://example.org/page") None Demo.emptyWorld)
    as (Hrun & _).
  - reflexivity.
  - reflexivity.
  - vm_compute. discriminate.
  - vm_compute. discriminate.
  - exact Hrun.
Defined.

Lemma reported_engine_is_the_one_asked_for_witness :
  exists r w' loaded,
    processUrl toLowerCaseAscii UrlDemo.validURL
               (UrlDemo.env None UrlDemo.longPageLibs) UrlDemo.longPageLibs
               UrlDemo.pageUrl (Some playwright) Demo.emptyWorld = (Processed r, w') /\
    meta_scraperEngine (metadata r) = playwright /\
    scrape (createScraper UrlDemo.longPageLibs cheerio) UrlDemo.pageUrl = Ok loaded.
Proof.
  destruct (processUrl toLowerCaseAscii UrlDemo.validURL
              (UrlDemo.env None UrlDemo.longPageLibs) UrlDemo.longPageLibs
              UrlDemo.pageUrl (Some playwright) Demo.emptyWorld) as [[r|u|e] w'] eqn:Hrun;
    try (vm_compute in Hrun; discriminate).
  destruct (reported_engine_is_the_one_asked_for
              (UrlDemo.pdfLibs None) (UrlDemo.epubLibs [])
              UrlDemo.longPageLibs UrlDemo.longPageLibs
              toLowerCaseAscii UrlDemo.describe UrlDemo.validURL (Demo.env 0)
              UrlDemo.pageUrl (Some playwright) Demo.emptyWorld w' r eq_refl Hrun)
    as (Hengine & _ & (loaded & Hloaded) & _).
  exists r, w', loaded. split; [reflexivity|]. split; [exact Hengine|exact Hloaded].
Defined.

End UrlIngestion.

(* ================================================================= *)
(** ** Search, answers and the stream *)

Module RagFacts.
Import Scraper Ingestion Rag.
Local Open Scope rag_scope.

Lemma orThree_fixed (topK : option Z) : orThree (Some (orThree topK)) = orThree topK.
Proof. reflexivity. Qed.

Lemma filter_app_nil {A} (f : A -> bool) (l1 l2 : list A) :
  filter f l1 = [] -> filter f (l1 ++ l2) = filter f l2.
Proof. intros H. now rewrite filter_app, H. Qed.

Lemma frames_app (h1 h2 : History) : frames (h1 ++ h2) = frames h1 ++ frames h2.
Proof.
  induction h1 as [|c h1 IH]; [reflexivity|].
  destruct c; simpl; rewrite IH; reflexivity.
Qed.

Section AnyServices.
Variable svc : Services.
Variable toText : JsValue -> JsString.

(** The three ways a search goes. *)
Lemma searchDocuments_cases (question : JsString) (topK : option Z) (h : History) :
  (exists e,
      embedQuery svc h question = Err e /\
      searchDocuments svc question topK h = (Err e, h ++ [CallEmbedQuery question])) \/
  (exists vector e,
      embedQuery svc h question = Ok vector /\
      search svc (h ++ [CallEmbedQuery question]) vector (orThree topK) = Err e /\
      searchDocuments svc question topK h
      = (Err e, h ++ [CallEmbedQuery question; CallSearch vector (orThree topK)])) \/
  (exists vector hits,
      embedQuery svc h question = Ok vector /\
      search svc (h ++ [CallEmbedQuery question]) vector (orThree topK) = Ok hits /\
      searchDocuments svc question topK h
      = (Ok {| qr_question := question;
               qr_results := List.map toSearchResponse hits;
               retrievedChunks := List.length (List.map toSearchResponse hits) |},
         h ++ [CallEmbedQuery question; CallSearch vector (orThree topK)])).
Proof.
  unfold searchDocuments, bind, call_embedQuery, call_search, ret.
  destruct (embedQuery svc h question) as [vector|e].
  - destruct (search svc (h ++ [CallEmbedQuery question]) vector (orThree topK))
      as [hits|e] eqn:Hsearch; rewrite <- app_assoc; cbn [app].
    + right. right. now exists vector, hits.
    + right. left. now exists vector, e.
  - left. now exists e.
Qed.

Lemma writeTokens_run (chunks : list JsString) (h : History) :
  writeTokens chunks h = (Ok tt, h ++ List.map (fun c => ResWrite (FrameToken c)) chunks).
Proof.
  revert h. induction chunks as [|c chunks IH]; intros h; cbn [writeTokens List.map].
  - now rewrite app_nil_r.
  - unfold bind, record. rewrite IH, <- app_assoc. reflexivity.
Qed.

Lemma frames_tokens (chunks : list JsString) :
  frames (List.map (fun c => ResWrite (FrameToken c)) chunks) = List.map FrameToken chunks.
Proof. induction chunks as [|c chunks IH]; [reflexivity|]. simpl. now rewrite IH. Qed.

Lemma responses_tokens (chunks : list JsString) :
  filter isResponse (List.map (fun c => ResWrite (FrameToken c)) chunks)
  = List.map (fun c => ResWrite (FrameToken c)) chunks.
Proof. induction chunks as [|c chunks IH]; [reflexivity|]. simpl. now rewrite IH. Qed.

Lemma responses_tokens_app (chunks : list JsString) (rest : History) :
  filter isResponse (List.map (fun c => ResWrite (FrameToken c)) chunks ++ rest)
  = List.map ResWrite (List.map FrameToken chunks) ++ filter isResponse rest.
Proof. now rewrite filter_app, responses_tokens, map_map. Qed.

Lemma llm_tokens (chunks : list JsString) :
  filter isLlmCall (List.map (fun c => ResWrite (FrameToken c)) chunks) = [].
Proof. induction chunks as [|c chunks IH]; [reflexivity|]. simpl. exact IH. Qed.

(** X22. A search hands back the hits of the store one for one and in
    order, with their identifiers and scores, and counts them; it asks
    for 3 hits when no number is given. A hit without a payload or
    without a text is no error: its fields are undefined. *)
Theorem search_results_mirror_the_hits
        (question : JsString) (topK : option Z) (h h' : History) (resp : QueryResponse) :
  searchDocuments svc question topK h = (Ok resp, h') ->
  exists vector hits,
    embedQuery svc h question = Ok vector /\
    search svc (h ++ [CallEmbedQuery question]) vector
           (match topK with Some k => k | None => 3%Z end) = Ok hits /\
    h' = h ++ [CallEmbedQuery question;
               CallSearch vector (match topK with Some k => k | None => 3%Z end)] /\
    qr_question resp = question /\
    retrievedChunks resp = List.length hits /\
    List.map sr_id (qr_results resp) = List.map sp_id hits /\
    List.map sr_score (qr_results resp) = List.map sp_score hits /\
    Forall2 (fun hit result =>
               (sp_payload hit = None -> sr_text result = VUndefined /\
                                         md_fileName result = VUndefined) /\
               (forall payload, sp_payload hit = Some payload ->
                                get payload "text" = None ->
                                sr_text result = VUndefined))
            hits (qr_results resp).
Proof.
  intros Hrun.
  destruct (searchDocuments_cases question topK h)
    as [(e & _ & H) | [(vector & e & _ & _ & H) | (vector & hits & Hembed & Hsearch & H)]];
    rewrite H in Hrun; try discriminate.
  injection Hrun as <- <-. exists vector, hits.
  cbn [qr_question qr_results retrievedChunks]. rewrite length_map, !map_map.
  repeat (split; [assumption || reflexivity|]).
  clear. induction hits as [|hit hits IH]; constructor; [|exact IH].
  unfold toSearchResponse, field. cbn [sr_text md_fileName]. split.
  - intros ->. now split.
  - intros payload -> ->. reflexivity.
Qed.

(** What [queryRAG] does after the search. *)
Lemma queryRAG_cases (question : JsString) (topK : option Z) (h : History) :
  let run := queryRAG svc toText question topK h in
  (exists e added,
      fst run = Err e /\ snd run = h ++ added /\
      filter isLlmCall added = [] /\ filter isResponse added = []) \/
  (exists vector,
      run = (Ok {| rag_question := question; rag_answer := NOT_FOUND;
                   rag_sources := [] |},
             h ++ [CallEmbedQuery question; CallSearch vector (orThree topK)])) \/
  (exists vector hits,
      hits <> [] /\
      let context := contextOf toText (List.map toSearchResponse hits) in
      let h1 := h ++ [CallEmbedQuery question; CallSearch vector (orThree topK)] in
      snd run = h1 ++ [CallInvoke context question] /\
      fst run =
        match invoke svc h1 context question with
        | Ok answer =>
            Ok {| rag_question := question; rag_answer := answer;
                  rag_sources :=
                    List.map toSource (List.map toSearchResponse hits) |}
        | Err e => Err e
        end).
Proof.
  cbv zeta. unfold queryRAG, bind.
  destruct (searchDocuments_cases question (Some (orThree topK)) h)
    as [(e & _ & H) | [(vector & e & _ & _ & H) | (vector & hits & _ & _ & H)]];
    rewrite H; clear H; rewrite ?orThree_fixed.
  - left. exists e, [CallEmbedQuery question]. now cbn.
  - left. exists e, [CallEmbedQuery question; CallSearch vector (orThree topK)]. now cbn.
  - cbn [qr_results]. destruct hits as [|hit hits].
    + right. left. now exists vector.
    + right. right. exists vector, (hit :: hits). split; [discriminate|].
      cbn [List.map List.length Nat.eqb]. unfold call_invoke, ret.
      destruct (invoke svc _ _ question); now cbn.
Qed.

(** X23. Answering a question calls the language model at most once,
    and not at all when the search finds nothing: the answer is then
    the fixed sentence and there are no sources. Otherwise the answer
    is the model's and the sources are the hits, one for one. The
    service itself sends nothing to the client. *)
Theorem model_is_asked_only_when_something_was_found
        (question : JsString) (topK : option Z) (h : History) :
  let run := queryRAG svc toText question topK h in
  exists added,
    snd run = h ++ added /\
    List.length (filter isLlmCall added) <= 1 /\
    filter isResponse added = [] /\
    forall r, fst run = Ok r ->
      rag_question r = question /\
      (rag_sources r = [] <-> filter isLlmCall added = []) /\
      (rag_sources r = [] -> rag_answer r = NOT_FOUND) /\
      (rag_sources r <> [] ->
         exists context before,
           filter isLlmCall added = [CallInvoke context question] /\
           invoke svc before context question = Ok (rag_answer r)).
Proof.
  cbv zeta.
  destruct (queryRAG_cases question topK h)
    as [(e & added & Hfst & Hsnd & Hllm & Hres)
       | [(vector & Hrun) | (vector & hits & Hne & Hsnd & Hfst)]]; cbv zeta in *.
  - exists added. rewrite Hllm, Hfst. cbn [List.length].
    split; [exact Hsnd|]. split; [lia|]. split; [exact Hres|]. discriminate.
  - exists [CallEmbedQuery question; CallSearch vector (orThree topK)].
    rewrite Hrun. cbn [fst snd filter isLlmCall isResponse List.length].
    split; [reflexivity|]. split; [lia|]. split; [reflexivity|].
    intros r Hr. injection Hr as <-. cbn [rag_question rag_sources rag_answer].
    split; [reflexivity|]. split; [split; reflexivity|]. split; [reflexivity|].
    intros Hs. now contradiction Hs.
  - exists [CallEmbedQuery question; CallSearch vector (orThree topK);
            CallInvoke (contextOf toText (List.map toSearchResponse hits)) question].
    rewrite Hsnd, <- app_assoc. cbn [app filter isLlmCall List.length].
    split; [reflexivity|]. split; [lia|]. split; [reflexivity|].
    intros r Hr. rewrite Hfst in Hr.
    destruct (invoke svc _ _ question) as [answer|e] eqn:Hinvoke; [|discriminate].
    injection Hr as <-. cbn [rag_question rag_sources rag_answer].
    assert (Hsrc : List.map toSource (List.map toSearchResponse hits) <> []).
    { destruct hits; [congruence|discriminate]. }
    split; [reflexivity|]. split; [split; [congruence|discriminate]|].
    split; [congruence|]. intros _. eauto.
Qed.

(** The ways [streamRAG] goes, with everything it does. *)
Lemma streamRAG_cases (question : JsString) (topK : option Z) (h : History) :
  let run := streamRAG svc toText question topK h in
  (exists e added,
      run = (Err e, h ++ added) /\
      filter isLlmCall added = [] /\ filter isResponse added = []) \/
  (exists vector,
      run = (Ok tt,
             h ++ [CallEmbedQuery question; CallSearch vector (orThree topK);
                   ResWrite (FrameAnswer NOT_FOUND); ResWrite FrameDone; ResEnd])) \/
  (exists vector hits,
      hits <> [] /\
      let results := List.map toSearchResponse hits in
      let context := contextOf toText results in
      let asked :=
        [CallEmbedQuery question; CallSearch vector (orThree topK);
         ResWrite (FrameSources (List.map toSource results));
         CallStream context question] in
      match stream svc (h ++ [CallEmbedQuery question; CallSearch vector (orThree topK);
                              ResWrite (FrameSources (List.map toSource results))])
                   context question with
      | Err e => run = (Err e, h ++ asked)
      | Ok (chunks, Some e) =>
          run = (Err e, h ++ asked ++ List.map (fun c => ResWrite (FrameToken c)) chunks)
      | Ok (chunks, None) =>
          run = (Ok tt, h ++ asked ++ List.map (fun c => ResWrite (FrameToken c)) chunks
                          ++ [ResWrite FrameDone; ResEnd])
      end).
Proof.
  cbv zeta. unfold streamRAG, bind.
  destruct (searchDocuments_cases question (Some (orThree topK)) h)
    as [(e & _ & H) | [(vector & e & _ & _ & H) | (vector & hits & _ & _ & H)]];
    rewrite H; clear H; rewrite ?orThree_fixed.
  - left. exists e, [CallEmbedQuery question]. now cbn.
  - left. exists e, [CallEmbedQuery question; CallSearch vector (orThree topK)]. now cbn.
  - cbn [qr_results]. destruct hits as [|hit hits].
    + right. left. exists vector. cbn [List.map List.length Nat.eqb].
      unfold record. rewrite <- !app_assoc. reflexivity.
    + right. right. exists vector, (hit :: hits). split; [discriminate|].
      cbn [List.length Nat.eqb]. rewrite length_map. cbn [List.length Nat.eqb].
      unfold record, call_stream. cbn beta iota. rewrite <- !app_assoc. cbn [app].
      destruct (stream svc _ _ question) as [[chunks [e|]]|e]; cbn [fst snd].
      * rewrite writeTokens_run. unfold throw. rewrite <- !app_assoc. reflexivity.
      * rewrite writeTokens_run. rewrite <- !app_assoc. reflexivity.
      * reflexivity.
Qed.

Lemma sources_not_empty (hits : list ScoredPoint) :
  hits <> [] -> List.map toSource (List.map toSearchResponse hits) <> [].
Proof. destruct hits; [congruence|discriminate]. Qed.

(** X24. The streaming service ends the response exactly when it
    returns: a done frame and the end are then the last things it
    does. When it throws, the response is left open and no done frame
    was written. It asks the model at most once, never when nothing
    was found, and only after the sources frame was written. *)
Theorem stream_service_ends_the_response_only_on_success
        (question : JsString) (topK : option Z) (h : History) :
  let run := streamRAG svc toText question topK h in
  exists added,
    snd run = h ++ added /\
    (fst run = Ok tt ->
       exists before, added = before ++ [ResWrite FrameDone; ResEnd] /\
                      ~ In ResEnd before /\ ~ In (ResWrite FrameDone) before) /\
    (forall e, fst run = Err e -> ~ In ResEnd added /\ ~ In (ResWrite FrameDone) added) /\
    (filter isLlmCall added = [] \/
     exists before sources context after,
       added = before ++ [ResWrite (FrameSources sources); CallStream context question]
                 ++ after /\
       sources <> [] /\
       filter isLlmCall before = [] /\ filter isLlmCall after = [] /\
       frames before = []).
Proof.
  assert (Htokens : forall chunks c,
             In c (List.map (fun c => ResWrite (FrameToken c)) chunks) ->
             c <> ResEnd /\ c <> ResWrite FrameDone).
  { intros chunks c Hin. apply in_map_iff in Hin. destruct Hin as (x & <- & _).
    split; discriminate. }
  cbv zeta.
  destruct (streamRAG_cases question topK h)
    as [(e & added & Hrun & Hllm & Hres)
       | [(vector & Hrun) | (vector & hits & Hne & Hrun)]]; cbv zeta in Hrun.
  - exists added. rewrite Hrun. cbn [fst snd]. split; [reflexivity|].
    split; [discriminate|]. split; [|now left].
    intros _ _. split; intros Hin.
    + assert (H : In ResEnd (filter isResponse added)) by now apply filter_In.
      now rewrite Hres in H.
    + assert (H : In (ResWrite FrameDone) (filter isResponse added))
        by now apply filter_In.
      now rewrite Hres in H.
  - eexists. rewrite Hrun. cbn [fst snd]. split; [reflexivity|].
    split; [|split; [discriminate|now left]].
    intros _. exists [CallEmbedQuery question; CallSearch vector (orThree topK);
                      ResWrite (FrameAnswer NOT_FOUND)].
    split; [reflexivity|]. split; intros Hin; simpl in Hin; intuition discriminate.
  - pose proof (sources_not_empty hits Hne) as Hsrc.
    destruct (stream svc _ _ question) as [[chunks [e|]]|e]; rewrite Hrun;
      eexists; cbn [fst snd]; (split; [reflexivity|]).
    + split; [discriminate|]. split.
      * intros _ _. split; intros Hin; apply in_app_or in Hin;
          destruct Hin as [Hin|Hin];
          try (apply Htokens in Hin; destruct Hin; congruence);
          simpl in Hin; intuition discriminate.
      * right. exists [CallEmbedQuery question; CallSearch vector (orThree topK)].
        do 2 eexists. exists (List.map (fun c => ResWrite (FrameToken c)) chunks).
        split; [reflexivity|]. split; [exact Hsrc|].
        split; [reflexivity|]. split; [apply llm_tokens|reflexivity].
    + split.
      * intros _. eexists. rewrite app_assoc. split; [reflexivity|].
        split; intros Hin; apply in_app_or in Hin; destruct Hin as [Hin|Hin];
          try (apply Htokens in Hin; destruct Hin; congruence);
          simpl in Hin; intuition discriminate.
      * split; [discriminate|].
        right. exists [CallEmbedQuery question; CallSearch vector (orThree topK)].
        do 2 eexists.
        exists (List.map (fun c => ResWrite (FrameToken c)) chunks
                  ++ [ResWrite FrameDone; ResEnd]).
        split; [reflexivity|]. split; [exact Hsrc|].
        split; [reflexivity|]. split; [|reflexivity].
        rewrite filter_app, llm_tokens. reflexivity.
    + split; [discriminate|]. split.
      * intros _ _. split; intros Hin; simpl in Hin; intuition discriminate.
      * right. exists [CallEmbedQuery question; CallSearch vector (orThree topK)].
        do 2 eexists. exists []. 
        split; [reflexivity|]. split; [exact Hsrc|].
        split; [reflexivity|]. split; reflexivity.
Qed.

(** X25. Whatever the collaborators do, the stream route sets its
    three headers before anything is written, ends the response
    exactly once, as the last thing it does, and never throws. What
    the client received is one of four transcripts: the fixed answer
    and done; sources, tokens and done; a failure alone; or sources
    and the tokens sent so far followed by the failure. *)
Theorem stream_route_always_ends_the_response
        (question : JsString) (topK : option Z) (h : History) :
  let run := ragStreamRoute svc toText question topK h in
  fst run = Ok tt /\
  exists added written,
    snd run = h ++ added /\
    filter isResponse added =
      [ ResSetHeader (js "Content-Type") (js "text/event-stream");
        ResSetHeader (js "Cache-Control") (js "no-cache");
        ResSetHeader (js "Connection") (js "keep-alive") ]
      ++ List.map ResWrite written ++ [ResEnd] /\
    Transcript written.
Proof.
  cbv zeta.
  set (h0 := h ++ [ ResSetHeader (js "Content-Type") (js "text/event-stream");
                    ResSetHeader (js "Cache-Control") (js "no-cache");
                    ResSetHeader (js "Connection") (js "keep-alive") ]).
  assert (Hroute :
            ragStreamRoute svc toText question topK h =
            match streamRAG svc toText question topK h0 with
            | (Ok a, h') => (Ok a, h')
            | (Err _, h') =>
                (Ok tt, h' ++ [ResWrite (FrameFailure
                                           (js "Error processing RAG stream query"));
                               ResEnd])
            end).
  { unfold ragStreamRoute, try_catch, bind, record. cbn beta iota.
    rewrite <- !app_assoc. cbn [app]. fold h0.
    destruct (streamRAG svc toText question topK h0) as [[[]|e] h']; [reflexivity|].
    now rewrite <- app_assoc. }
  rewrite Hroute. clear Hroute.
  assert (Hh0 : h0 = h ++ [ ResSetHeader (js "Content-Type") (js "text/event-stream");
                            ResSetHeader (js "Cache-Control") (js "no-cache");
                            ResSetHeader (js "Connection") (js "keep-alive") ])
    by reflexivity.
  clearbody h0.
  destruct (streamRAG_cases question topK h0)
    as [(e & added & Hrun & Hllm & Hres)
       | [(vector & Hrun) | (vector & hits & Hne & Hrun)]]; cbv zeta in Hrun.
  - rewrite Hrun. unfold record. cbn [fst snd]. split; [reflexivity|].
    eexists. exists [FrameFailure (js "Error processing RAG stream query")].
    rewrite Hh0, <- !app_assoc. split; [reflexivity|].
    split; [|constructor].
    cbn [app filter isResponse]. rewrite filter_app, Hres. reflexivity.
  - rewrite Hrun. cbn [fst snd]. split; [reflexivity|].
    eexists. exists [FrameAnswer NOT_FOUND; FrameDone].
    rewrite Hh0, <- !app_assoc. split; [reflexivity|]. split; [reflexivity|constructor].
  - pose proof (sources_not_empty hits Hne) as Hsrc.
    destruct (stream svc _ _ question) as [[chunks [e|]]|e]; rewrite Hrun;
      unfold record; cbn [fst snd]; (split; [reflexivity|]); eexists.
    + exists (FrameSources (List.map toSource (List.map toSearchResponse hits))
                :: List.map FrameToken chunks
                ++ [FrameFailure (js "Error processing RAG stream query")]).
      rewrite Hh0, <- !app_assoc. split; [reflexivity|]. split; [|now constructor].
      cbn [app filter isResponse List.map]. rewrite responses_tokens_app.
      rewrite map_app, <- app_assoc. reflexivity.
    + exists (FrameSources (List.map toSource (List.map toSearchResponse hits))
                :: List.map FrameToken chunks ++ [FrameDone]).
      rewrite Hh0, <- !app_assoc. split; [reflexivity|]. split; [|now constructor].
      cbn [app filter isResponse List.map]. rewrite responses_tokens_app.
      rewrite map_app, <- app_assoc. reflexivity.
    + exists (FrameSources (List.map toSource (List.map toSearchResponse hits))
                :: List.map FrameToken [] 
                ++ [FrameFailure (js "Error processing RAG stream query")]).
      rewrite Hh0, <- !app_assoc. split; [reflexivity|]. split; [|now constructor].
      reflexivity.
Qed.

(** X26. The two JSON routes answer every request exactly once and
    never throw: with status 200 and the service's result when the
    service returned, with status 500 and a fixed message, which
    holds nothing of the error, when it threw. *)
Theorem json_routes_answer_exactly_once
        (question : JsString) (topK : option Z) (h : History) :
  (let run := queryRoute svc question topK h in
   fst run = Ok tt /\
   exists added answer,
     snd run = h ++ added ++ [answer] /\ filter isResponse added = [] /\
     match searchDocuments svc question topK h with
     | (Ok result, _) => answer = ResJson 200 (BodyQuery result)
     | (Err _, _) => answer = ResJson 500 (BodyFailure (js "Error processing query"))
     end) /\
  (let run := ragRoute svc toText question topK h in
   fst run = Ok tt /\
   exists added answer,
     snd run = h ++ added ++ [answer] /\ filter isResponse added = [] /\
     match queryRAG svc toText question topK h with
     | (Ok result, _) => answer = ResJson 200 (BodyRag result)
     | (Err _, _) => answer = ResJson 500 (BodyFailure (js "Error processing RAG query"))
     end).
Proof.
  cbv zeta. split.
  - unfold queryRoute, try_catch, bind, record.
    destruct (searchDocuments_cases question topK h)
      as [(e & _ & H) | [(vector & e & _ & _ & H) | (vector & hits & _ & _ & H)]];
      rewrite H; cbn [fst snd]; (split; [reflexivity|]).
    + exists [CallEmbedQuery question],
             (ResJson 500 (BodyFailure (js "Error processing query"))).
      rewrite <- app_assoc. split; [reflexivity|]. split; reflexivity.
    + exists [CallEmbedQuery question; CallSearch vector (orThree topK)],
             (ResJson 500 (BodyFailure (js "Error processing query"))).
      rewrite <- app_assoc. split; [reflexivity|]. split; reflexivity.
    + exists [CallEmbedQuery question; CallSearch vector (orThree topK)].
      eexists. rewrite <- app_assoc. split; [reflexivity|]. split; reflexivity.
  - unfold ragRoute, try_catch, bind, record.
    destruct (queryRAG_cases question topK h)
      as [(e & added & Hfst & Hsnd & Hllm & Hres)
         | [(vector & Hrun) | (vector & hits & Hne & Hsnd & Hfst)]]; cbv zeta in *.
    + destruct (queryRAG svc toText question topK h) as [r h1].
      cbn [fst snd] in Hfst, Hsnd. subst r h1. cbn [fst snd].
      split; [reflexivity|].
      exists added, (ResJson 500 (BodyFailure (js "Error processing RAG query"))).
      rewrite <- app_assoc. split; [reflexivity|]. split; [exact Hres|reflexivity].
    + rewrite Hrun. cbn [fst snd]. split; [reflexivity|].
      exists [CallEmbedQuery question; CallSearch vector (orThree topK)].
      eexists. rewrite <- app_assoc. split; [reflexivity|]. split; reflexivity.
    + destruct (queryRAG svc toText question topK h) as [r h1].
      cbn [fst snd] in Hfst, Hsnd. subst r h1.
      destruct (invoke svc _ _ question) as [answer|e]; cbn [fst snd];
        (split; [reflexivity|]);
        exists [CallEmbedQuery question; CallSearch vector (orThree topK);
                CallInvoke (contextOf toText (List.map toSearchResponse hits)) question];
        eexists; rewrite <- !app_assoc; (split; [reflexivity|]);
        split; reflexivity.
Qed.

End AnyServices.

(** *** The theorems at the demo services *)

Lemma search_results_mirror_the_hits_witness :
  exists resp h',
    searchDocuments (services [hit "a.pdf" "one"; hit "b.pdf" "two"] false)
                    (js "What?") None [] = (Ok resp, h') /\
    retrievedChunks resp = 2 /\
    exists vector, h' = [CallEmbedQuery (js "What?"); CallSearch vector 3%Z].
Proof.
  destruct (searchDocuments (services [hit "a.pdf" "one"; hit "b.pdf" "two"] false)
                            (js "What?") None []) as [[resp|e] h'] eqn:Hrun;
    [|vm_compute in Hrun; discriminate].
  destruct (search_results_mirror_the_hits _ _ _ _ _ _ Hrun)
    as (vector & hits & _ & Hsearch & Hh' & _ & Hcount & _).
  exists resp, h'. split; [reflexivity|].
  injection Hsearch as <-. split; [exact Hcount|]. now exists vector.
Defined.

Example nothing_found_asks_no_model :
  queryRAG (services [] false) showValue (js "What?") (Some 5%Z) []
  = (Ok {| rag_question := js "What?"; rag_answer := NOT_FOUND; rag_sources := [] |},
     [CallEmbedQuery (js "What?"); CallSearch (repeat (S754_zero false) 384) 5%Z]).
Proof. reflexivity. Qed.

Example stream_breaks_after_two_tokens :
  frames (snd (ragStreamRoute (services [hit "a.pdf" "one"] true) showValue
                              (js "What?") None []))
  = [ FrameSources [ {| src_fileName := VString (js "a.pdf");
                        src_chunkIndex := VUndefined;
                        src_score := S754_zero false |} ];
      FrameToken (js "Si"); FrameToken (js "m.");
      FrameFailure (js "Error processing RAG stream query") ].
Proof. reflexivity. Qed.

Example context_numbers_the_hits_from_one :
  contextOf showValue
    (List.map toSearchResponse [hit "a.pdf" "one"; hit "b.pdf" "two"])
  = js "[1]: one" ++ [LF; LF] ++ js "[2]: two".
Proof. reflexivity. Qed.

End RagFacts.
